(** * The sequence analytics engine of the 3n+1 visualisation

    A shallow embedding of the analytic core of the repository:
    - [CollatzAlgorithm]   (src/js/algorithm.js),
    - [DataManager]        (the bounded store, dataManager.js),
    - [ComparisonAnalyzer] (src/js/comparisonAnalyzer.js),
    followed by the properties of these functions that the specification
    states.

    ** Numbers

    A JavaScript number is an IEEE-754 double.  Every integer of magnitude at
    most 2^53 is such a number, and [+], [-], [*], [/ 2] and [%] on integers
    are exact as long as the result stays in that range.  [JS.Double] is the
    arithmetic of doubles: an operation returns the double nearest to the
    exact result, a tie going to the even significand, with subnormals and
    with overflow to an infinity; the zero carries no sign.  Computed in
    doubles are
    - the step 3n + 1 of [generateSequence], [getNextNumber] and
      [analyzePatterns] (the product is rounded, then the sum),
    - the sum, [averageValue] and [peakToTroughRatio] of
      [calculateStatistics],
    - [averageValueDifference] of [compareSequences],
    - [ComparisonAnalyzer.InDoubles], the correlations as the host computes
      them.
    The other functions are stated on the exact integers ([Z]), quotients
    ([Q]) and, for Pearson's formula, reals ([R]); a theorem about them
    that rounding could break names the range in which the host computes
    these values exactly ([exact_sum], [small], [exact_moments], a bound on
    the [variation] of a sequence).  The specification leaves the behaviour
    outside the host's exact range open (section 4.1, "Numeric semantics").
    A decimal literal is the rational it spells: 0.25, 0.5, 0.75 and 1.5 are
    doubles; 0.2 and 0.3 occur under [Math.floor] or [Math.ceil] of their
    product with an array length, where the product of doubles has the same
    floor and ceiling for every length the iteration cap allows; 0.1, 0.3
    and 0.9 are otherwise stored, or compared with a tenth of a small
    integer.  The functions whose outcome depends on the rounding of doubles
    in another way ([hasSmoothConvergence], the deviation test of the
    pattern catalog) are not part of the development.

    ** Effects

    [throw new Error(msg)] is the constructor [Throw (Error msg)] of [result];
    [console.warn] is a list of messages returned next to the value; a method
    that reads or writes [this] takes the object's state and returns the new
    one; the clock ([Date.now()], [new Date()]) is an argument.  A call
    [f(...array)] throws a [RangeError] when the array has more elements
    than the engine takes arguments; what holds on every engine is stated
    for an array [within_argument_limit]. *)

From Stdlib Require Import ZArith QArith Qabs Qround Reals Lra Lia Psatz.
From Stdlib Require Import List String Ascii DecimalString DecimalZ DecimalPos DecimalFacts.
From stdpp Require Import gmap strings list sorting.
Import ListNotations.

Open Scope Z_scope.

(** ** The host language *)

Module JS.

(** What is thrown: [new Error(message)], or the [RangeError] of the
    engine (its message differs from engine to engine). *)
Inductive error : Type :=
| Error (message : string)
| RangeError.

(** The outcome of a call that may throw. *)
Inductive result (A : Type) : Type :=
| Ok (a : A)
| Throw (e : error).
Arguments Ok {A} a.
Arguments Throw {A} e.

(** What a caller may pass where a number is expected.  The finite
    numbers of the host are the doubles, the rationals that
    [Double.representable] holds of: a literal or a computation that names
    another rational reaches the callee as the double nearest to it, or as
    an infinity. *)
Inductive value : Type :=
| Num (x : Q)      (* a finite number *)
| NaN
| Infinity
| NegInfinity
| NonNumber.       (* undefined, null, a string, an object, ... *)

(** A number the host has computed: a double. *)
Inductive double : Type :=
| finite (x : Q)
| infinite (negative : bool)
| not_a_number.

(** The arithmetic of doubles: every operation returns the double nearest
    to the exact result, a tie going to the even significand.  The zero has
    no sign here: none of the functions below divides by a zero that could
    be negative. *)
Module Double.

(** The double nearest to the integer [n]: [n] itself up to 2^53, and
    above that the nearest multiple of the power of two that leaves 53
    bits.  (For magnitudes below 2^1024; the functions below apply it to
    3n and 3n + 1 for an odd double n, which are below 2^55.) *)
Definition nearest (n : Z) : Z :=
  if Z.abs n <? 2 ^ 53 then n
  else
    let unit := 2 ^ (Z.log2 (Z.abs n) - 52) in
    let q := Z.abs n / unit in
    let r := Z.abs n mod unit in
    let m :=
      match 2 * r ?= unit with
      | Lt => q
      | Gt => q + 1
      | Eq => if Z.even q then q else q + 1
      end in
    Z.sgn n * (m * unit).

(** 2^e *)
Definition pow2 (e : Z) : Q :=
  if 0 <=? e then inject_Z (2 ^ e) else 1 # Z.to_pos (2 ^ (- e)).

(** floor(log2 x) for [0 < x]: the difference of the bit lengths of
    numerator and denominator, or one less. *)
Definition log2_floor (x : Q) : Z :=
  let d := Z.log2 (Qnum x) - Z.log2 (Z.pos (Qden x)) in
  if Qle_bool (pow2 d) x then d else d - 1.

(** The integer nearest to [x], a half going to the even one. *)
Definition round_half_even (x : Q) : Z :=
  let f := Qfloor x in
  match Qcompare (x - inject_Z f)%Q (1 # 2) with
  | Lt => f
  | Gt => f + 1
  | Eq => if Z.even f then f else f + 1
  end.

(** [Number.MAX_VALUE] *)
Definition largest : Q := inject_Z ((2 ^ 53 - 1) * 2 ^ 971).

(** The double nearest to the rational [x]: [x] is rounded to 53 bits
    (to a multiple of 2^-1074 for a subnormal), and is an infinity when
    that exceeds the largest double. *)
Definition round (x : Q) : double :=
  let x := Qred x in
  if Qeq_bool x 0 then finite 0
  else
    let e := Z.max (-1074) (log2_floor (Qabs x) - 52) in
    let y := (inject_Z (round_half_even (Qabs x / pow2 e)) * pow2 e)%Q in
    if Qle_bool y largest
    then finite (Qred (if Qle_bool 0 x then y else (- y)%Q))
    else infinite (negb (Qle_bool 0 x)).

(** The rational [x] is a double. *)
Definition representable (x : Q) : Prop := round x = finite (Qred x).

(** The number [n]. *)
Definition of_Z (n : Z) : double := finite (inject_Z n).

(** [-v] *)
Definition opposite (v : double) : double :=
  match v with
  | finite x => finite (Qred (- x)%Q)
  | infinite negative => infinite (negb negative)
  | not_a_number => not_a_number
  end.

(** [v + w] *)
Definition add (v w : double) : double :=
  match v, w with
  | finite x, finite y => round (x + y)%Q
  | not_a_number, _ | _, not_a_number => not_a_number
  | infinite a, infinite b => if Bool.eqb a b then infinite a else not_a_number
  | infinite a, finite _ | finite _, infinite a => infinite a
  end.

(** [v - w] *)
Definition sub (v w : double) : double := add v (opposite w).

Definition negative (x : Q) : bool := negb (Qle_bool 0 x).

(** [v * w] *)
Definition mul (v w : double) : double :=
  match v, w with
  | finite x, finite y => round (x * y)%Q
  | not_a_number, _ | _, not_a_number => not_a_number
  | infinite a, infinite b => infinite (xorb a b)
  | infinite a, finite y | finite y, infinite a =>
      if Qeq_bool y 0 then not_a_number else infinite (xorb a (negative y))
  end.

(** [v / w] *)
Definition div (v w : double) : double :=
  match v, w with
  | finite x, finite y =>
      if Qeq_bool y 0
      then (if Qeq_bool x 0 then not_a_number else infinite (negative x))
      else round (x / y)%Q
  | not_a_number, _ | _, not_a_number => not_a_number
  | infinite _, infinite _ => not_a_number
  | infinite a, finite y => infinite (xorb a (negative y))
  | finite _, infinite _ => finite 0
  end.

(** The double nearest to the square root of [0 < x]: with [k] the
    floor of half of floor(log2 x), the root lies in [2^k, 2^(k+1)), and
    [s], the integer part of the root of [x] scaled by 4^(52-k), has 53
    bits; the root is rounded up when the scaled [x] is above
    (s + 1/2)^2. *)
Definition sqrt_round (x : Q) : Q :=
  let e := log2_floor x / 2 - 52 in
  let y := (x / pow2 (2 * e))%Q in
  let s := Z.sqrt (Qfloor y) in
  let m :=
    match Qcompare y (inject_Z (s * s + s) + (1 # 4))%Q with
    | Lt => s
    | Gt => s + 1
    | Eq => if Z.even s then s else s + 1
    end in
  Qred (inject_Z m * pow2 e)%Q.

(** [Math.sqrt(v)] *)
Definition sqrt (v : double) : double :=
  match v with
  | finite x =>
      if Qeq_bool x 0 then finite 0
      else if negative x then not_a_number
      else finite (sqrt_round x)
  | infinite false => infinite false
  | infinite true => not_a_number
  | not_a_number => not_a_number
  end.

(** [v === 0] *)
Definition is_zero (v : double) : bool :=
  match v with
  | finite x => Qeq_bool x 0
  | _ => false
  end.

End Double.

(** [Number.isInteger(v)]: a finite number without fractional part. *)
Definition Number_isInteger (v : value) : bool :=
  match v with
  | Num x => Z.pos (Qden (Qred x)) =? 1
  | _ => false
  end.

(** [v < k] for a number [v] (evaluated on numbers only). *)
Definition less (v : value) (k : Q) : bool :=
  match v with
  | Num x => negb (Qle_bool k x)
  | NegInfinity => true
  | _ => false
  end.

(** The integer a number stands for, once [Number_isInteger] holds. *)
Definition to_Z (v : value) : Z :=
  match v with
  | Num x => Qnum (Qred x)
  | _ => 0
  end.

(** [`${n}`] for an integer [n]: its decimal digits, with a leading [-]
    below zero. *)
Definition toString (n : Z) : string := NilZero.string_of_int (Z.to_int n).

(** [f(...array)] passes one argument per element.  ECMAScript puts no
    bound on the number of arguments of a call; every engine has one, set
    by its stack, and throws a [RangeError] past it (JavaScriptCore takes
    65,536 arguments, V8 about 125,000 on its default stack, SpiderMonkey
    500,000).  The functions below that spread an array are the functions
    of an engine without bound; what they return is what every engine
    returns for an array [within_argument_limit]. *)
Definition within_argument_limit {A} (array : list A) : Prop :=
  Z.of_nat (length array) <= 65535.

(** [Math.max(...l)] and [Math.min(...l)] on a non-empty array (every call
    below is on one; on no argument the host returns -Infinity and
    Infinity). *)
Definition Math_max (l : list Z) : Z :=
  match l with
  | [] => 0
  | x :: l' => fold_left Z.max l' x
  end.

Definition Math_min (l : list Z) : Z :=
  match l with
  | [] => 0
  | x :: l' => fold_left Z.min l' x
  end.

(** [l.length]. *)
Definition len {A} (l : list A) : Z := Z.of_nat (length l).

(** [l[i]] for [0 <= i < l.length] ([d] stands for an index out of range). *)
Definition at_ (l : list Z) (i : Z) (d : Z) : Z :=
  if (i <? 0) then d else nth (Z.to_nat i) l d.

(** [l.indexOf(x)]: the first index holding [x], or -1. *)
Fixpoint indexOf_from (l : list Z) (x : Z) (i : Z) : Z :=
  match l with
  | [] => -1
  | y :: l' => if y =? x then i else indexOf_from l' x (i + 1)
  end.

Definition indexOf (l : list Z) (x : Z) : Z := indexOf_from l x 0.

(** [l.slice(-k)]: the last [k] elements; [slice(-0)] is [slice(0)], the
    whole array. *)
Definition slice_last {A} (l : list A) (k : Z) : list A :=
  if k =? 0 then l else skipn (length l - Z.to_nat k) l.

(** [l.slice(a, b)] for [0 <= a]: the elements at indices [a .. b-1]. *)
Definition slice {A} (l : list A) (a b : Z) : list A :=
  firstn (Z.to_nat (b - a)) (skipn (Z.to_nat a) l).

(** The indices [lo, lo+1, ..., hi-1] of a [for] loop. *)
Definition range (lo hi : Z) : list Z :=
  map (fun k => lo + Z.of_nat k) (seq 0 (Z.to_nat (hi - lo))).

(** [while (cond) body], run for at most [fuel] rounds. *)
Fixpoint while {St : Type} (fuel : nat) (cond : St -> bool) (body : St -> St) (s : St) : St :=
  match fuel with
  | O => s
  | S fuel' => if cond s then while fuel' cond body (body s) else s
  end.

(** [a.every((val, idx) => val === b[idx])]: an index that [b] does not
    have reads [undefined], which is equal to no number. *)
Fixpoint every_equal (a b : list Z) : bool :=
  match a, b with
  | [], _ => true
  | _ :: _, [] => false
  | val :: a', other :: b' => (val =? other) && every_equal a' b'
  end.

(** [l.sort(compare)]; the host's sort is stable.  [before a b] stands for
    [compare(a, b) <= 0]: [a] may stay in front of [b]. *)
Fixpoint insert_by {A} (before : A -> A -> bool) (x : A) (l : list A) : list A :=
  match l with
  | [] => [x]
  | y :: l' => if before x y then x :: y :: l' else y :: insert_by before x l'
  end.

Definition stable_sort {A} (before : A -> A -> bool) (l : list A) : list A :=
  fold_right (insert_by before) [] l.

(** The keys of an object filled by [obj[v] = ...] for the integers [l] in
    turn: a key is created at the first assignment to it.  A key is the
    decimal text of its integer and is given here as that integer. *)
Definition created_keys (l : list Z) : list Z :=
  fold_left (fun keys v => if existsb (Z.eqb v) keys then keys else keys ++ [v]) l [].

(** A key that is an array index: a canonical integer from 0 up to
    2^32 - 2. *)
Definition is_array_index (k : Z) : bool := (0 <=? k) && (k <? 4294967295).

(** [Object.keys(obj)]: the array indices in ascending order, then the
    other keys in the order of their creation. *)
Definition Object_keys (created : list Z) : list Z :=
  merge_sort Z.le (List.filter is_array_index created)
  ++ List.filter (fun k => negb (is_array_index k)) created.

(** The keys of an object filled by [obj[name] = ...] for the strings [l]
    in turn, in the order of their creation. *)
Definition created_names (l : list string) : list string :=
  fold_left (fun keys v => if existsb (String.eqb v) keys then keys else keys ++ [v]) l [].

(** The array index that a key spells, if it spells one: the key is the
    decimal text of an integer from 0 up to 2^32 - 2. *)
Definition array_index (key : string) : option Z :=
  match NilZero.uint_of_string key with
  | Some d =>
      if String.eqb (toString (Z.of_uint d)) key && is_array_index (Z.of_uint d)
      then Some (Z.of_uint d) else None
  | None => None
  end.

(** [Object.keys(obj)] for string keys: the array indices in ascending
    order, then the other keys in the order of their creation. *)
Definition Object_names (created : list string) : list string :=
  map toString (merge_sort Z.le (omap array_index created))
  ++ List.filter (fun key => match array_index key with Some _ => false | None => true end)
                 created.

(** [Math.round(x)]: the nearest integer, a half goes up. *)
Definition Math_round (x : Q) : Z := Qfloor (x + (1 # 2)).

(** [Math.ceil(x)] *)
Definition Math_ceil (x : Q) : Z := Qceiling x.

End JS.
Import JS.

(** ** algorithm.js: [CollatzAlgorithm] *)

Module CollatzAlgorithm.

(** The local variables of [generateSequence]'s loop. *)
Record locals : Type := mkLocals {
  sequence : list Z;
  current : Z;
  iterations : Z
}.

Definition maxIterations : Z := 1000000.

Definition invalid_start : error :=
  Error "Начальное число должно быть положительным целым числом".

Definition cap_warning (startNumber : Z) : string :=
  "Достигнуто максимальное количество итераций для числа " ++ toString startNumber.

(** [current !== 1 && iterations < maxIterations] *)
Definition loop_cond (s : locals) : bool :=
  negb (current s =? 1) && (iterations s <? maxIterations).

(** The body of the loop: one step, pushed on the sequence.  Halving an
    even double is exact; [3 * current] and the sum [3 * current + 1] are
    rounded, each in its turn. *)
Definition loop_body (s : locals) : locals :=
  let current' :=
    if Z.rem (current s) 2 =? 0 then current s / 2
    else Double.nearest (Double.nearest (3 * current s) + 1) in
  {| sequence := sequence s ++ [current'];
     current := current';
     iterations := iterations s + 1 |}.

(** The loop; [iterations] starts at 0 and the condition fails once it is
    [maxIterations], so [maxIterations] rounds are all it can take. *)
Definition run_loop (startNumber : Z) : locals :=
  while (Z.to_nat maxIterations) loop_cond loop_body
    {| sequence := [startNumber]; current := startNumber; iterations := 0 |}.

(** [generateSequence(startNumber)]: the sequence, and what was written
    with [console.warn]. *)
Definition generateSequence (startNumber : value) : result (list Z * list string) :=
  if negb (Number_isInteger startNumber) || less startNumber 1 then
    Throw invalid_start
  else
    let s := run_loop (to_Z startNumber) in
    let console :=
      if maxIterations <=? iterations s then [cap_warning (to_Z startNumber)] else [] in
    Ok (sequence s, console).

(** [getNextNumber(n)] *)
Definition getNextNumber (n : Z) : Z :=
  if Z.rem n 2 =? 0 then n / 2 else Double.nearest (Double.nearest (3 * n) + 1).

(** The number of direction changes: the indices [1 <= i < length - 1]
    whose element is strictly above or strictly below both neighbours. *)
Definition is_turn (sequence : list Z) (i : Z) : bool :=
  let prev := at_ sequence (i - 1) 0 in
  let curr := at_ sequence i 0 in
  let next := at_ sequence (i + 1) 0 in
  ((prev <? curr) && (next <? curr)) || ((curr <? prev) && (curr <? next)).

Definition directionChanges (sequence : list Z) : Z :=
  fold_left (fun n i => if is_turn sequence i then n + 1 else n)
    (range 1 (len sequence - 1)) 0.

Record Statistics : Type := mkStatistics {
  length : Z;
  maxValue : Z;
  minValue : Z;
  steps : Z;
  hasReachedOne : bool;
  startNumber : Z;
  endNumber : Z;
  averageValue : double;
  evenCount : Z;
  oddCount : Z;
  maxValueIndex : Z;
  peakToTroughRatio : double;
  complexity : Z
}.

Definition empty_sequence : error :=
  Error "Последовательность должна быть непустым массивом".

(** [calculateStatistics(sequence)] *)
Definition calculateStatistics (sequence : list Z) : result Statistics :=
  if len sequence =? 0 then Throw empty_sequence
  else
    let maxValue := Math_max sequence in
    let minValue := Math_min sequence in
    Ok {| length := len sequence;
          maxValue := maxValue;
          minValue := minValue;
          steps := len sequence - 1;
          hasReachedOne := at_ sequence (len sequence - 1) 0 =? 1;
          startNumber := at_ sequence 0 0;
          endNumber := at_ sequence (len sequence - 1) 0;
          averageValue :=
            Double.div
              (fold_left (fun sum num => Double.add sum (Double.of_Z num)) sequence
                         (Double.of_Z 0))
              (Double.of_Z (len sequence));
          evenCount := len (List.filter (fun num => Z.rem num 2 =? 0) sequence);
          oddCount := len (List.filter (fun num => Z.rem num 2 =? 1) sequence);
          maxValueIndex := indexOf sequence (Math_max sequence);
          peakToTroughRatio :=
            if 0 <? minValue then Double.div (Double.of_Z maxValue) (Double.of_Z minValue)
            else Double.of_Z 0;
          complexity := directionChanges sequence |}.


(** [reachesOne(sequence)] *)
Definition reachesOne (sequence : list Z) : bool :=
  at_ sequence (len sequence - 1) 0 =? 1.

(** [arraysEqual(arr1, arr2)] *)
Definition arraysEqual (arr1 arr2 : list Z) : bool :=
  if negb (len arr1 =? len arr2) then false
  else forallb (fun '(val, other) => val =? other) (combine arr1 arr2).

(** [findRepeatingPatterns(sequence)] *)
Definition findRepeatingPatterns (sequence : list Z) : list (list Z) :=
  let maxPatternLength := Z.min 10 (len sequence / 2) in
  flat_map (fun patternLength =>
    flat_map (fun start =>
      let pattern := slice sequence start (start + patternLength) in
      let nextOccurrence :=
        let from := start + patternLength in
        let i := indexOf (skipn (Z.to_nat from) sequence) (at_ pattern 0 0) in
        if i =? -1 then -1 else from + i in
      if negb (nextOccurrence =? -1)
         && arraysEqual pattern
              (slice sequence nextOccurrence (nextOccurrence + patternLength))
      then [pattern] else [])
      (range 0 (len sequence - patternLength * 2 + 1)))
    (range 2 (maxPatternLength + 1)).

Inductive stepType : Type := divide | multiply.

Record Patterns : Type := mkPatterns {
  cycles : list (list Z);
  repeatingPatterns : list (list Z);
  growthRate : list (option Q);   (* [None]: a quotient by 0, not finite *)
  stepTypes : list stepType
}.

(** [analyzePatterns(sequence)] *)
Definition analyzePatterns (sequence : list Z) : Patterns :=
  {| cycles := [];
     repeatingPatterns := findRepeatingPatterns sequence;
     growthRate :=
       map (fun i =>
              if at_ sequence (i - 1) 0 =? 0 then None
              else Some (Qdiv (inject_Z (at_ sequence i 0))
                              (inject_Z (at_ sequence (i - 1) 0))))
           (range 1 (len sequence));
     stepTypes :=
       flat_map (fun i =>
              let current := at_ sequence i 0 in
              let next := at_ sequence (i + 1) 0 in
              if Qeq_bool (inject_Z next) (Qdiv (inject_Z current) 2) then [divide]
              else if next =? Double.nearest (Double.nearest (3 * current) + 1)
              then [multiply]
              else [])
           (range 0 (len sequence - 1)) |}.

(** The local variables of [generateSequenceOptimized]'s loop: those of
    [generateSequence], the cache, and whether [break] was reached. *)
Record cached_locals : Type := mkCachedLocals {
  c_sequence : list Z;
  c_current : Z;
  c_iterations : Z;
  c_cache : gmap Z (list Z);
  c_break : bool
}.

Definition cached_cond (s : cached_locals) : bool :=
  negb (c_break s) && negb (c_current s =? 1) && (c_iterations s <? maxIterations).

Definition cached_body (s : cached_locals) : cached_locals :=
  match c_cache s !! c_current s with
  | Some cachedSequence =>
      {| c_sequence := c_sequence s ++ cachedSequence;
         c_current := c_current s;
         c_iterations := c_iterations s;
         c_cache := c_cache s;
         c_break := true |}
  | None =>
      let next := getNextNumber (c_current s) in
      {| c_sequence := c_sequence s ++ [next];
         c_current := next;
         c_iterations := c_iterations s + 1;
         c_cache :=
           if c_current s <? 10000 then <[c_current s := [next]]> (c_cache s)
           else c_cache s;
         c_break := false |}
  end.

(** The loop: a round either counts an iteration or breaks, so
    [maxIterations] rounds are all it can take. *)
Definition run_cached_loop (startNumber : Z) : cached_locals :=
  while (Z.to_nat maxIterations) cached_cond cached_body
    {| c_sequence := [startNumber];
       c_current := startNumber;
       c_iterations := 0;
       c_cache := ∅;
       c_break := false |}.

(** [generateSequenceOptimized(startNumber)] *)
Definition generateSequenceOptimized (startNumber : value) : result (list Z * list string) :=
  if negb (Number_isInteger startNumber) || less startNumber 1 then
    Throw invalid_start
  else
    let s := run_cached_loop (to_Z startNumber) in
    let console :=
      if maxIterations <=? c_iterations s then [cap_warning (to_Z startNumber)] else [] in
    Ok (c_sequence s, console).

(** An element of the array [findLongSequences] returns. *)
Record longSequence : Type := mkLongSequence {
  number : Z;
  long_sequence : list Z;
  long_statistics : Statistics
}.

(** What one round of [findLongSequences]'s loop pushes on [results]; a
    number whose sequence or statistics throw is skipped (the [catch]
    writes a warning and the loop goes on). *)
Definition visit (minLength i : Z) : list longSequence :=
  match generateSequence (Num (inject_Z i)) with
  | Throw _ => []
  | Ok (sequence, _) =>
      match calculateStatistics sequence with
      | Throw _ => []
      | Ok stats =>
          if minLength <=? length stats
          then [ {| number := i; long_sequence := sequence; long_statistics := stats |} ]
          else []
      end
  end.

(** [findLongSequences(start, end, minLength)] for integers [start] and
    [end]: the array returned. *)
Definition findLongSequences (start end_ minLength : Z) : list longSequence :=
  stable_sort
    (fun a b => length (long_statistics b) - length (long_statistics a) <=? 0)
    (flat_map (visit minLength) (range start (end_ + 1))).

End CollatzAlgorithm.

(** ** dataManager.js: [DataManager], the bounded store *)

Module DataManager.

(** A stored record, as [addSequence] builds it. *)
Record sequenceData : Type := mkSequenceData {
  id : string;
  startNumber : Z;
  sequence : list Z;
  statistics : CollatzAlgorithm.Statistics;
  color : string;
  createdAt : string;
  patterns : CollatzAlgorithm.Patterns
}.

(** A registered callback.  Callbacks are observers: calling one records
    the call and leaves the store alone (an exception it throws is caught
    by [notifyListeners]). *)
Definition listener : Type := nat.

(** One call [callback(data)] made by [notifyListeners(event, data)];
    [data] is [None] where the source passes no argument. *)
Record notification : Type := mkNotification {
  callback : listener;
  event : string;
  data : option sequenceData
}.

(** The fields of the object, and the calls made to callbacks so far. *)
Record state : Type := mkState {
  sequences : list sequenceData;
  currentSequenceId : Z;
  maxSequences : Z;
  eventListeners : gmap string (list listener);
  notified : list notification
}.

(** [new DataManager()] *)
Definition constructor : state :=
  {| sequences := [];
     currentSequenceId := 0;
     maxSequences := 10;
     eventListeners := ∅;
     notified := [] |}.

Definition set_sequences (l : list sequenceData) (s : state) : state :=
  {| sequences := l;
     currentSequenceId := currentSequenceId s;
     maxSequences := maxSequences s;
     eventListeners := eventListeners s;
     notified := notified s |}.

(** [notifyListeners(event, data)]: every callback registered for [event]
    is called, in registration order. *)
Definition notifyListeners (ev : string) (d : option sequenceData) (s : state) : state :=
  match eventListeners s !! ev with
  | Some callbacks =>
      {| sequences := sequences s;
         currentSequenceId := currentSequenceId s;
         maxSequences := maxSequences s;
         eventListeners := eventListeners s;
         notified := notified s ++ map (fun cb => mkNotification cb ev d) callbacks |}
  | None => s
  end.

(** [addEventListener(event, callback)] *)
Definition addEventListener (ev : string) (cb : listener) (s : state) : state :=
  {| sequences := sequences s;
     currentSequenceId := currentSequenceId s;
     maxSequences := maxSequences s;
     eventListeners :=
       <[ev := match eventListeners s !! ev with
               | Some callbacks => callbacks ++ [cb]
               | None => [cb]
               end]> (eventListeners s);
     notified := notified s |}.

(** [generateId()] at clock reading [now]:
    [`seq_${Date.now()}_${++this.currentSequenceId}`]. *)
Definition generateId (now : Z) (s : state) : string * state :=
  let n := currentSequenceId s + 1 in
  (("seq_" ++ toString now ++ "_" ++ toString n)%string,
   {| sequences := sequences s;
      currentSequenceId := n;
      maxSequences := maxSequences s;
      eventListeners := eventListeners s;
      notified := notified s |}).

Definition colors : list string :=
  ["#3b82f6"; "#ef4444"; "#10b981"; "#f59e0b"; "#8b5cf6";
   "#06b6d4"; "#f97316"; "#ec4899"; "#84cc16"; "#6366f1"]%string.

(** [generateColor(index)] *)
Definition generateColor (index : Z) : string :=
  nth (Z.to_nat (Z.rem index (len colors))) colors ""%string.

(** [addSequence(startNumber, sequence)], with the two clock readings it
    makes: [Date.now()] and [new Date().toISOString()]. *)
Definition addSequence (now : Z) (iso : string) (startNumber : Z) (sequence : list Z)
    (s : state) : result sequenceData * state :=
  let s :=
    if maxSequences s <=? len (sequences s)
    then set_sequences (tl (sequences s)) s      (* this.sequences.shift() *)
    else s in
  let '(id, s) := generateId now s in
  match CollatzAlgorithm.calculateStatistics sequence with
  | Throw e => (Throw e, s)
  | Ok statistics =>
      let color := generateColor (len (sequences s)) in
      let sequenceData :=
        {| id := id;
           startNumber := startNumber;
           sequence := sequence;
           statistics := statistics;
           color := color;
           createdAt := iso;
           patterns := CollatzAlgorithm.analyzePatterns sequence |} in
      let s := set_sequences (sequences s ++ [sequenceData]) s in
      let s := notifyListeners "sequenceAdded" (Some sequenceData) s in
      (Ok sequenceData, s)
  end.

(** [findIndex(seq => seq.id === id)] and [splice(index, 1)] *)
Fixpoint findIndex (l : list sequenceData) (i : string) : option nat :=
  match l with
  | [] => None
  | x :: l' => if String.eqb (id x) i then Some O else option_map S (findIndex l' i)
  end.

(** [removeSequence(id)] *)
Definition removeSequence (i : string) (s : state) : bool * state :=
  match findIndex (sequences s) i with
  | Some index =>
      match nth_error (sequences s) index with
      | Some removedSequence =>
          let s := set_sequences
                     (firstn index (sequences s) ++ skipn (S index) (sequences s)) s in
          (true, notifyListeners "sequenceRemoved" (Some removedSequence) s)
      | None => (false, s)
      end
  | None => (false, s)
  end.

(** [getSequences()]: a copy of the array. *)
Definition getSequences (s : state) : list sequenceData := sequences s.

(** [clearSequences()] *)
Definition clearSequences (s : state) : state :=
  notifyListeners "sequencesCleared" None (set_sequences [] s).

(** A call of one of the three mutating methods, or the registration of an
    observer, with its arguments. *)
Inductive call : Type :=
| AddSequence (now : Z) (iso : string) (startNumber : Z) (sequence : list Z)
| RemoveSequence (i : string)
| ClearSequences
| AddEventListener (ev : string) (cb : listener).

(** The state after a call, and the id the call assigned to a new record
    (if it returned one). *)
Definition step (c : call) (s : state) : option string * state :=
  match c with
  | AddSequence now iso startNumber sequence =>
      match addSequence now iso startNumber sequence s with
      | (Ok r, s') => (Some (id r), s')
      | (Throw _, s') => (None, s')
      end
  | RemoveSequence i => (None, snd (removeSequence i s))
  | ClearSequences => (None, clearSequences s)
  | AddEventListener ev cb => (None, addEventListener ev cb s)
  end.

(** A run of calls from state [s]: the ids assigned, in order, and the
    final state. *)
Fixpoint run (cs : list call) (s : state) : list string * state :=
  match cs with
  | [] => ([], s)
  | c :: cs' =>
      let '(i, s') := step c s in
      let '(ids, s'') := run cs' s' in
      (match i with Some x => x :: ids | None => ids end, s'')
  end.

(** [getSequenceById(id)]; [None] stands for [null]. *)
Definition getSequenceById (i : string) (s : state) : option sequenceData :=
  List.find (fun seq => String.eqb (id seq) i) (sequences s).

(** [getLastSequence()]; [None] stands for [null]. *)
Definition getLastSequence (s : state) : option sequenceData :=
  if 0 <? len (sequences s)
  then nth_error (sequences s) (Z.to_nat (len (sequences s) - 1))
  else None.

(** [listeners.indexOf(callback)]; [None] stands for -1. *)
Fixpoint listener_index (listeners : list listener) (cb : listener) : option nat :=
  match listeners with
  | [] => None
  | x :: listeners' =>
      if Nat.eqb x cb then Some O else option_map S (listener_index listeners' cb)
  end.

(** [removeEventListener(event, callback)] *)
Definition removeEventListener (ev : string) (cb : listener) (s : state) : state :=
  match eventListeners s !! ev with
  | Some listeners =>
      match listener_index listeners cb with
      | Some index =>
          {| sequences := sequences s;
             currentSequenceId := currentSequenceId s;
             maxSequences := maxSequences s;
             eventListeners :=
               <[ev := firstn index listeners ++ skipn (S index) listeners]>
                 (eventListeners s);
             notified := notified s |}
      | None => s
      end
  | None => s
  end.

Record OverallStatistics : Type := mkOverallStatistics {
  totalSequences : Z;
  averageLength : Q;
  maxLength : Z;
  minLength : Z;
  totalSteps : Z;
  sequencesReachingOne : Z;
  averageMaxValue : Q;
  mostCommonMaxValue : Z
}.

(** [maxValueCounts[k]] once [forEach] has counted [maxValues]. *)
Definition maxValueCount (maxValues : list Z) (k : Z) : Z :=
  len (List.filter (Z.eqb k) maxValues).

(** [Object.keys(maxValueCounts).reduce((a, b) =>
       maxValueCounts[a] > maxValueCounts[b] ? a : b)]
    followed by [parseInt], which reads the key back as its integer.  The
    object has a key as soon as [maxValues] has an element (on no key
    [reduce] throws; [getOverallStatistics] returns before that). *)
Definition mostCommon (maxValues : list Z) : Z :=
  match Object_keys (created_keys maxValues) with
  | [] => 0
  | k :: keys =>
      fold_left (fun a b => if maxValueCount maxValues b <? maxValueCount maxValues a
                            then a else b)
                keys k
  end.

(** [getOverallStatistics()] *)
Definition getOverallStatistics (s : state) : OverallStatistics :=
  if len (sequences s) =? 0 then
    {| totalSequences := 0;
       averageLength := 0;
       maxLength := 0;
       minLength := 0;
       totalSteps := 0;
       sequencesReachingOne := 0;
       averageMaxValue := 0;
       mostCommonMaxValue := 0 |}
  else
    let lengths := map (fun seq => CollatzAlgorithm.length (statistics seq)) (sequences s) in
    let maxValues := map (fun seq => CollatzAlgorithm.maxValue (statistics seq)) (sequences s) in
    let steps := map (fun seq => CollatzAlgorithm.steps (statistics seq)) (sequences s) in
    let reachingOne :=
      len (List.filter (fun seq => CollatzAlgorithm.hasReachedOne (statistics seq))
                       (sequences s)) in
    {| totalSequences := len (sequences s);
       averageLength :=
         Qdiv (inject_Z (fold_left (fun sum len => sum + len) lengths 0))
              (inject_Z (len lengths));
       maxLength := Math_max lengths;
       minLength := Math_min lengths;
       totalSteps := fold_left (fun sum step => sum + step) steps 0;
       sequencesReachingOne := reachingOne;
       averageMaxValue :=
         Qdiv (inject_Z (fold_left (fun sum val => sum + val) maxValues 0))
              (inject_Z (len maxValues));
       mostCommonMaxValue := mostCommon maxValues |}.

(** [calculateSimilarity(seq1, seq2)]; [None] stands for the [NaN] that
    0 / 0 gives when one of the arrays is empty. *)
Definition calculateSimilarity (seq1 seq2 : list Z) : option Q :=
  let minLength := Z.min (len seq1) (len seq2) in
  let matches :=
    fold_left (fun matches i => if at_ seq1 i 0 =? at_ seq2 i 0 then matches + 1 else matches)
              (range 0 minLength) 0 in
  if minLength =? 0 then None
  else Some (Qdiv (inject_Z matches) (inject_Z minLength)).

(** The object [compareSequences] returns.  A ratio is [None] when its
    quotient is by 0 (the host gives [Infinity] or [NaN]). *)
Record comparison : Type := mkComparison {
  lengthDifference : Z;
  maxValueDifference : Z;
  stepDifference : Z;
  complexityDifference : Z;
  averageValueDifference : double;
  evenOddRatio1 : option Q;
  evenOddRatio2 : option Q;
  similarity : option Q
}.

Definition not_found : error := Error "Одна или обе последовательности не найдены".

Definition evenOddRatio (statistics : CollatzAlgorithm.Statistics) : option Q :=
  if CollatzAlgorithm.oddCount statistics =? 0 then None
  else Some (Qdiv (inject_Z (CollatzAlgorithm.evenCount statistics))
                  (inject_Z (CollatzAlgorithm.oddCount statistics))).

(** [compareSequences(id1, id2)] *)
Definition compareSequences (id1 id2 : string) (s : state) : result comparison :=
  match getSequenceById id1 s, getSequenceById id2 s with
  | Some seq1, Some seq2 =>
      Ok {| lengthDifference :=
              CollatzAlgorithm.length (statistics seq1)
              - CollatzAlgorithm.length (statistics seq2);
            maxValueDifference :=
              CollatzAlgorithm.maxValue (statistics seq1)
              - CollatzAlgorithm.maxValue (statistics seq2);
            stepDifference :=
              CollatzAlgorithm.steps (statistics seq1)
              - CollatzAlgorithm.steps (statistics seq2);
            complexityDifference :=
              CollatzAlgorithm.complexity (statistics seq1)
              - CollatzAlgorithm.complexity (statistics seq2);
            averageValueDifference :=
              Double.sub (CollatzAlgorithm.averageValue (statistics seq1))
                         (CollatzAlgorithm.averageValue (statistics seq2));
            evenOddRatio1 := evenOddRatio (statistics seq1);
            evenOddRatio2 := evenOddRatio (statistics seq2);
            similarity := calculateSimilarity (sequence seq1) (sequence seq2) |}
  | _, _ => Throw not_found
  end.



(** The argument of [filterSequences]; a filter that is not given is
    [None]. *)
Record filters : Type := mkFilters {
  filter_minLength : option Z;
  filter_maxLength : option Z;
  filter_minMaxValue : option Z;
  filter_maxMaxValue : option Z;
  filter_reachingOne : option bool
}.

(** [if (filters.minLength)]: the branch is taken for a number other
    than 0. *)
Definition truthy (filter : option Z) : bool :=
  match filter with
  | Some v => negb (v =? 0)
  | None => false
  end.

(** [a === b] for a boolean [a] and a filter value [b] that is a
    boolean. *)
Definition same_bool (a b : bool) : bool := Bool.eqb a b.

(** The number a filter holds (read only where the filter is [truthy]). *)
Definition filter_value (filter : option Z) : Z :=
  match filter with
  | Some v => v
  | None => 0
  end.

(** [filterSequences(filters)] for filters that are numbers and a
    boolean. *)
Definition filterSequences (f : filters) (s : state) : list sequenceData :=
  let filtered := sequences s in
  let filtered :=
    if truthy (filter_minLength f)
    then List.filter (fun seq => filter_value (filter_minLength f)
                                 <=? CollatzAlgorithm.length (statistics seq)) filtered
    else filtered in
  let filtered :=
    if truthy (filter_maxLength f)
    then List.filter (fun seq => CollatzAlgorithm.length (statistics seq)
                                 <=? filter_value (filter_maxLength f)) filtered
    else filtered in
  let filtered :=
    if truthy (filter_minMaxValue f)
    then List.filter (fun seq => filter_value (filter_minMaxValue f)
                                 <=? CollatzAlgorithm.maxValue (statistics seq)) filtered
    else filtered in
  let filtered :=
    if truthy (filter_maxMaxValue f)
    then List.filter (fun seq => CollatzAlgorithm.maxValue (statistics seq)
                                 <=? filter_value (filter_maxMaxValue f)) filtered
    else filtered in
  match filter_reachingOne f with
  | Some b =>
      List.filter (fun seq => same_bool (CollatzAlgorithm.hasReachedOne (statistics seq)) b)
                  filtered
  | None => filtered
  end.

End DataManager.

(** ** comparisonAnalyzer.js: [ComparisonAnalyzer] *)

Module ComparisonAnalyzer.

(** A tag put on a sequence by [detectPatterns]. *)
Record PatternTag : Type := mkPatternTag {
  name : string;
  description : string;
  tag_color : string
}.

(** A cycle found by [findCycles]. *)
Record CycleRecord : Type := mkCycleRecord {
  cycle_length : Z;
  start : Z;
  repeats : Z;
  pattern : list Z;
  totalLength : Z
}.

Inductive convergenceKind : Type := unknown | smooth | oscillating | irregular.

Definition kind_name (k : convergenceKind) : string :=
  match k with
  | unknown => "unknown"
  | smooth => "smooth"
  | oscillating => "oscillating"
  | irregular => "irregular"
  end.

(** The result of [analyzeConvergence]; [stabilityScore] is [None] when
    the quotient it is computed from is 0 / 0. *)
Record ConvergenceAnalysis : Type := mkConvergenceAnalysis {
  convergenceType : convergenceKind;
  convergenceSpeed : Q;
  oscillationLevel : Q;
  stabilityScore : option Q
}.

(** [lastValues.every((val, idx) => idx === 0 || val <= lastValues[idx-1])] *)
Definition every_non_increasing (lastValues : list Z) : bool :=
  forallb (fun idx => (idx =? 0) || (at_ lastValues idx 0 <=? at_ lastValues (idx - 1) 0))
          (range 0 (len lastValues)).

(** [analyzeConvergence(sequence)] *)
Definition analyzeConvergence (sequence : list Z) : ConvergenceAnalysis :=
  if len sequence <? 3 then
    {| convergenceType := unknown;
       convergenceSpeed := 0;
       oscillationLevel := 0;
       stabilityScore := Some 0%Q |}
  else
    let oscillations :=
      fold_left (fun n i => if CollatzAlgorithm.is_turn sequence i then n + 1 else n)
                (range 1 (len sequence - 1)) 0 in
    let oscillationLevel := Qdiv (inject_Z oscillations) (inject_Z (len sequence - 2)) in
    let differences :=
      map (fun i => Z.abs (at_ sequence i 0 - at_ sequence (i - 1) 0))
          (range 1 (len sequence)) in
    let avgDifference :=
      Qdiv (inject_Z (fold_left (fun a b => a + b) differences 0))
           (inject_Z (len differences)) in
    let maxDifference := Math_max differences in
    let stabilityScore :=
      if maxDifference =? 0 then None
      else Some (1 - Qdiv avgDifference (inject_Z maxDifference))%Q in
    let lastValues :=
      slice_last sequence (Z.min 10 (Qfloor (inject_Z (len sequence) * 0.2))) in
    let isDecreasing := every_non_increasing lastValues in
    let isConverging :=
      Qle_bool (inject_Z (at_ lastValues (len lastValues - 1) 0))
               (inject_Z (Math_max lastValues) * 0.5) in
    if isDecreasing && isConverging then
      {| convergenceType := smooth;
         convergenceSpeed := 1 - oscillationLevel;
         oscillationLevel := oscillationLevel;
         stabilityScore := stabilityScore |}
    else if negb (Qle_bool oscillationLevel 0.5) then
      {| convergenceType := oscillating;
         convergenceSpeed := 0.5;
         oscillationLevel := oscillationLevel;
         stabilityScore := stabilityScore |}
    else
      {| convergenceType := irregular;
         convergenceSpeed := 0.3;
         oscillationLevel := oscillationLevel;
         stabilityScore := stabilityScore |}.

(** A sequence held by the analyzer: the record it was given, with the
    tags, cycles and convergence analysis [addSequence] attached. *)
Record entry : Type := mkEntry {
  id : string;
  startNumber : Z;
  sequence : list Z;
  statistics : CollatzAlgorithm.Statistics;
  patterns : list PatternTag;
  cycles : list CycleRecord;
  convergenceAnalysis : ConvergenceAnalysis
}.

(** [calculateCorrelation(x, y)] on real numbers: Pearson's coefficient, the
    value of the method's formula when none of its operations rounds.  What
    the host computes is [InDoubles.calculateCorrelation] below. *)
Definition calculateCorrelation (x y : list R) : R :=
  let n := INR (length x) in
  if negb (length x =? length y)%nat || (length x =? 0)%nat then 0%R
  else
    let sumX := fold_left (fun a b => a + b)%R x 0%R in
    let sumY := fold_left (fun a b => a + b)%R y 0%R in
    let sumXY :=
      fold_left (fun sum i => sum + nth i x 0 * nth i y 0)%R (seq 0 (length x)) 0%R in
    let sumX2 := fold_left (fun sum xi => sum + xi * xi)%R x 0%R in
    let sumY2 := fold_left (fun sum yi => sum + yi * yi)%R y 0%R in
    let numerator := (n * sumXY - sumX * sumY)%R in
    let denominator :=
      sqrt ((n * sumX2 - sumX * sumX) * (n * sumY2 - sumY * sumY))%R in
    if Req_dec_T denominator 0 then 0%R else (numerator / denominator)%R.

(** The four properties [calculateCorrelations] reads off each sequence. *)
Record properties : Type := mkProperties {
  p_startNumber : R;
  p_length : R;
  p_maxValue : R;
  p_steps : R
}.

(** [calculateCorrelations()] on real numbers: the object returned, as its
    list of keys and values. *)
Definition calculateCorrelations (sequences : list entry) : list (string * R) :=
  if (length sequences <? 2)%nat then []
  else
    let properties :=
      map (fun seq =>
             {| p_startNumber := IZR (startNumber seq);
                p_length := IZR (CollatzAlgorithm.length (statistics seq));
                p_maxValue := IZR (CollatzAlgorithm.maxValue (statistics seq));
                p_steps := IZR (CollatzAlgorithm.steps (statistics seq)) |})
          sequences in
    [ ("lengthVsMaxValue"%string,
       calculateCorrelation (map p_length properties) (map p_maxValue properties));
      ("startNumberVsLength"%string,
       calculateCorrelation (map p_startNumber properties) (map p_length properties));
      ("startNumberVsMaxValue"%string,
       calculateCorrelation (map p_startNumber properties) (map p_maxValue properties));
      ("stepsVsLength"%string,
       calculateCorrelation (map p_steps properties) (map p_length properties)) ].

(** [calculateCorrelation] and [calculateCorrelations] as the host
    computes them: every sum, product, difference, root and quotient is a
    double. *)
Module InDoubles.

(** [x.reduce((a, b) => a + b, 0)] *)
Definition sum_of (x : list Z) : double :=
  fold_left (fun a b => Double.add a (Double.of_Z b)) x (Double.of_Z 0).

(** [x.reduce((sum, xi, i) => sum + xi * y[i], 0)], for arrays of one
    length. *)
Definition sum_of_products (x y : list Z) : double :=
  fold_left
    (fun sum '(xi, yi) => Double.add sum (Double.mul (Double.of_Z xi) (Double.of_Z yi)))
    (combine x y) (Double.of_Z 0).

(** [n * sumXY - sumX * sumY] *)
Definition numerator (x y : list Z) : double :=
  let n := Double.of_Z (len x) in
  Double.sub (Double.mul n (sum_of_products x y)) (Double.mul (sum_of x) (sum_of y)).

(** [Math.sqrt((n * sumX2 - sumX * sumX) * (n * sumY2 - sumY * sumY))] *)
Definition denominator (x y : list Z) : double :=
  let n := Double.of_Z (len x) in
  Double.sqrt
    (Double.mul
       (Double.sub (Double.mul n (sum_of_products x x)) (Double.mul (sum_of x) (sum_of x)))
       (Double.sub (Double.mul n (sum_of_products y y)) (Double.mul (sum_of y) (sum_of y)))).

(** [calculateCorrelation(x, y)] *)
Definition calculateCorrelation (x y : list Z) : double :=
  if negb (len x =? len y) || (len x =? 0) then Double.of_Z 0
  else if Double.is_zero (denominator x y) then Double.of_Z 0
  else Double.div (numerator x y) (denominator x y).

(** [calculateCorrelations()]: the object returned, as its list of keys
    and values. *)
Definition calculateCorrelations (sequences : list entry) : list (string * double) :=
  if (length sequences <? 2)%nat then []
  else
    let startNumbers := map startNumber sequences in
    let lengths := map (fun seq => CollatzAlgorithm.length (statistics seq)) sequences in
    let maxValues := map (fun seq => CollatzAlgorithm.maxValue (statistics seq)) sequences in
    let steps := map (fun seq => CollatzAlgorithm.steps (statistics seq)) sequences in
    [ ("lengthVsMaxValue"%string, calculateCorrelation lengths maxValues);
      ("startNumberVsLength"%string, calculateCorrelation startNumbers lengths);
      ("startNumberVsMaxValue"%string, calculateCorrelation startNumbers maxValues);
      ("stepsVsLength"%string, calculateCorrelation steps lengths) ].

End InDoubles.

(** [obj[key]]: the value under a key, [None] for [undefined]. *)
Fixpoint get {A} (obj : list (string * A)) (key : string) : option A :=
  match obj with
  | [] => None
  | (k, v) :: obj' => if String.eqb k key then Some v else get obj' key
  end.

(** [hasCyclicPattern(sequence)]: the two loops return [true] at the first
    block that is followed by a copy of itself. *)
Definition hasCyclicPattern (sequence : list Z) : bool :=
  if len sequence <? 6 then false
  else
    existsb (fun len_ =>
      existsb (fun start =>
        let pattern := slice sequence start (start + len_) in
        let nextPattern := slice sequence (start + len_) (start + len_ * 2) in
        every_equal pattern nextPattern)
        (range 0 (len sequence - len_ * 2 + 1)))
      (range 2 (Z.min 10 (len sequence / 2) + 1)).

(** [hasExponentialGrowth(sequence)] *)
Definition hasExponentialGrowth (sequence : list Z) : bool :=
  if len sequence <? 5 then false
  else
    let growthCount :=
      fold_left (fun growthCount i =>
                   if negb (Qle_bool (inject_Z (at_ sequence i 0))
                                     (inject_Z (at_ sequence (i - 1) 0) * 1.5))
                   then growthCount + 1 else growthCount)
                (range 1 (len sequence)) 0 in
    Qfloor (inject_Z (len sequence) * 0.3) <=? growthCount.

(** The innermost loop of [findCycles]: [repeatCount] after the offsets
    [offsets] have been tried in turn, up to the first block that differs
    from [cycle] ([break]). *)
Fixpoint count_repeats (sequence cycle : list Z) (start cycleLength : Z)
    (offsets : list Z) (repeatCount : Z) : Z :=
  match offsets with
  | [] => repeatCount
  | offset :: offsets' =>
      let nextCycle := slice sequence (start + offset) (start + offset + cycleLength) in
      if every_equal cycle nextCycle
      then count_repeats sequence cycle start cycleLength offsets' (repeatCount + 1)
      else repeatCount
  end.

(** The offsets [cycleLength, 2 * cycleLength, ...] that are at most
    [length - cycleLength]. *)
Definition offsets (length cycleLength : Z) : list Z :=
  map (fun k => k * cycleLength) (range 1 (length / cycleLength)).

(** [findCycles(sequence)] *)
Definition findCycles (sequence : list Z) : list CycleRecord :=
  flat_map (fun cycleLength =>
    flat_map (fun start =>
      let cycle := slice sequence start (start + cycleLength) in
      let repeatCount :=
        count_repeats sequence cycle start cycleLength
          (offsets (len sequence) cycleLength) 1 in
      if 2 <=? repeatCount then
        [ {| cycle_length := cycleLength;
             start := start;
             repeats := repeatCount;
             pattern := cycle;
             totalLength := cycleLength * repeatCount |} ]
      else [])
      (range 0 (len sequence - cycleLength * 2 + 1)))
    (range 2 (Z.min 20 (len sequence / 2) + 1)).

(** [mostCommonCycleLength]: the number 0 it starts as, or the key of
    [lengthCounts] it is set to (a key is a string, the decimal text of
    the length [k]). *)
Inductive lengthKey : Type := no_key | key (k : Z).

Record CycleStatistics : Type := mkCycleStatistics {
  totalCycles : Z;
  averageCycleLength : Q;
  mostCommonCycleLength : lengthKey;
  sequencesWithCycles : Z
}.

(** [analyzeCycles()], which reads [this.sequences]. *)
Definition analyzeCycles (sequences : list entry) : CycleStatistics :=
  let cycleLengths := flat_map (fun seq => map cycle_length (cycles seq)) sequences in
  let totalCycles := len cycleLengths in
  let sequencesWithCycles :=
    len (List.filter (fun seq => 0 <? len (cycles seq)) sequences) in
  if 0 <? len cycleLengths then
    let lengthCounts := fun k => len (List.filter (Z.eqb k) cycleLengths) in
    {| totalCycles := totalCycles;
       averageCycleLength :=
         Qdiv (inject_Z (fold_left (fun a b => a + b) cycleLengths 0))
              (inject_Z (len cycleLengths));
       mostCommonCycleLength :=
         match stable_sort (fun a b => lengthCounts b - lengthCounts a <=? 0)
                           (Object_keys (created_keys cycleLengths)) with
         | k :: _ => key k
         | [] => no_key      (* not reached: [cycleLengths] has an element *)
         end;
       sequencesWithCycles := sequencesWithCycles |}
  else
    {| totalCycles := 0;
       averageCycleLength := 0;
       mostCommonCycleLength := no_key;
       sequencesWithCycles := 0 |}.

(** An element of the array [findCommonPatterns] returns. *)
Record commonPattern : Type := mkCommonPattern {
  common_name : string;
  frequency : Q
}.

(** [findCommonPatterns(sequences)] *)
Definition findCommonPatterns (sequences : list entry) : list commonPattern :=
  let names := flat_map (fun seq => map name (patterns seq)) sequences in
  let patternCounts := fun key => len (List.filter (String.eqb key) names) in
  map (fun key =>
         {| common_name := key;
            frequency := Qdiv (inject_Z (patternCounts key)) (inject_Z (len sequences)) |})
      (List.filter
         (fun key => Math_ceil (inject_Z (len sequences) * 0.3) <=? patternCounts key)
         (Object_names (created_names names))).

(** What [predictProperties] returns: a confidence with a message, or a
    prediction. *)
Inductive prediction : Type :=
| declined (confidence : Q) (message : string)
| predicted (confidence : Q) (predictedLength predictedMaxValue similarSequences : Z)
            (common : list commonPattern).

(** [predictProperties(startNumber)], which reads [this.sequences]. *)
Definition predictProperties (sequences : list entry) (start_ : Z) : prediction :=
  if len sequences <? 5 then
    declined 0 "Недостаточно данных для предсказания"
  else
    let distance := fun seq => Z.abs (startNumber seq - start_) in
    let similarSequences :=
      stable_sort (fun a b => distance a - distance b <=? 0)
                  (List.filter (fun seq => distance seq <=? 10) sequences) in
    if len similarSequences =? 0 then
      declined 0.1 "Нет похожих последовательностей для сравнения"
    else
      let avgLength :=
        Qdiv (inject_Z (fold_left (fun sum seq => sum + CollatzAlgorithm.length (statistics seq))
                                  similarSequences 0))
             (inject_Z (len similarSequences)) in
      let avgMaxValue :=
        Qdiv (inject_Z (fold_left (fun sum seq => sum + CollatzAlgorithm.maxValue (statistics seq))
                                  similarSequences 0))
             (inject_Z (len similarSequences)) in
      let ratio := Qdiv (inject_Z (len similarSequences)) 10 in
      let confidence := if Qle_bool 0.9 ratio then 0.9%Q else ratio in
      predicted confidence (Math_round avgLength) (Math_round avgMaxValue)
                (len similarSequences) (findCommonPatterns similarSequences).

(** The quartiles and bounds [calculateOutlierStats] returns. *)
Record OutlierStats : Type := mkOutlierStats {
  q1 : Z;
  q3 : Z;
  iqr : Z;
  lowerBound : Q;
  upperBound : Q
}.

(** [calculateOutlierStats(values)]; the copy [[...values]] is sorted in
    ascending order, [values] is left as it is. *)
Definition calculateOutlierStats (values : list Z) : OutlierStats :=
  let sorted := merge_sort Z.le values in
  let q1 := at_ sorted (Qfloor (inject_Z (len sorted) * 0.25)) 0 in
  let q3 := at_ sorted (Qfloor (inject_Z (len sorted) * 0.75)) 0 in
  let iqr := q3 - q1 in
  {| q1 := q1;
     q3 := q3;
     iqr := iqr;
     lowerBound := inject_Z q1 - 1.5 * inject_Z iqr;
     upperBound := inject_Z q3 + 1.5 * inject_Z iqr |}.

Inductive severityLevel : Type := low | medium | high.

(** [calculateAnomalySeverity(value, stats)] *)
Definition calculateAnomalySeverity (value : Z) (stats : OutlierStats) : severityLevel :=
  let distance := Qabs (inject_Z value - (inject_Z (q1 stats) + inject_Z (q3 stats)) / 2) in
  let iqr := inject_Z (iqr stats) in
  if negb (Qle_bool distance (iqr * 3)) then high
  else if negb (Qle_bool distance (iqr * 2)) then medium
  else low.

(** The [type] of an anomaly: ['length'], ['maxValue'] or ['pattern']. *)
Inductive anomalyType : Type := type_length | type_maxValue | type_pattern.

(** The [value] of an anomaly: a number, or the string ['no_patterns']. *)
Inductive anomalyValue : Type := number (z : Z) | no_patterns.

Record anomaly : Type := mkAnomaly {
  type : anomalyType;
  anomaly_sequence : entry;
  value : anomalyValue;
  anomaly_description : string;
  severity : severityLevel
}.

(** [v > stats.upperBound || v < stats.lowerBound] *)
Definition outside (v : Z) (stats : OutlierStats) : bool :=
  negb (Qle_bool (inject_Z v) (upperBound stats))
  || negb (Qle_bool (lowerBound stats) (inject_Z v)).

Section Analyzer.

(** [this.statistics], the summary [updateStatistics] stored last, and
    the three aggregates of a report computed by
    [analyzePatternDistribution], [analyzeCycles] and
    [analyzeOverallConvergence] are values the functions below only
    pass on to the serializer [JSON.stringify]. *)
Variable Summary : Type.
Variable Aggregates : Type.
Variable aggregates : list entry -> Aggregates.

(** The fields of the analyzer the functions below read. *)
Record state : Type := mkState {
  this_sequences : list entry;
  this_statistics : Summary
}.

(** [findAnomalies()]: the anomalies, and the analyzer after the call. *)
Definition findAnomalies (this : state) : list anomaly * state :=
  if (length (this_sequences this) <? 3)%nat then ([], this)
  else
    let lengths :=
      map (fun seq => CollatzAlgorithm.length (statistics seq)) (this_sequences this) in
    let maxValues :=
      map (fun seq => CollatzAlgorithm.maxValue (statistics seq)) (this_sequences this) in
    let lengthStats := calculateOutlierStats lengths in
    let by_length :=
      flat_map (fun '(seq, v) =>
          if outside v lengthStats then
            [ {| type := type_length;
                 anomaly_sequence := seq;
                 value := number v;
                 anomaly_description :=
                   ("Длина " ++ toString v
                    ++ " выходит за пределы нормального диапазона")%string;
                 severity := calculateAnomalySeverity v lengthStats |} ]
          else [])
        (combine (this_sequences this) lengths) in
    let maxValueStats := calculateOutlierStats maxValues in
    let by_maxValue :=
      flat_map (fun '(seq, v) =>
          if outside v maxValueStats then
            [ {| type := type_maxValue;
                 anomaly_sequence := seq;
                 value := number v;
                 anomaly_description :=
                   ("Максимальное значение " ++ toString v
                    ++ " выходит за пределы нормального диапазона")%string;
                 severity := calculateAnomalySeverity v maxValueStats |} ]
          else [])
        (combine (this_sequences this) maxValues) in
    let by_pattern :=
      flat_map (fun seq =>
          if (length (patterns seq) =? 0)%nat then
            [ {| type := type_pattern;
                 anomaly_sequence := seq;
                 value := no_patterns;
                 anomaly_description :=
                   "Последовательность не соответствует ни одному известному паттерну";
                 severity := medium |} ]
          else [])
        (this_sequences this) in
    (by_length ++ by_maxValue ++ by_pattern, this).

(** One line of the report's [sequences]. *)
Record line : Type := mkLine {
  line_id : string;
  line_startNumber : Z;
  line_length : Z;
  line_maxValue : Z;
  line_patterns : list PatternTag;
  line_cycles : list CycleRecord;
  line_convergenceAnalysis : ConvergenceAnalysis
}.

Record report : Type := mkReport {
  timestamp : string;
  totalSequences : Z;
  report_statistics : Summary;
  anomalies : list anomaly;
  correlations : list (string * R);
  report_aggregates : Aggregates;
  report_sequences : list line
}.

(** [generateComparisonReport()], with the date [new Date()] reads. *)
Definition generateComparisonReport (now : string) (this : state) : report * state :=
  let '(found, this) := findAnomalies this in
  ({| timestamp := now;
      totalSequences := len (this_sequences this);
      report_statistics := this_statistics this;
      anomalies := found;
      correlations := calculateCorrelations (this_sequences this);
      report_aggregates := aggregates (this_sequences this);
      report_sequences :=
        map (fun seq =>
               {| line_id := id seq;
                  line_startNumber := startNumber seq;
                  line_length := CollatzAlgorithm.length (statistics seq);
                  line_maxValue := CollatzAlgorithm.maxValue (statistics seq);
                  line_patterns := patterns seq;
                  line_cycles := cycles seq;
                  line_convergenceAnalysis := convergenceAnalysis seq |})
            (this_sequences this) |},
   this).

(** [convertToCSV(report)] *)
Definition convertToCSV (r : report) : string :=
  let headers :=
    ["ID"; "Start Number"; "Length"; "Max Value"; "Patterns"; "Cycles";
     "Convergence Type"]%string in
  let rows :=
    map (fun seq =>
           [ line_id seq;
             toString (line_startNumber seq);
             toString (line_length seq);
             toString (line_maxValue seq);
             String.concat "; " (map name (line_patterns seq));
             toString (len (line_cycles seq));
             kind_name (convergenceType (line_convergenceAnalysis seq)) ])
        (report_sequences r) in
  let dq := String (ascii_of_nat 34) EmptyString in     (* the double quote *)
  let nl := String (ascii_of_nat 10) EmptyString in     (* the line feed *)
  let quote (cell : string) : string := (dq ++ cell ++ dq)%string in
  String.concat nl
    (map (fun row => String.concat "," (map quote row)) (headers :: rows)).

(** [JSON.stringify(report, null, 2)], the host's serializer. *)
Variable JSON_stringify : report -> string.

(** [exportComparisonData(format)].  The method has no [throw]; its
    outcome is given the type of a call that may throw so that it can be
    compared with a failure. *)
Definition exportComparisonData (now : string) (format : string) (this : state)
    : result string * state :=
  let '(r, this) := generateComparisonReport now this in
  if String.eqb format "json" then (Ok (JSON_stringify r), this)
  else if String.eqb format "csv" then (Ok (convertToCSV r), this)
  else (Ok ""%string, this).

End Analyzer.

Arguments mkState {Summary} this_sequences this_statistics.
Arguments this_sequences {Summary} s.
Arguments this_statistics {Summary} s.
Arguments findAnomalies {Summary} this.
Arguments timestamp {Summary Aggregates} r.
Arguments totalSequences {Summary Aggregates} r.
Arguments report_statistics {Summary Aggregates} r.
Arguments anomalies {Summary Aggregates} r.
Arguments correlations {Summary Aggregates} r.
Arguments report_aggregates {Summary Aggregates} r.
Arguments report_sequences {Summary Aggregates} r.
Arguments generateComparisonReport {Summary Aggregates} aggregates now this.
Arguments convertToCSV {Summary Aggregates} r.
Arguments exportComparisonData {Summary Aggregates} aggregates JSON_stringify now format this.

End ComparisonAnalyzer.

(** * Vocabulary of the specification *)

(** The step rule between neighbours [a], [b] of a sequence. *)
Definition step_rule (a b : Z) : Prop :=
  (Z.even a = true -> b = a / 2) /\ (Z.odd a = true -> b = 3 * a + 1).

(** The step the host takes from [a] to [b]: the step rule with the
    product [3 * a] and the sum [3 * a + 1] rounded to doubles. *)
Definition host_step (a b : Z) : Prop :=
  (Z.even a = true -> b = a / 2) /\
  (Z.odd a = true -> b = Double.nearest (Double.nearest (3 * a) + 1)).

(** The step rule for the numbers that the host triples exactly: those
    with 3a + 1 at most 2^53. *)
Definition exact_step (a b : Z) : Prop := 3 * a + 1 <= 2 ^ 53 -> step_rule a b.

(** Every adjacent pair of [l] obeys [rule]. *)
Definition adjacent_pairs_obey (rule : Z -> Z -> Prop) (l : list Z) : Prop :=
  forall (i : nat) (a b : Z), l !! i = Some a -> l !! S i = Some b -> rule a b.

(** The sum of the integers [l]. *)
Definition total (l : list Z) : Z := fold_right Z.add 0 l.

(** The non-negative integers [l] add up to less than 2^53: the host adds
    them exactly, in whatever order. *)
Definition exact_sum (l : list Z) : Prop :=
  Forall (fun x => 0 <= x) l /\ total l < 2 ^ 53.

(** The sum of the distances between the neighbours of [l]. *)
Fixpoint variation (l : list Z) : Z :=
  match l with
  | a :: (b :: _) as l' => Z.abs (b - a) + variation l'
  | _ => 0
  end.

(** An integer of magnitude at most 2^50.  The outlier test adds two such
    integers, halves the sum and takes up to three times their difference:
    multiples of 1/2 below 2^53, which the host computes exactly. *)
Definition small (v : Z) : Prop := Z.abs v <= 2 ^ 50.

(** An integer that the host writes with its decimal digits, as it does
    below 10^21 (from there on the text has an exponent), so that the
    text is a key that [parseInt] reads back as the number. *)
Definition written_in_digits (v : Z) : Prop := Z.abs v < 10 ^ 21.

(** The products of the elements of [x] and [y] at one index. *)
Definition products (x y : list Z) : list Z := map (fun '(a, b) => a * b) (combine x y).

(** [n] times the sum of the squared deviations of the integers [x] from
    their mean, which is 0 exactly when all of [x] are one value. *)
Definition scatter (x : list Z) : Z := len x * total (products x x) - total x * total x.

Definition covary (x y : list Z) : Z := len x * total (products x y) - total x * total y.

(** The non-negative integers [x], as many times the sum of their squares
    as they are, stay below 2^53: the host computes their sum, the sum of
    their squares and [scatter x] exactly. *)
Definition exact_moments (x : list Z) : Prop :=
  Forall (fun v => 0 <= v) x /\ len x * total (products x x) < 2 ^ 53.

(** The value [v] is the integer [n]. *)
Definition is_integer (v : value) (n : Z) : Prop :=
  match v with
  | Num x => (x == inject_Z n)%Q
  | _ => False
  end.

(** The value [v] is a positive integer. *)
Definition positive_integer (v : value) : Prop :=
  exists n : Z, 1 <= n /\ is_integer v n.

(** What holds of the locals of [generateSequence] each time its loop
    condition is tested. *)
Record loop_invariant (startNumber : Z) (s : CollatzAlgorithm.locals) : Prop := {
  inv_head : CollatzAlgorithm.sequence s !! 0%nat = Some startNumber;
  inv_last : last (CollatzAlgorithm.sequence s) = Some (CollatzAlgorithm.current s);
  inv_length : len (CollatzAlgorithm.sequence s) = CollatzAlgorithm.iterations s + 1;
  inv_pairs : adjacent_pairs_obey host_step (CollatzAlgorithm.sequence s);
  inv_not_one :
    forall i, (S i < length (CollatzAlgorithm.sequence s))%nat ->
              CollatzAlgorithm.sequence s !! i <> Some 1;
  inv_positive : Forall (fun x => 1 <= x) (CollatzAlgorithm.sequence s);
  inv_iterations :
    0 <= CollatzAlgorithm.iterations s <= CollatzAlgorithm.maxIterations
}.

(** [c] occurs in [s]. *)
Fixpoint occurs (c : ascii) (s : string) : bool :=
  match s with
  | EmptyString => false
  | String a s' => Ascii.eqb a c || occurs c s'
  end.

(** The id [generateId] builds from the clock reading [now] and the
    counter value [n]. *)
Definition id_text (now n : Z) : string :=
  ("seq_" ++ toString now ++ "_" ++ toString n)%string.

(** What holds of the store after any run of calls; [ids] are the ids
    assigned so far, in the order of their assignment. *)
Record store_invariant (ids : list string) (s : DataManager.state) : Prop := {
  si_max : DataManager.maxSequences s = 10;
  si_bound : len (DataManager.sequences s) <= 10;
  si_counter : 0 <= DataManager.currentSequenceId s;
  si_ids :
    Forall (fun i => exists now n,
                i = id_text now n /\ 1 <= n <= DataManager.currentSequenceId s) ids;
  si_nodup : NoDup ids;
  si_order : map DataManager.id (DataManager.sequences s) `sublist_of` ids
}.

(** The array after the eviction step of [addSequence]. *)
Definition after_eviction (s : DataManager.state) : list DataManager.sequenceData :=
  if DataManager.maxSequences s <=? len (DataManager.sequences s)
  then tl (DataManager.sequences s)
  else DataManager.sequences s.

(** Sample data: the sequences of 1 .. 11, added at successive clock
    readings; a store with one observer of removals (0) and one of
    additions (1). *)
Definition sequence_of (k : Z) : list Z :=
  match CollatzAlgorithm.generateSequence (Num (inject_Z k)) with
  | Ok (seq, _) => seq
  | Throw _ => []
  end.

Definition sample_add (k : Z) : DataManager.call :=
  DataManager.AddSequence (1700000000000 + k) "2023-11-14T22:13:20.000Z" k (sequence_of k).

Definition ten_adds : list DataManager.call := map sample_add (range 1 11).

Definition two_observers : list DataManager.call :=
  [DataManager.AddEventListener "sequenceRemoved" 0%nat;
   DataManager.AddEventListener "sequenceAdded" 1%nat].

Definition full_store : DataManager.state :=
  snd (DataManager.run (two_observers ++ ten_adds) DataManager.constructor).

Definition eleventh (s : DataManager.state)
    : result DataManager.sequenceData * DataManager.state :=
  DataManager.addSequence 1700000000011 "2023-11-14T22:13:20.011Z" 11 (sequence_of 11) s.

(** The calls made to callbacks between two states: the callback, the
    event and the start number of the record passed. *)
Definition new_notifications (before after : DataManager.state)
    : list (DataManager.listener * string * option Z) :=
  map (fun x => (DataManager.callback x, DataManager.event x,
                 option_map DataManager.startNumber (DataManager.data x)))
      (skipn (length (DataManager.notified before)) (DataManager.notified after)).

(** The values [analyzeConvergence] looks at: the last
    min(10, floor(length / 5)) ones, all of them when that number is 0. *)
Definition trailing_window (sequence : list Z) : list Z :=
  let k := Z.min 10 (len sequence / 5) in
  if k =? 0 then sequence else skipn (length sequence - Z.to_nat k) sequence.

(** No value of [l] is above an earlier one. *)
Definition non_increasing (l : list Z) : Prop :=
  forall (i j : nat) (a b : Z), (i <= j)%nat -> l !! i = Some a -> l !! j = Some b -> b <= a.

(** [top] is the largest value of [l]. *)
Definition is_maximum (top : Z) (l : list Z) : Prop :=
  In top l /\ Forall (fun x => x <= top) l.

(** The window never rises and ends at no more than half its maximum. *)
Definition smooth_tail (window : list Z) : Prop :=
  non_increasing window /\
  exists final top, last window = Some final /\ is_maximum top window /\ 2 * final <= top.

(** Sample data: an analyzer entry for the sequence of [k] with the tags
    [tags], and an analyzer holding the entries of 1, 2, 3, 4 and 27, the
    entry of 3 without a tag. *)
Definition sample_entry (k : Z) (tags : list ComparisonAnalyzer.PatternTag)
    : ComparisonAnalyzer.entry :=
  {| ComparisonAnalyzer.id := id_text (1700000000000 + k) k;
     ComparisonAnalyzer.startNumber := k;
     ComparisonAnalyzer.sequence := sequence_of k;
     ComparisonAnalyzer.statistics :=
       match CollatzAlgorithm.calculateStatistics (sequence_of k) with
       | Ok stats => stats
       | Throw _ =>
           CollatzAlgorithm.mkStatistics 0 0 0 0 false 0 0 (finite 0) 0 0 0 (finite 0) 0
       end;
     ComparisonAnalyzer.patterns := tags;
     ComparisonAnalyzer.cycles := [];
     ComparisonAnalyzer.convergenceAnalysis :=
       ComparisonAnalyzer.analyzeConvergence (sequence_of k) |}.

Definition fast : ComparisonAnalyzer.PatternTag :=
  {| ComparisonAnalyzer.name := "Быстрая сходимость";
     ComparisonAnalyzer.description := "Последовательности, которые быстро достигают 1";
     ComparisonAnalyzer.tag_color := "#10b981" |}.

Definition long : ComparisonAnalyzer.PatternTag :=
  {| ComparisonAnalyzer.name := "Длинная последовательность";
     ComparisonAnalyzer.description := "Последовательности с большим количеством шагов";
     ComparisonAnalyzer.tag_color := "#ef4444" |}.

Definition sample_analyzer : ComparisonAnalyzer.state unit :=
  {| ComparisonAnalyzer.this_sequences :=
       [sample_entry 1 [fast]; sample_entry 2 [fast]; sample_entry 3 [];
        sample_entry 4 [fast]; sample_entry 27 [long]];
     ComparisonAnalyzer.this_statistics := tt |}.

(** Pearson's coefficient, as the specification states it. *)
Definition sum (l : list R) : R := fold_right Rplus 0%R l.

Definition dot (x y : list R) : R := sum (map (fun p => fst p * snd p)%R (combine x y)).

(** [n] times the sum of the squared deviations of [x] from its mean. *)
Definition spread (x : list R) : R := (INR (length x) * dot x x - sum x * sum x)%R.

Definition covariation (x y : list R) : R :=
  (INR (length x) * dot x y - sum x * sum y)%R.


(** The declared property pairs, each with its two lists of values. *)
Definition declared_pairs (sequences : list ComparisonAnalyzer.entry)
    : list (string * list Z * list Z) :=
  let startNumbers := map ComparisonAnalyzer.startNumber sequences in
  let lengths :=
    map (fun seq => CollatzAlgorithm.length (ComparisonAnalyzer.statistics seq)) sequences in
  let maxValues :=
    map (fun seq => CollatzAlgorithm.maxValue (ComparisonAnalyzer.statistics seq)) sequences in
  let steps :=
    map (fun seq => CollatzAlgorithm.steps (ComparisonAnalyzer.statistics seq)) sequences in
  [ ("lengthVsMaxValue"%string, lengths, maxValues);
    ("startNumberVsLength"%string, startNumbers, lengths);
    ("startNumberVsMaxValue"%string, startNumbers, maxValues);
    ("stepsVsLength"%string, steps, lengths) ].

(** The list [t * x + y], element by element. *)
Definition line (t : R) (x y : list R) : list R :=
  map (fun p => t * fst p + snd p)%R (combine x y).

(** The locals of [generateSequence] put beside a cache, before any
    [break]. *)
Definition with_cache (s : CollatzAlgorithm.locals) (cache : gmap Z (list Z))
    : CollatzAlgorithm.cached_locals :=
  {| CollatzAlgorithm.c_sequence := CollatzAlgorithm.sequence s;
     CollatzAlgorithm.c_current := CollatzAlgorithm.current s;
     CollatzAlgorithm.c_iterations := CollatzAlgorithm.iterations s;
     CollatzAlgorithm.c_cache := cache;
     CollatzAlgorithm.c_break := false |}.

(** The locals [s] of a run from [n] are those of a run from the next
    number, [s'], one step ahead. *)
Definition one_step_ahead (n : Z) (s s' : CollatzAlgorithm.locals) : Prop :=
  CollatzAlgorithm.sequence s = n :: CollatzAlgorithm.sequence s' /\
  CollatzAlgorithm.current s = CollatzAlgorithm.current s' /\
  CollatzAlgorithm.iterations s = CollatzAlgorithm.iterations s' + 1.

(** The step taken from [a]: halving an even number, tripling an odd one. *)
Definition step_of (a : Z) : CollatzAlgorithm.stepType :=
  if Z.even a then CollatzAlgorithm.divide else CollatzAlgorithm.multiply.

(** The order of the array [findLongSequences] returns: the longer
    sequence first and, of two sequences of one length, the one of the
    smaller number first. *)
Definition longer_first (a b : CollatzAlgorithm.longSequence) : Prop :=
  CollatzAlgorithm.length (CollatzAlgorithm.long_statistics b)
    < CollatzAlgorithm.length (CollatzAlgorithm.long_statistics a)
  \/ (CollatzAlgorithm.length (CollatzAlgorithm.long_statistics a)
        = CollatzAlgorithm.length (CollatzAlgorithm.long_statistics b)
      /\ CollatzAlgorithm.number a < CollatzAlgorithm.number b).

(** The values of [l] from index [from] up to, not including, index
    [until] come again [period] places later. *)
Definition periodic (l : list Z) (from until period : Z) : Prop :=
  forall i : nat,
    from <= Z.of_nat i -> Z.of_nat i + period < until ->
    exists x, l !! i = Some x /\ l !! (i + Z.to_nat period)%nat = Some x.

(** The callbacks registered for [ev], in the order of their calls. *)
Definition listeners_of (ev : string) (s : DataManager.state) : list DataManager.listener :=
  match DataManager.eventListeners s !! ev with
  | Some callbacks => callbacks
  | None => []
  end.

(** The store holds a record under the id [i]. *)
Definition holds (s : DataManager.state) (i : string) : Prop :=
  exists x, In x (DataManager.sequences s) /\ DataManager.id x = i.

(** The number of records of the store whose largest value is [v]. *)
Definition records_peaking_at (s : DataManager.state) (v : Z) : Z :=
  Z.of_nat (count_occ Z.eq_dec
              (map (fun seq => CollatzAlgorithm.maxValue (DataManager.statistics seq))
                   (DataManager.sequences s)) v).

(** The filter is given with the number [v], which is not 0. *)
Definition asks (filter : option Z) (v : Z) : Prop := filter = Some v /\ v <> 0.

(** The number of cycles of length [v] among the cycles [cs]. *)
Definition cycles_of_length (cs : list ComparisonAnalyzer.CycleRecord) (v : Z) : Z :=
  Z.of_nat (count_occ Z.eq_dec (map ComparisonAnalyzer.cycle_length cs) v).

(** The held sequence [seq] starts within 10 of [start]. *)
Definition near (start : Z) (seq : ComparisonAnalyzer.entry) : Prop :=
  Z.abs (ComparisonAnalyzer.startNumber seq - start) <= 10.

(** * Properties of the host functions *)

Section Host.

Context {St : Type} (cond : St -> bool) (body : St -> St).

(** An invariant of the body holds when the loop is left. *)
Lemma while_invariant (P : St -> Prop) :
  (forall s, P s -> cond s = true -> P (body s)) ->
  forall fuel s, P s -> P (while fuel cond body s).
Proof.
  intros Hbody fuel. induction fuel as [|fuel IH]; intros s Hs; simpl; [done|].
  destruct (cond s) eqn:E; [|done]. apply IH, Hbody; done.
Qed.

(** With a measure that the body decreases, fuel above the measure is
    enough: the loop is left because its condition failed. *)
Lemma while_exit (measure : St -> nat) :
  (forall s, cond s = true -> (measure (body s) < measure s)%nat) ->
  forall fuel s, (measure s <= fuel)%nat -> cond (while fuel cond body s) = false.
Proof.
  intros Hdec fuel. induction fuel as [|fuel IH]; intros s Hm; simpl.
  - destruct (cond s) eqn:E; [|done]. specialize (Hdec s E). lia.
  - destruct (cond s) eqn:E; [|done]. apply IH. specialize (Hdec s E). lia.
Qed.

End Host.

Lemma Qred_inject_Z (n : Z) : Qred (inject_Z n) = inject_Z n.
Proof.
  unfold Qred, inject_Z.
  pose proof (Z.ggcd_gcd n 1) as Hg. pose proof (Z.ggcd_correct_divisors n 1) as Hd.
  destruct (Z.ggcd n 1) as [g [aa bb]]. simpl in *.
  rewrite Z.gcd_1_r in Hg. subst g. destruct Hd as [Hn Hb].
  assert (bb = 1) as -> by lia. assert (aa = n) as -> by lia. reflexivity.
Qed.

(** ** Rounding to doubles *)

Section Rounding.

(** An integer of magnitude at most 2^53 is a double. *)
Lemma nearest_exact (n : Z) : Z.abs n <= 2 ^ 53 -> Double.nearest n = n.
Proof.
  intros H. unfold Double.nearest.
  destruct (Z.abs n <? 2 ^ 53) eqn:E; [reflexivity|].
  apply Z.ltb_ge in E. assert (Z.abs n = 2 ^ 53) as Ha by lia.
  rewrite Ha. replace (Z.log2 (2 ^ 53) - 52) with 1 by reflexivity.
  change (2 ^ 53 / 2 ^ 1) with (2 ^ 52). change (2 ^ 53 mod 2 ^ 1) with 0.
  cbn [Z.compare Z.mul].
  destruct (Z.abs_spec n) as [[? Hn]|[? Hn]]; rewrite Hn in Ha.
  - rewrite Ha. reflexivity.
  - assert (n = - 2 ^ 53) as -> by lia. reflexivity.
Qed.

(** Rounding takes away less than a quarter. *)
Lemma nearest_lower (n : Z) : 0 <= n -> 3 * n <= 4 * Double.nearest n.
Proof.
  intros Hn. unfold Double.nearest. rewrite (Z.abs_eq n Hn).
  destruct (n <? 2 ^ 53) eqn:E; [lia|].
  apply Z.ltb_ge in E.
  assert (0 < n) as Hpos by (pose proof (Z.pow_pos_nonneg 2 53); lia).
  pose proof (Z.log2_spec n Hpos) as [Hlo _].
  assert (53 <= Z.log2 n) as Hlog.
  { apply Z.log2_le_pow2; [lia|]. exact E. }
  set (shift := Z.log2 n - 52) in *.
  assert (2 ^ Z.log2 n = 2 ^ 52 * 2 ^ shift) as Hsplit.
  { rewrite <- Z.pow_add_r by lia. f_equal. lia. }
  set (unit := 2 ^ shift) in *.
  assert (0 < unit) as Hunit by (apply Z.pow_pos_nonneg; lia).
  pose proof (Z.div_mod n unit ltac:(lia)) as Hdiv.
  pose proof (Z.mod_pos_bound n unit Hunit) as Hmod.
  set (q := n / unit) in *. set (r := n mod unit) in *.
  rewrite Z.sgn_pos by lia.
  assert (q * unit <= (match 2 * r ?= unit with
                       | Eq => if Z.even q then q else q + 1
                       | Lt => q
                       | Gt => q + 1
                       end) * unit) as Hm.
  { apply Z.mul_le_mono_nonneg_r; [lia|].
    destruct (2 * r ?= unit); [destruct (Z.even q)|..]; lia. }
  change (2 ^ 52) with 4503599627370496 in Hsplit. nia.
Qed.

Lemma nearest_positive (n : Z) : 1 <= n -> 1 <= Double.nearest n.
Proof. intros H. pose proof (nearest_lower n). lia. Qed.

Lemma round_Qeq (x y : Q) : (x == y)%Q -> Double.round x = Double.round y.
Proof. intros H. unfold Double.round. rewrite (Qred_complete _ _ H). reflexivity. Qed.

Lemma pow2_nonpos (e : Z) : e <= 0 -> Double.pow2 e = (1 # Z.to_pos (2 ^ (- e))).
Proof.
  intros He. unfold Double.pow2. destruct (0 <=? e) eqn:E; [|reflexivity].
  apply Z.leb_le in E. assert (e = 0) as -> by lia. reflexivity.
Qed.

Lemma log2_floor_lower (x : Q) :
  (0 < x)%Q -> (Double.pow2 (Double.log2_floor x) <= x)%Q.
Proof.
  intros Hx. unfold Double.log2_floor.
  destruct (Qle_bool _ x) eqn:E; [apply Qle_bool_iff; exact E|].
  destruct x as [a b]. unfold Qlt in Hx. simpl in Hx. rewrite Z.mul_1_r in Hx.
  cbn [Qnum Qden]. clear E.
  pose proof (Z.log2_spec a Hx) as [Ha _].
  pose proof (Z.log2_spec (Z.pos b) ltac:(lia)) as [_ Hb].
  pose proof (Z.log2_nonneg a) as Hla. pose proof (Z.log2_nonneg (Z.pos b)) as Hlb.
  set (la := Z.log2 a) in *. set (lb := Z.log2 (Z.pos b)) in *.
  unfold Double.pow2. destruct (0 <=? la - lb - 1) eqn:E.
  - apply Z.leb_le in E. unfold Qle. simpl. rewrite ?Z.mul_1_r.
    assert (2 ^ la = 2 ^ (la - lb - 1) * 2 ^ Z.succ lb) as Hs.
    { rewrite <- Z.pow_add_r by lia. f_equal. lia. }
    assert (0 < 2 ^ (la - lb - 1)) by (apply Z.pow_pos_nonneg; lia).
    nia.
  - apply Z.leb_gt in E. unfold Qle. simpl.
    assert (0 < 2 ^ (- (la - lb - 1))) as Hp by (apply Z.pow_pos_nonneg; lia).
    rewrite ?Z.mul_1_l, Z2Pos.id by exact Hp.
    assert (2 ^ Z.succ lb = 2 ^ la * 2 ^ (- (la - lb - 1))) as Hs.
    { rewrite <- Z.pow_add_r by lia. f_equal. lia. }
    nia.
Qed.

Lemma round_half_even_between (x : Q) (lo hi : Z) :
  (inject_Z lo <= x)%Q -> (x <= inject_Z hi)%Q -> lo <= Double.round_half_even x <= hi.
Proof.
  intros Hlo Hhi. unfold Double.round_half_even.
  assert (lo <= Qfloor x) as Hf.
  { rewrite <- (Qfloor_Z lo). apply Qfloor_resp_le. exact Hlo. }
  pose proof (Qfloor_le x) as Hfx.
  assert (Qfloor x <= hi) as Hfh.
  { rewrite <- (Qfloor_Z hi). apply Qfloor_resp_le. exact Hhi. }
  destruct (Qcompare_spec (x - inject_Z (Qfloor x)) (1 # 2)) as [Heq|Hlt|Hgt].
  - assert (Qfloor x < hi); [|destruct (Z.even (Qfloor x)); lia].
    destruct (Z.eq_dec (Qfloor x) hi) as [E|]; [|lia]. exfalso.
    rewrite E in Heq.
    assert (x == inject_Z hi + (1 # 2))%Q as Hx by (rewrite <- Heq; ring).
    rewrite Hx in Hhi. revert Hhi. unfold Qle, Qplus, inject_Z. simpl. lia.
  - lia.
  - assert (Qfloor x < hi); [|lia].
    destruct (Z.eq_dec (Qfloor x) hi) as [E|]; [|lia]. exfalso.
    rewrite E in Hgt.
    assert (inject_Z hi + (1 # 2) < x)%Q as Hx.
    { apply Qplus_lt_l with (z := (- inject_Z hi)%Q).
      assert (inject_Z hi + (1 # 2) + - inject_Z hi == 1 # 2)%Q as -> by ring.
      exact Hgt. }
    pose proof (Qlt_le_trans _ _ _ Hx Hhi) as Hc. revert Hc.
    unfold Qlt, Qplus, inject_Z. simpl. lia.
Qed.

(** A positive rational between two integers from 0 to 2^53 - 1 is rounded
    to a double between them: the integers are doubles, and no double lies
    between a rational and the double it is rounded to. *)
Lemma round_within (x : Q) (lo hi : Z) :
  0 <= lo -> hi < 2 ^ 53 -> (0 < x)%Q -> (inject_Z lo <= x)%Q -> (x <= inject_Z hi)%Q ->
  exists y,
    Double.round x = finite (Qred y) /\ (inject_Z lo <= y)%Q /\ (y <= inject_Z hi)%Q.
Proof.
  intros Hlo Hhi Hpos Hx1 Hx2. unfold Double.round.
  rewrite <- (Qred_correct x) in Hx1, Hx2, Hpos. set (x' := Qred x) in *. clearbody x'.
  assert (Qeq_bool x' 0 = false) as ->.
  { destruct (Qeq_bool x' 0) eqn:E; [|reflexivity]. apply Qeq_bool_iff in E.
    rewrite E in Hpos. discriminate. }
  assert (Qabs x' = x') as ->.
  { destruct x' as [a b]. unfold Qlt in Hpos. simpl in Hpos. unfold Qabs.
    rewrite Z.abs_eq by lia. reflexivity. }
  assert (Qle_bool 0 x' = true) as -> by (apply Qle_bool_iff, Qlt_le_weak, Hpos).
  pose proof (log2_floor_lower x' Hpos) as Hlog.
  assert (Double.log2_floor x' <= 52) as HL.
  { destruct (Z_le_gt_dec (Double.log2_floor x') 52) as [|Hgt]; [assumption|]. exfalso.
    unfold Double.pow2 in Hlog.
    destruct (0 <=? Double.log2_floor x') eqn:E; [|apply Z.leb_gt in E; lia].
    assert (inject_Z (2 ^ Double.log2_floor x') <= inject_Z hi)%Q as Hc
      by (eapply Qle_trans; eauto).
    rewrite <- Zle_Qle in Hc.
    assert (2 ^ 53 <= 2 ^ Double.log2_floor x') by (apply Z.pow_le_mono_r; lia). lia. }
  set (e := Z.max (-1074) (Double.log2_floor x' - 52)).
  assert (e <= 0) as He by lia.
  rewrite (pow2_nonpos e He).
  assert (0 < 2 ^ (- e)) as Hp by (apply Z.pow_pos_nonneg; lia).
  set (P := Z.to_pos (2 ^ (- e))).
  assert (x' / (1 # P) == x' * inject_Z (Z.pos P))%Q as Hdiv.
  { unfold Qdiv. apply Qmult_comp; [reflexivity|]. reflexivity. }
  destruct (round_half_even_between (x' / (1 # P)) (lo * Z.pos P) (hi * Z.pos P))
    as [Hm1 Hm2].
  { rewrite Hdiv, inject_Z_mult. apply Qmult_le_compat_r; [exact Hx1|].
    unfold Qle, inject_Z. simpl. lia. }
  { rewrite Hdiv, inject_Z_mult. apply Qmult_le_compat_r; [exact Hx2|].
    unfold Qle, inject_Z. simpl. lia. }
  set (m := Double.round_half_even (x' / (1 # P))) in *.
  assert (inject_Z lo <= inject_Z m * (1 # P))%Q as Hy1.
  { unfold Qle, Qmult, inject_Z. simpl. lia. }
  assert (inject_Z m * (1 # P) <= inject_Z hi)%Q as Hy2.
  { unfold Qle, Qmult, inject_Z. simpl. lia. }
  assert (Qle_bool (inject_Z m * (1 # P)) Double.largest = true) as ->.
  { apply Qle_bool_iff. eapply Qle_trans; [exact Hy2|].
    unfold Double.largest. rewrite <- Zle_Qle.
    assert (2 ^ 53 <= (2 ^ 53 - 1) * 2 ^ 971) by (vm_compute; discriminate). lia. }
  eexists. split; [reflexivity|]. split; assumption.
Qed.

Lemma round_between (x : Q) (lo hi : Z) :
  0 < lo -> hi < 2 ^ 53 -> (inject_Z lo <= x)%Q -> (x <= inject_Z hi)%Q ->
  exists y,
    Double.round x = finite (Qred y) /\ (inject_Z lo <= y)%Q /\ (y <= inject_Z hi)%Q.
Proof.
  intros Hlo Hhi Hx1 Hx2. apply round_within; try done; [lia|].
  eapply Qlt_le_trans; [|exact Hx1]. unfold Qlt, inject_Z. simpl. lia.
Qed.

(** An integer from 0 to 2^53 - 1 is a double. *)
Lemma round_Z (k : Z) :
  0 <= k < 2 ^ 53 -> Double.round (inject_Z k) = finite (inject_Z k).
Proof.
  intros [Hk1 Hk2]. destruct (Z.eq_dec k 0) as [->|Hne]; [reflexivity|].
  destruct (round_between (inject_Z k) k k) as (y & -> & Hy1 & Hy2);
    [lia|lia|apply Qle_refl|apply Qle_refl|].
  f_equal. rewrite <- Qred_inject_Z. apply Qred_complete. apply Qle_antisym; assumption.
Qed.

Lemma Qred_idem (x : Q) : Qred (Qred x) = Qred x.
Proof. apply Qred_complete, Qred_correct. Qed.

(** Rounding is odd. *)
Lemma round_opp (x : Q) : Double.round (- x) = Double.opposite (Double.round x).
Proof.
  unfold Double.round. rewrite Qred_opp. set (r := Qred x).
  assert (Qeq_bool (- r) 0 = Qeq_bool r 0) as ->.
  { destruct r as [a b]. unfold Qeq_bool, Qopp. cbn [Qnum Qden].
    destruct (Z.eqb_spec (- a * 1) (0 * Z.pos b)), (Z.eqb_spec (a * 1) (0 * Z.pos b));
      try reflexivity; lia. }
  destruct (Qeq_bool r 0) eqn:Ez; [reflexivity|].
  assert (Qabs (- r) = Qabs r) as ->.
  { destruct r as [a b]. unfold Qabs, Qopp. simpl. rewrite Z.abs_opp. reflexivity. }
  assert (Qle_bool 0 (- r) = negb (Qle_bool 0 r)) as ->.
  { destruct r as [a b]. unfold Qle_bool, Qeq_bool, Qopp in *. cbn [Qnum Qden] in *.
    apply Z.eqb_neq in Ez.
    destruct (Z.leb_spec (0 * Z.pos b) (- a * 1)), (Z.leb_spec (0 * Z.pos b) (a * 1));
      try reflexivity; lia. }
  set (y := (inject_Z _ * _)%Q).
  destruct (Qle_bool y Double.largest); cbn [Double.opposite].
  - f_equal. destruct (Qle_bool 0 r); cbn [negb].
    + rewrite (Qred_opp (Qred y)), Qred_idem, Qred_opp. reflexivity.
    + apply Qred_complete. rewrite Qred_correct. ring.
  - reflexivity.
Qed.

(** A finite number less itself is 0. *)
Lemma sub_self (x : Q) : Double.sub (finite x) (finite x) = finite 0.
Proof.
  unfold Double.sub, Double.opposite, Double.add.
  rewrite (round_Qeq _ 0); [reflexivity|]. rewrite Qred_correct. ring.
Qed.

(** [w - v] is [-(v - w)]. *)
Lemma sub_swap (v w : double) : Double.sub w v = Double.opposite (Double.sub v w).
Proof.
  destruct v as [x|a|], w as [y|b|]; try reflexivity.
  - unfold Double.sub. cbn [Double.opposite Double.add]. rewrite <- round_opp.
    apply round_Qeq. rewrite !Qred_correct. ring.
  - unfold Double.sub. cbn [Double.opposite Double.add].
    rewrite Bool.negb_involutive. reflexivity.
  - unfold Double.sub. cbn [Double.opposite Double.add]. destruct a, b; reflexivity.
Qed.

(** So is an integer from -(2^53 - 1) to 0. *)
Lemma round_Z_signed (k : Z) :
  Z.abs k < 2 ^ 53 -> Double.round (inject_Z k) = finite (inject_Z k).
Proof.
  intros Hk. destruct (Z_le_gt_dec 0 k) as [Hpos|Hneg].
  - apply round_Z. lia.
  - rewrite (round_Qeq _ (- inject_Z (- k))).
    + rewrite round_opp, round_Z by lia. cbn [Double.opposite].
      f_equal. rewrite <- (Qred_inject_Z k). apply Qred_complete.
      rewrite inject_Z_opp. ring.
    + rewrite inject_Z_opp. ring.
Qed.

(** Sums, products and differences of integers are exact when they are
    below 2^53 in magnitude. *)
Lemma add_exact (a b : Z) :
  Z.abs (a + b) < 2 ^ 53 -> Double.add (Double.of_Z a) (Double.of_Z b) = Double.of_Z (a + b).
Proof.
  intros H. unfold Double.add, Double.of_Z.
  rewrite (round_Qeq _ (inject_Z (a + b))) by (rewrite inject_Z_plus; reflexivity).
  apply round_Z_signed, H.
Qed.

Lemma mul_exact (a b : Z) :
  Z.abs (a * b) < 2 ^ 53 -> Double.mul (Double.of_Z a) (Double.of_Z b) = Double.of_Z (a * b).
Proof.
  intros H. unfold Double.mul, Double.of_Z.
  rewrite (round_Qeq _ (inject_Z (a * b))) by (rewrite inject_Z_mult; reflexivity).
  apply round_Z_signed, H.
Qed.

Lemma sub_exact (a b : Z) :
  Z.abs (a - b) < 2 ^ 53 -> Double.sub (Double.of_Z a) (Double.of_Z b) = Double.of_Z (a - b).
Proof.
  intros H. unfold Double.sub, Double.of_Z. cbn [Double.opposite Double.add].
  rewrite (round_Qeq _ (inject_Z (a - b))).
  - apply round_Z_signed, H.
  - rewrite Qred_correct. unfold Z.sub. rewrite inject_Z_plus, inject_Z_opp. reflexivity.
Qed.

(** A rational from -1 to 1 is rounded to a double from -1 to 1. *)
Lemma round_unit (x : Q) :
  (- (1) <= x)%Q -> (x <= 1)%Q ->
  exists q, Double.round x = finite q /\ (- (1) <= q)%Q /\ (q <= 1)%Q.
Proof.
  intros Hlo Hhi. destruct (Qlt_le_dec 0 x) as [Hpos|Hneg].
  - destruct (round_within x 0 1) as (y & -> & Hy1 & Hy2); try done.
    { apply Qlt_le_weak, Hpos. }
    exists (Qred y). split; [reflexivity|]. rewrite Qred_correct. split; [|exact Hy2].
    eapply Qle_trans; [|exact Hy1]. discriminate.
  - destruct (Qeq_dec x 0) as [Hz|Hnz].
    + rewrite (round_Qeq _ 0 Hz). exists 0%Q. repeat split; discriminate.
    + assert (0 < - x)%Q as Hpos.
      { apply Qlt_minus_iff. assert (- x + - 0 == - x)%Q as -> by ring.
        destruct (Qlt_le_dec 0 (- x)) as [|Hc]; [assumption|]. exfalso. apply Hnz.
        apply Qle_antisym; [exact Hneg|].
        apply Qopp_le_compat in Hc. rewrite Qopp_opp in Hc. exact Hc. }
      destruct (round_within (- x) 0 1) as (y & Hy & Hy1 & Hy2); try done.
      { apply Qlt_le_weak, Hpos. }
      { apply Qopp_le_compat in Hlo. rewrite Qopp_opp in Hlo. exact Hlo. }
      assert (x == - - x)%Q as Hxx by (rewrite Qopp_opp; reflexivity).
      rewrite (round_Qeq _ _ Hxx), round_opp, Hy. cbn [Double.opposite].
      exists (Qred (- Qred y)). split; [reflexivity|]. rewrite !Qred_correct. split.
      * apply Qopp_le_compat in Hy2. exact Hy2.
      * apply Qopp_le_compat in Hy1. eapply Qle_trans; [exact Hy1|]. discriminate.
Qed.

(** The root the host computes of an integer below 2^53 is not below an
    integer whose square is not above it. *)
Lemma sqrt_round_lower (M k : Z) :
  1 <= M < 2 ^ 53 -> 0 <= k -> k * k <= M ->
  (inject_Z k <= Double.sqrt_round (inject_Z M))%Q.
Proof.
  intros [HM1 HM2] Hk Hsq. unfold Double.sqrt_round.
  assert (0 < inject_Z M)%Q as Hpos by (unfold Qlt, inject_Z; simpl; lia).
  pose proof (log2_floor_lower _ Hpos) as Hlog.
  set (L := Double.log2_floor (inject_Z M)) in *.
  assert (L <= 52) as HL.
  { destruct (Z_le_gt_dec L 52) as [|Hgt]; [assumption|]. exfalso.
    unfold Double.pow2 in Hlog.
    destruct (0 <=? L) eqn:E; [|apply Z.leb_gt in E; lia].
    rewrite <- Zle_Qle in Hlog.
    assert (2 ^ 53 <= 2 ^ L) by (apply Z.pow_le_mono_r; lia). lia. }
  assert (L / 2 <= 26) as Hhalf.
  { apply Z.div_le_upper_bound; lia. }
  set (e := L / 2 - 52) in *.
  assert (e <= 0) as He by lia. assert (2 * e <= 0) as He2 by lia.
  rewrite (pow2_nonpos e He), (pow2_nonpos (2 * e) He2).
  assert (0 < 2 ^ (- e)) as Hp by (apply Z.pow_pos_nonneg; lia).
  assert (2 ^ (- (2 * e)) = 2 ^ (- e) * 2 ^ (- e)) as Hp2.
  { rewrite <- Z.pow_add_r by lia. f_equal. lia. }
  set (P := 2 ^ (- e)) in *. rewrite Hp2.
  assert (inject_Z M / (1 # Z.to_pos (P * P)) == inject_Z (M * (P * P)))%Q as Hy.
  { unfold Qdiv, Qinv, Qmult, Qeq, inject_Z. simpl. rewrite Z2Pos.id by nia. lia. }
  set (y := (inject_Z M / (1 # Z.to_pos (P * P)))%Q) in *.
  assert (Qfloor y = M * (P * P)) as Hfl.
  { rewrite (Qfloor_comp _ _ Hy). apply Qfloor_Z. }
  rewrite Hfl. set (s := Z.sqrt (M * (P * P))).
  assert (k * P <= s) as Hs.
  { apply Z.sqrt_le_square; nia. }
  rewrite Qred_correct.
  assert (forall m, s <= m -> (inject_Z k <= inject_Z m * (1 # Z.to_pos P))%Q) as Hm.
  { intros m Hsm. unfold Qle, Qmult, inject_Z. cbn [Qnum Qden].
    rewrite Pos.mul_1_l, Z2Pos.id by exact Hp. lia. }
  destruct (Qcompare y (inject_Z (s * s + s) + (1 # 4))); [destruct (Z.even s)| |];
    apply Hm; lia.
Qed.

End Rounding.

Lemma is_integer_spec (v : value) (n : Z) :
  is_integer v n -> Number_isInteger v = true /\ to_Z v = n.
Proof.
  destruct v as [x| | | |]; simpl; try done. intros H.
  apply Qred_complete in H. rewrite Qred_inject_Z in H. rewrite H. done.
Qed.

Lemma Number_isInteger_spec (v : value) :
  Number_isInteger v = true -> is_integer v (to_Z v).
Proof.
  destruct v as [x| | | |]; try done.
  unfold Number_isInteger, is_integer, to_Z. intros H.
  apply Z.eqb_eq in H. rewrite <- (Qred_correct x) at 1.
  destruct (Qred x) as [a b]; simpl in *. injection H as ->. reflexivity.
Qed.

Lemma lt_one_spec (v : value) (n : Z) :
  is_integer v n -> less v 1 = negb (1 <=? n).
Proof.
  destruct v as [x| | | |]; simpl; try done. intros H. f_equal.
  destruct (1 <=? n) eqn:E.
  - apply Qle_bool_iff. rewrite H. apply Z.leb_le in E.
    change 1%Q with (inject_Z 1). rewrite <- Zle_Qle. done.
  - destruct (Qle_bool 1 x) eqn:E'; [|done]. apply Qle_bool_iff in E'.
    rewrite H in E'. change 1%Q with (inject_Z 1) in E'. rewrite <- Zle_Qle in E'.
    apply Z.leb_gt in E. lia.
Qed.

(** * Properties of [CollatzAlgorithm] *)

Section GenerateSequence.
Import CollatzAlgorithm.

Lemma rem2_even (a : Z) : (Z.rem a 2 =? 0) = Z.even a.
Proof.
  destruct (Z.even a) eqn:E.
  - apply Z.eqb_eq. apply Z.even_spec in E. destruct E as [k ->].
    rewrite Z.mul_comm. apply Z.rem_mul. lia.
  - apply Z.eqb_neq. intros H.
    assert (Z.even a = true); [|congruence].
    apply Z.even_spec. exists (Z.quot a 2).
    pose proof (Z.quot_rem' a 2). lia.
Qed.

Lemma getNextNumber_host_step (a : Z) : host_step a (getNextNumber a).
Proof.
  unfold host_step, getNextNumber. rewrite rem2_even, <- Z.negb_even.
  destruct (Z.even a); simpl; split; congruence.
Qed.

(** Up to 2^53 the host triples exactly. *)
Lemma host_step_exact (a b : Z) : 1 <= a -> host_step a b -> exact_step a b.
Proof.
  intros Ha [Heven Hodd] Hbound. split; [exact Heven|].
  intros Ho. rewrite (Hodd Ho).
  rewrite (nearest_exact (3 * a)) by lia. apply nearest_exact. lia.
Qed.

Lemma getNextNumber_positive (a : Z) : 1 <= a -> a <> 1 -> 1 <= getNextNumber a.
Proof.
  intros Ha Hne. unfold getNextNumber. rewrite rem2_even.
  destruct (Z.even a) eqn:E.
  - apply Z.even_spec in E. destruct E as [k ->].
    rewrite Z.mul_comm, Z.div_mul by lia. lia.
  - apply nearest_positive. pose proof (nearest_positive (3 * a)). lia.
Qed.

Lemma loop_body_next (s : locals) :
  loop_body s =
  {| sequence := sequence s ++ [getNextNumber (current s)];
     current := getNextNumber (current s);
     iterations := iterations s + 1 |}.
Proof. reflexivity. Qed.

Lemma adjacent_pairs_snoc (rule : Z -> Z -> Prop) (l : list Z) (a b : Z) :
  adjacent_pairs_obey rule l -> last l = Some a -> rule a b ->
  adjacent_pairs_obey rule (l ++ [b]).
Proof.
  intros Hl Hlast Hab i x y Hx Hy.
  assert (S i < List.length (l ++ [b]))%nat as Hi by (eapply lookup_lt_Some; eauto).
  rewrite length_app in Hi. simpl in Hi.
  rewrite lookup_app_l in Hx by lia.
  destruct (decide (S i < List.length l)%nat) as [Hlt|Hge].
  - rewrite lookup_app_l in Hy by lia. eauto.
  - assert (S i = List.length l) as Heq by lia.
    rewrite lookup_app_r, Heq, Nat.sub_diag in Hy by lia. simpl in Hy.
    injection Hy as <-.
    rewrite last_lookup in Hlast. 
    replace (Nat.pred (List.length l)) with i in Hlast by lia.
    congruence.
Qed.

Lemma loop_invariant_init (startNumber : Z) :
  1 <= startNumber ->
  loop_invariant startNumber
    {| sequence := [startNumber]; current := startNumber; iterations := 0 |}.
Proof.
  intros H. split; simpl.
  - done.
  - done.
  - done.
  - intros i a b Ha Hb. destruct i; done.
  - intros i Hi. lia.
  - constructor; [lia|constructor].
  - unfold maxIterations. lia.
Qed.

Lemma loop_invariant_body (startNumber : Z) (s : locals) :
  loop_invariant startNumber s -> loop_cond s = true ->
  loop_invariant startNumber (loop_body s).
Proof.
  intros [Hh Hl Hn Hp H1 Hpos Hit] Hc. unfold loop_cond in Hc.
  apply andb_true_iff in Hc as [Hc1 Hc2].
  apply negb_true_iff, Z.eqb_neq in Hc1. apply Z.ltb_lt in Hc2.
  assert (1 <= current s) as Hcur.
  { rewrite last_lookup in Hl. rewrite Forall_lookup in Hpos. eauto. }
  rewrite loop_body_next. split; simpl.
  - rewrite lookup_app_l; [done|]. eapply lookup_lt_Some; eauto.
  - apply last_snoc.
  - unfold len in *. rewrite length_app. simpl. lia.
  - eapply adjacent_pairs_snoc; eauto using getNextNumber_host_step.
  - intros i Hi. rewrite length_app in Hi. simpl in Hi.
    rewrite lookup_app_l by lia.
    destruct (decide (S i < List.length (sequence s))%nat) as [Hlt|Hge]; [eauto|].
    rewrite last_lookup in Hl.
    replace (Nat.pred (List.length (sequence s))) with i in Hl by lia.
    rewrite Hl. congruence.
  - apply Forall_app. split; [done|]. constructor; [|constructor].
    apply getNextNumber_positive; done.
  - lia.
Qed.

Lemma run_loop_spec (startNumber : Z) :
  1 <= startNumber ->
  loop_invariant startNumber (run_loop startNumber) /\
  loop_cond (run_loop startNumber) = false.
Proof.
  intros H. unfold run_loop. split.
  - apply (while_invariant loop_cond loop_body (loop_invariant startNumber)).
    + apply loop_invariant_body.
    + apply loop_invariant_init, H.
  - apply (while_exit loop_cond loop_body
             (fun s => Z.to_nat (maxIterations - iterations s))).
    + intros s Hc. unfold loop_cond in Hc.
      apply andb_true_iff in Hc as [_ Hc]. apply Z.ltb_lt in Hc.
      rewrite loop_body_next. simpl. lia.
    + simpl. lia.
Qed.

Lemma at_last (l : list Z) (d : Z) :
  l <> [] -> last l = Some (at_ l (len l - 1) d).
Proof.
  intros Hl. unfold at_, len.
  destruct l as [|x l]; [done|].
  assert ((Z.of_nat (List.length (x :: l)) - 1 <? 0) = false) as ->.
  { apply Z.ltb_ge. simpl List.length. lia. }
  rewrite last_lookup.
  replace (Z.to_nat (Z.of_nat (List.length (x :: l)) - 1))
    with (Nat.pred (List.length (x :: l))) by (simpl List.length; lia).
  destruct (lookup_lt_is_Some_2 (x :: l) (Nat.pred (List.length (x :: l)))) as [y Hy].
  { simpl. lia. }
  rewrite Hy. f_equal. symmetry. apply nth_lookup_Some. done.
Qed.

Lemma at_first (l : list Z) (d : Z) : l !! 0%nat = Some (at_ l 0 d) \/ l = [].
Proof. destruct l; [right|left]; done. Qed.

Lemma calculateStatistics_nonempty (sequence : list Z) :
  sequence <> [] ->
  exists stats, calculateStatistics sequence = Ok stats /\
    length stats = len sequence /\
    steps stats = len sequence - 1 /\
    (hasReachedOne stats = true <-> last sequence = Some 1).
Proof.
  intros Hne. unfold calculateStatistics.
  assert ((len sequence =? 0) = false) as ->.
  { apply Z.eqb_neq. unfold len. destruct sequence; [done|]. simpl List.length. lia. }
  eexists. split; [reflexivity|]. simpl. split; [done|]. split; [done|].
  rewrite (at_last sequence 0 Hne). rewrite Z.eqb_eq. split; [congruence|].
  intros H. injection H. done.
Qed.

(** [calculateStatistics] throws on the empty array only. *)
Lemma calculateStatistics_Ok (sequence : list Z) (stats : Statistics) :
  calculateStatistics sequence = Ok stats -> sequence <> [].
Proof. intros H ->. discriminate. Qed.

Lemma integer_is_integer (n : Z) : is_integer (Num (inject_Z n)) n.
Proof. unfold is_integer. apply Qeq_refl. Qed.

Lemma generateSequence_positive (v : value) (n : Z) :
  is_integer v n -> 1 <= n ->
  generateSequence v =
  Ok (sequence (run_loop n),
      if maxIterations <=? iterations (run_loop n) then [cap_warning n] else []).
Proof.
  intros Hint H. destruct (is_integer_spec _ _ Hint) as [Hi Hz].
  unfold generateSequence. rewrite Hi, (lt_one_spec _ _ Hint), Hz.
  assert ((1 <=? n) = true) as -> by (apply Z.leb_le; done). reflexivity.
Qed.

Lemma run_loop_nonempty (startNumber : Z) :
  1 <= startNumber -> sequence (run_loop startNumber) <> [].
Proof.
  intros H E. destruct (run_loop_spec startNumber H) as [Hinv _].
  pose proof (inv_head _ _ Hinv) as Hh. rewrite E in Hh. done.
Qed.

(** The pairs of a sequence of positive numbers that are steps of the
    host obey the step rule wherever the host triples exactly. *)
Lemma exact_pairs (l : list Z) :
  Forall (fun x => 1 <= x) l -> adjacent_pairs_obey host_step l ->
  adjacent_pairs_obey exact_step l.
Proof.
  intros Hpos Hl i a b Ha Hb. apply host_step_exact; [|eauto].
  rewrite Forall_lookup in Hpos. eauto.
Qed.

(** C1.  For every positive integer [start], [generateSequence(start)]
    returns a sequence whose first element is [start].  Every adjacent
    pair (a, b) of it, the last one too, is a step as the host computes
    it: b = a/2 when a is even, and when a is odd b is 3a + 1 with the
    product and the sum rounded to doubles, which is 3a + 1 itself as long
    as 3a + 1 is at most 2^53.  When [hasReachedOne] holds in its
    statistics the last element is 1; the statistics are returned for a
    sequence within the argument limit. *)
Theorem generateSequence_is_collatz_sequence (start : Z) :
  1 <= start ->
  exists seq console,
    generateSequence (Num (inject_Z start)) = Ok (seq, console) /\
    seq !! 0%nat = Some start /\
    adjacent_pairs_obey host_step seq /\
    adjacent_pairs_obey exact_step seq /\
    (forall stats,
       calculateStatistics seq = Ok stats -> hasReachedOne stats = true ->
       last seq = Some 1) /\
    (within_argument_limit seq -> exists stats, calculateStatistics seq = Ok stats).
Proof.
  intros H. destruct (run_loop_spec start H) as [Hinv _].
  destruct (calculateStatistics_nonempty _ (run_loop_nonempty start H))
    as (stats & Hs & _ & _ & Hone).
  eexists _, _.
  split; [exact (generateSequence_positive _ start (integer_is_integer start) H)|].
  split; [apply Hinv|]. split; [apply Hinv|].
  split; [apply exact_pairs; apply Hinv|]. split.
  - intros stats' Hs'. rewrite Hs in Hs'. injection Hs' as <-. apply Hone.
  - intros _. exists stats. exact Hs.
Qed.

(** C1 at the start 6. *)
Lemma generateSequence_is_collatz_sequence_witness :
  1 <= 6 /\
  exists seq console,
    generateSequence (Num (inject_Z 6)) = Ok (seq, console) /\
    seq !! 0%nat = Some 6 /\
    adjacent_pairs_obey host_step seq /\
    adjacent_pairs_obey exact_step seq /\
    (forall stats,
       calculateStatistics seq = Ok stats -> hasReachedOne stats = true ->
       last seq = Some 1) /\
    (within_argument_limit seq -> exists stats, calculateStatistics seq = Ok stats).
Proof.
  split; [lia|]. apply (generateSequence_is_collatz_sequence 6). lia.
Defined.

(** The step rule fails above 2^53: in the sequence of 319804831 the odd
    number 3827712881638043 at index 129 is followed by
    11483138644914128, the double nearest to 3 * 3827712881638043 + 1 =
    11483138644914130. *)
Lemma generateSequence_rounds_above_2_53 :
  exists seq console,
    generateSequence (Num 319804831) = Ok (seq, console) /\
    seq !! 129%nat = Some 3827712881638043 /\
    seq !! 130%nat = Some 11483138644914128 /\
    Z.odd 3827712881638043 = true /\
    3 * 3827712881638043 + 1 = 11483138644914130 /\
    ~ adjacent_pairs_obey step_rule seq.
Proof.
  eexists _, _. split; [vm_compute; reflexivity|].
  split; [reflexivity|]. split; [reflexivity|]. split; [reflexivity|].
  split; [reflexivity|].
  intros Hall. destruct (Hall 129%nat 3827712881638043 11483138644914128) as [_ Hodd];
    [reflexivity|reflexivity|].
  specialize (Hodd eq_refl). discriminate.
Qed.

Lemma generateSequence_throws (v : value) :
  ~ positive_integer v -> generateSequence v = Throw invalid_start.
Proof.
  intros Hv. unfold generateSequence.
  destruct (Number_isInteger v) eqn:Hi; [|reflexivity].
  pose proof (Number_isInteger_spec v Hi) as Hint.
  rewrite (lt_one_spec _ _ Hint).
  destruct (1 <=? to_Z v) eqn:E; [|reflexivity].
  exfalso. apply Hv. exists (to_Z v). split; [apply Z.leb_le|]; done.
Qed.





(** C2.  [generateSequence(27)] followed by [calculateStatistics] gives
    length 112, maxValue 9232 and hasReachedOne; [generateSequence(1)] is
    [1] with length 1, steps 0 and hasReachedOne; [generateSequence(6)] is
    [6, 3, 10, 5, 16, 8, 4, 2, 1] with length 9. *)
Theorem known_values :
  (exists seq stats,
     generateSequence (Num 27) = Ok (seq, []) /\
     calculateStatistics seq = Ok stats /\
     length stats = 112 /\ maxValue stats = 9232 /\ hasReachedOne stats = true) /\
  (exists stats,
     generateSequence (Num 1) = Ok ([1], []) /\
     calculateStatistics [1] = Ok stats /\
     length stats = 1 /\ steps stats = 0 /\ hasReachedOne stats = true) /\
  (exists stats,
     generateSequence (Num 6) = Ok ([6; 3; 10; 5; 16; 8; 4; 2; 1], []) /\
     calculateStatistics [6; 3; 10; 5; 16; 8; 4; 2; 1] = Ok stats /\
     length stats = 9).
Proof.
  split; [|split].
  - eexists _, _. split; [vm_compute; reflexivity|].
    split; [vm_compute; reflexivity|]. simpl. done.
  - eexists. split; [vm_compute; reflexivity|].
    split; [vm_compute; reflexivity|]. simpl. done.
  - eexists. split; [vm_compute; reflexivity|].
    split; [vm_compute; reflexivity|]. simpl. done.
Qed.

End GenerateSequence.

Section CalculateStatistics.
Import CollatzAlgorithm.

Lemma fold_left_max_spec (l : list Z) (x : Z) :
  x <= fold_left Z.max l x /\
  Forall (fun y => y <= fold_left Z.max l x) l /\
  In (fold_left Z.max l x) (x :: l).
Proof.
  revert x. induction l as [|y l IH]; intros x; simpl.
  - split; [lia|]. split; [constructor|]. left; done.
  - destruct (IH (Z.max x y)) as (H1 & H2 & H3). split; [lia|]. split.
    + constructor; [lia|done].
    + destruct H3 as [H3|H3]; [|right; right; done].
      rewrite <- H3. destruct (Z.max_spec x y) as [[_ ->]|[_ ->]]; [right; left|left]; done.
Qed.

Lemma fold_left_min_spec (l : list Z) (x : Z) :
  fold_left Z.min l x <= x /\
  Forall (fun y => fold_left Z.min l x <= y) l /\
  In (fold_left Z.min l x) (x :: l).
Proof.
  revert x. induction l as [|y l IH]; intros x; simpl.
  - split; [lia|]. split; [constructor|]. left; done.
  - destruct (IH (Z.min x y)) as (H1 & H2 & H3). split; [lia|]. split.
    + constructor; [lia|done].
    + destruct H3 as [H3|H3]; [|right; right; done].
      rewrite <- H3. destruct (Z.min_spec x y) as [[_ ->]|[_ ->]]; [left|right; left]; done.
Qed.

Lemma Math_max_spec (l : list Z) :
  l <> [] -> Forall (fun y => y <= Math_max l) l /\ In (Math_max l) l.
Proof.
  destruct l as [|x l]; [done|]. intros _. unfold Math_max.
  destruct (fold_left_max_spec l x) as (H1 & H2 & H3). split; [constructor|]; done.
Qed.

Lemma Math_min_spec (l : list Z) :
  l <> [] -> Forall (fun y => Math_min l <= y) l /\ In (Math_min l) l.
Proof.
  destruct l as [|x l]; [done|]. intros _. unfold Math_min.
  destruct (fold_left_min_spec l x) as (H1 & H2 & H3). split; [constructor|]; done.
Qed.

Lemma fold_left_sum_bounds (lo hi : Z) (l : list Z) (acc : Z) :
  Forall (fun x => lo <= x <= hi) l ->
  acc + lo * len l <= fold_left (fun sum num => sum + num) l acc <= acc + hi * len l.
Proof.
  unfold len. revert acc. induction l as [|x l IH]; intros acc Hl; simpl fold_left.
  - simpl. lia.
  - inversion Hl as [|? ? Hx Hl']; subst. specialize (IH (acc + x) Hl').
    simpl List.length. lia.
Qed.

Lemma parity_counts (l : list Z) :
  Forall (fun x => 0 < x) l ->
  len (List.filter (fun num => Z.rem num 2 =? 0) l) + len (List.filter (fun num => Z.rem num 2 =? 1) l)
  = len l.
Proof.
  unfold len. induction l as [|x l IH]; intros Hl; [done|].
  inversion Hl as [|? ? Hx Hl']; subst. specialize (IH Hl').
  pose proof (Z.rem_bound_pos x 2) as Hr.
  cbn [List.filter].
  destruct (decide (Z.rem x 2 = 0)) as [E|E].
  - rewrite E. simpl. lia.
  - assert (Z.rem x 2 = 1) as -> by lia. simpl. lia.
Qed.


Lemma fold_left_total (l : list Z) (acc : Z) :
  fold_left (fun sum num => sum + num) l acc = acc + total l.
Proof.
  revert acc. induction l as [|x l IH]; intros acc; simpl; [lia|].
  rewrite IH. lia.
Qed.

Lemma member_le_total (l : list Z) (x : Z) :
  Forall (fun y => 0 < y) l -> In x l -> x <= total l.
Proof.
  induction l as [|y l IH]; intros Hl Hx; [done|].
  inversion Hl as [|? ? Hy Hl']; subst. simpl.
  assert (0 <= total l) as Hnn.
  { clear -Hl'. induction l as [|z l IH]; simpl; [lia|].
    inversion Hl'; subst. specialize (IH ltac:(assumption)). lia. }
  destruct Hx as [->|Hx]; [lia|]. specialize (IH Hl' Hx). lia.
Qed.

(** Below 2^53 the host adds positive integers exactly. *)
Lemma sum_of_doubles (l : list Z) (acc : Z) :
  0 <= acc -> Forall (fun x => 0 < x) l -> acc + total l < 2 ^ 53 ->
  fold_left (fun sum num => Double.add sum (Double.of_Z num)) l (Double.of_Z acc)
  = Double.of_Z (acc + total l).
Proof.
  revert acc. induction l as [|x l IH]; intros acc Hacc Hl Hsum; cbn [fold_left].
  - change (total []) with 0. rewrite Z.add_0_r. reflexivity.
  - inversion Hl as [|? ? Hx Hl']; subst.
    change (total (x :: l)) with (x + total l) in *.
    assert (0 <= total l) as Hnn.
    { clear -Hl'. induction l as [|z l IH]; simpl; [lia|].
      inversion Hl'; subst. specialize (IH ltac:(assumption)). lia. }
    assert (Double.add (Double.of_Z acc) (Double.of_Z x) = Double.of_Z (acc + x)) as ->.
    { unfold Double.add, Double.of_Z.
      rewrite (round_Qeq _ (inject_Z (acc + x))) by (rewrite inject_Z_plus; reflexivity).
      apply round_Z. lia. }
    rewrite IH by (try done; lia). f_equal. lia.
Qed.

(** C10.  For every non-empty sequence of positive integers, the
    statistics that [calculateStatistics] returns have
    evenCount + oddCount = length and, when the sum of the elements is
    below 2^53, minValue <= averageValue <= maxValue.  It returns for a
    sequence within the argument limit. *)
Theorem calculateStatistics_counts_and_average (sequence : list Z) :
  sequence <> [] ->
  Forall (fun x => 0 < x) sequence ->
  (within_argument_limit sequence ->
   exists stats, calculateStatistics sequence = Ok stats) /\
  (forall stats,
     calculateStatistics sequence = Ok stats ->
     evenCount stats + oddCount stats = length stats /\
     (total sequence < 2 ^ 53 ->
      exists average,
        averageValue stats = finite average /\
        (inject_Z (minValue stats) <= average)%Q /\
        (average <= inject_Z (maxValue stats))%Q)).
Proof.
  intros Hne Hpos. unfold calculateStatistics.
  assert (0 < len sequence) as Hlen.
  { unfold len. destruct sequence; [done|]. simpl List.length. lia. }
  assert ((len sequence =? 0) = false) as -> by (apply Z.eqb_neq; lia).
  split; [intros _; eexists; reflexivity|].
  intros stats Hstats. injection Hstats as <-. cbn [evenCount oddCount length
    averageValue minValue maxValue].
  split; [apply parity_counts; done|]. intros Hsum.
  destruct (Math_max_spec sequence Hne) as [Hmax Hmax_in].
  destruct (Math_min_spec sequence Hne) as [Hmin Hmin_in].
  assert (Forall (fun x => Math_min sequence <= x <= Math_max sequence) sequence) as Hb.
  { rewrite Forall_forall in Hmax, Hmin. rewrite Forall_forall.
    intros x Hx. split; eauto. }
  pose proof (fold_left_sum_bounds _ _ sequence 0 Hb) as [Hlo Hhi].
  rewrite fold_left_total in Hlo, Hhi.
  assert (0 < inject_Z (len sequence))%Q as HlenQ.
  { change 0%Q with (inject_Z 0). rewrite <- Zlt_Qlt. done. }
  rewrite (sum_of_doubles sequence 0) by (try done; lia).
  unfold Double.div, Double.of_Z.
  assert (Qeq_bool (inject_Z (len sequence)) 0 = false) as ->.
  { destruct (Qeq_bool _ 0) eqn:E; [|reflexivity]. apply Qeq_bool_iff in E.
    rewrite E in HlenQ. discriminate. }
  destruct (round_between (inject_Z (0 + total sequence) / inject_Z (len sequence))
              (Math_min sequence) (Math_max sequence))
    as (y & -> & Hy1 & Hy2).
  - pose proof Hpos as Hpos'. rewrite Forall_forall in Hpos'.
    apply Hpos', list_elem_of_In, Hmin_in.
  - pose proof (member_le_total sequence _ Hpos Hmax_in). lia.
  - apply Qle_shift_div_l; [done|]. rewrite <- inject_Z_mult, <- Zle_Qle. lia.
  - apply Qle_shift_div_r; [done|]. rewrite <- inject_Z_mult, <- Zle_Qle. lia.
  - exists (Qred y). split; [reflexivity|]. rewrite Qred_correct. done.
Qed.

(** C10 at the sequence of 6. *)
Lemma calculateStatistics_counts_and_average_witness :
  [6; 3; 10; 5; 16; 8; 4; 2; 1] <> [] /\
  Forall (fun x => 0 < x) [6; 3; 10; 5; 16; 8; 4; 2; 1] /\
  (within_argument_limit [6; 3; 10; 5; 16; 8; 4; 2; 1] ->
   exists stats, calculateStatistics [6; 3; 10; 5; 16; 8; 4; 2; 1] = Ok stats) /\
  (forall stats,
     calculateStatistics [6; 3; 10; 5; 16; 8; 4; 2; 1] = Ok stats ->
     evenCount stats + oddCount stats = length stats /\
     (total [6; 3; 10; 5; 16; 8; 4; 2; 1] < 2 ^ 53 ->
      exists average,
        averageValue stats = finite average /\
        (inject_Z (minValue stats) <= average)%Q /\
        (average <= inject_Z (maxValue stats))%Q)).
Proof.
  assert ([6; 3; 10; 5; 16; 8; 4; 2; 1] <> []) as Hne by discriminate.
  assert (Forall (fun x => 0 < x) [6; 3; 10; 5; 16; 8; 4; 2; 1]) as Hpos
    by (repeat constructor).
  split; [exact Hne|]. split; [exact Hpos|].
  exact (calculateStatistics_counts_and_average _ Hne Hpos).
Defined.

(** The average falls below the minimum when the sum is rounded: three
    times 9007199254740990 = 2^53 - 2 add up to 27021597764222970, which
    the host rounds to 27021597764222968, a third of which rounds to
    9007199254740989. *)
Lemma calculateStatistics_average_below_minimum :
  exists stats,
    calculateStatistics [9007199254740990; 9007199254740990; 9007199254740990] = Ok stats /\
    evenCount stats + oddCount stats = length stats /\
    minValue stats = 9007199254740990 /\
    averageValue stats = finite (inject_Z 9007199254740989) /\
    ~ (inject_Z (minValue stats) <= inject_Z 9007199254740989)%Q.
Proof.
  eexists. split; [vm_compute; reflexivity|]. cbn [evenCount oddCount length
    minValue averageValue]. split; [reflexivity|]. split; [reflexivity|].
  split; [reflexivity|]. rewrite <- Zle_Qle. lia.
Qed.

(** Positivity matters for the counts: [%] keeps the sign of its left
    operand, so an odd negative number is counted neither even nor odd. *)
Remark odd_count_misses_negative_numbers :
  exists stats, calculateStatistics [-3] = Ok stats /\ evenCount stats + oddCount stats = 0.
Proof. eexists. split; reflexivity. Qed.

End CalculateStatistics.

(** * Properties of [DataManager] *)

Lemma occurs_app (c : ascii) (s t : string) :
  occurs c (s ++ t) = occurs c s || occurs c t.
Proof.
  induction s as [|a s IH]; simpl; [done|]. rewrite IH. apply orb_assoc.
Qed.

Lemma string_of_uint_digits (d : Decimal.uint) :
  occurs "_" (NilEmpty.string_of_uint d) = false.
Proof. induction d; simpl; done. Qed.

Lemma toString_no_underscore (n : Z) : occurs "_" (toString n) = false.
Proof.
  unfold toString, NilZero.string_of_int, NilZero.string_of_uint.
  destruct (Z.to_int n) as [d|d]; [|simpl]; destruct d; simpl;
    try apply string_of_uint_digits; done.
Qed.

Lemma toString_inj (a b : Z) : toString a = toString b -> a = b.
Proof.
  unfold toString. intros H.
  assert (forall n, Z.to_int n <> Decimal.Pos Decimal.Nil /\ Z.to_int n <> Decimal.Neg Decimal.Nil)
    as Hnn.
  { intros [|p|p]; simpl; split; try discriminate;
      intros [= E]; apply (Unsigned.to_uint_nonnil p); done. }
  apply (f_equal NilZero.int_of_string) in H.
  rewrite !NilZero.isi in H by apply Hnn.
  injection H as H. apply (f_equal Z.of_int) in H.
  rewrite !DecimalZ.of_to in H. done.
Qed.

(** The text after the last [c] determines a string [s ++ c ++ d] when [d] is free of [c]. *)
Lemma last_field_unique (c : ascii) (s1 s2 d1 d2 : string) :
  occurs c d1 = false -> occurs c d2 = false ->
  (s1 ++ String c d1 = s2 ++ String c d2)%string -> d1 = d2.
Proof.
  intros H1 H2. revert s2. induction s1 as [|a s1 IH]; intros [|b s2] E; simpl in E.
  - injection E. done.
  - injection E as _ E. rewrite E, occurs_app in H1. simpl in H1.
    rewrite Ascii.eqb_refl, orb_true_r in H1. done.
  - injection E as _ E. rewrite <- E, occurs_app in H2. simpl in H2.
    rewrite Ascii.eqb_refl, orb_true_r in H2. done.
  - injection E as _ E. eauto.
Qed.

Section Store.
Import DataManager.

(** Reads the fields of a state that is written out as a record. *)
Ltac fields :=
  cbn [set_sequences sequences currentSequenceId maxSequences eventListeners notified].

Lemma id_text_inj (now1 now2 n1 n2 : Z) : id_text now1 n1 = id_text now2 n2 -> n1 = n2.
Proof.
  unfold id_text. intros H. apply toString_inj.
  change ("_" ++ toString n1)%string with (String "_" (toString n1)) in H.
  change ("_" ++ toString n2)%string with (String "_" (toString n2)) in H.
  change ("seq_" ++ ?x)%string with (String "s" (String "e" (String "q" (String "_" x)))) in H.
  injection H as H.
  eapply (last_field_unique "_"); [| |exact H]; apply toString_no_underscore.
Qed.

Lemma sublist_map {A B} (f : A -> B) (l k : list A) :
  l `sublist_of` k -> map f l `sublist_of` map f k.
Proof. induction 1; simpl; constructor; done. Qed.

Lemma tl_sublist {A} (l : list A) : tl l `sublist_of` l.
Proof. destruct l; simpl; [done|]. by constructor. Qed.

Lemma len_tl {A} (l : list A) : l <> [] -> len (tl l) = len l - 1.
Proof. unfold len. destruct l; [done|]. simpl List.length. lia. Qed.

Lemma generateId_spec (now : Z) (s : state) :
  generateId now s =
  (id_text now (currentSequenceId s + 1),
   {| sequences := sequences s;
      currentSequenceId := currentSequenceId s + 1;
      maxSequences := maxSequences s;
      eventListeners := eventListeners s;
      notified := notified s |}).
Proof. reflexivity. Qed.

Lemma notifyListeners_fields (ev : string) (d : option sequenceData) (s : state) :
  sequences (notifyListeners ev d s) = sequences s /\
  currentSequenceId (notifyListeners ev d s) = currentSequenceId s /\
  maxSequences (notifyListeners ev d s) = maxSequences s /\
  eventListeners (notifyListeners ev d s) = eventListeners s.
Proof. unfold notifyListeners. destruct (eventListeners s !! ev); done. Qed.

(** What [addSequence] does to the fields, whether it returns or throws. *)
Lemma addSequence_fields (now : Z) (iso : string) (n : Z) (sequence : list Z) (s : state) :
  let '(r, s') := addSequence now iso n sequence s in
  currentSequenceId s' = currentSequenceId s + 1 /\
  maxSequences s' = maxSequences s /\
  eventListeners s' = eventListeners s /\
  match r with
  | Ok x =>
      sequences s' = after_eviction s ++ [x] /\
      id x = id_text now (currentSequenceId s + 1) /\
      CollatzAlgorithm.calculateStatistics sequence = Ok (statistics x)
  | Throw e =>
      sequences s' = after_eviction s /\
      CollatzAlgorithm.calculateStatistics sequence = Throw e
  end.
Proof.
  unfold addSequence, after_eviction.
  destruct (maxSequences s <=? len (sequences s));
    rewrite generateId_spec; fields;
    destruct (CollatzAlgorithm.calculateStatistics sequence) as [stats|e];
    fields.
  all: try (match goal with |- context [notifyListeners ?ev ?d ?s0] =>
              destruct (notifyListeners_fields ev d s0) as (-> & -> & -> & ->) end).
  all: fields; cbn [id statistics]; done.
Qed.

Lemma after_eviction_bound (s : state) :
  maxSequences s = 10 -> len (sequences s) <= 10 -> len (after_eviction s) <= 9.
Proof.
  intros Hm Hb. unfold after_eviction. rewrite Hm.
  destruct (10 <=? len (sequences s)) eqn:E.
  - apply Z.leb_le in E. rewrite len_tl; [lia|].
    intros El. rewrite El in E. unfold len in E. simpl in E. lia.
  - apply Z.leb_gt in E. lia.
Qed.

Lemma after_eviction_sublist (s : state) : after_eviction s `sublist_of` sequences s.
Proof.
  unfold after_eviction. destruct (maxSequences s <=? len (sequences s)); [|done].
  apply tl_sublist.
Qed.

Lemma len_app_one {A} (l : list A) (x : A) : len (l ++ [x]) = len l + 1.
Proof. unfold len. rewrite length_app. simpl. lia. Qed.

Lemma addSequence_invariant (ids : list string) (now : Z) (iso : string) (n : Z)
    (sequence : list Z) (s : state) :
  store_invariant ids s ->
  store_invariant
    (ids ++ match fst (addSequence now iso n sequence s) with
            | Ok x => [id x]
            | Throw _ => []
            end)
    (snd (addSequence now iso n sequence s)).
Proof.
  intros [Hm Hb Hcnt Hids Hnd Hord].
  pose proof (addSequence_fields now iso n sequence s) as H.
  destruct (addSequence now iso n sequence s) as [r s']. cbn [fst snd].
  destruct H as (Hc & Hmax & _ & Hr).
  assert (Forall (fun i => exists now n,
                i = id_text now n /\ 1 <= n <= currentSequenceId s') ids) as Hids'.
  { eapply Forall_impl; [exact Hids|]. intros i (t & k & -> & Hk). exists t, k.
    split; [done|lia]. }
  pose proof (after_eviction_bound s Hm Hb) as Hev.
  pose proof (sublist_map id _ _ (after_eviction_sublist s)) as Hsub.
  destruct r as [x|e].
  - destruct Hr as (Hseq & Hid & _). split.
    + congruence.
    + rewrite Hseq, len_app_one. lia.
    + lia.
    + apply Forall_app. split; [done|]. constructor; [|constructor].
      exists now, (currentSequenceId s + 1). split; [done|lia].
    + apply NoDup_app. split; [done|]. split; [|apply NoDup_singleton].
      intros i Hi Hx. apply list_elem_of_singleton in Hx. subst i.
      rewrite Forall_forall in Hids. destruct (Hids _ Hi) as (t & k & Heq & Hk).
      rewrite Hid in Heq. apply id_text_inj in Heq. lia.
    + rewrite Hseq, map_app. simpl. apply sublist_app; [|done]. by etrans.
  - destruct Hr as (Hseq & _). rewrite app_nil_r. split.
    + congruence.
    + rewrite Hseq. lia.
    + lia.
    + done.
    + done.
    + rewrite Hseq. by etrans.
Qed.

Lemma removeSequence_fields (i : string) (s : state) :
  sequences (snd (removeSequence i s)) `sublist_of` sequences s /\
  currentSequenceId (snd (removeSequence i s)) = currentSequenceId s /\
  maxSequences (snd (removeSequence i s)) = maxSequences s.
Proof.
  unfold removeSequence.
  destruct (findIndex (sequences s) i) as [index|]; [|done].
  destruct (nth_error (sequences s) index) as [removed|]; [|done].
  cbn [snd].
  match goal with |- context [notifyListeners ?ev ?d ?s0] =>
    destruct (notifyListeners_fields ev d s0) as (-> & -> & -> & _) end.
  fields.
  split; [|done]. rewrite <- delete_take_drop. apply sublist_delete.
Qed.

Lemma removeSequence_invariant (ids : list string) (i : string) (s : state) :
  store_invariant ids s -> store_invariant ids (snd (removeSequence i s)).
Proof.
  intros [Hm Hb Hcnt Hids Hnd Hord].
  destruct (removeSequence_fields i s) as (Hsub & Hc & Hmax).
  split.
  - congruence.
  - apply sublist_length in Hsub. unfold len in *. apply Nat2Z.inj_le in Hsub.
    etrans; [exact Hsub|exact Hb].
  - rewrite Hc. done.
  - rewrite Hc. done.
  - done.
  - etrans; [|exact Hord]. apply sublist_map, Hsub.
Qed.

Lemma clearSequences_invariant (ids : list string) (s : state) :
  store_invariant ids s -> store_invariant ids (clearSequences s).
Proof.
  intros [Hm Hb Hcnt Hids Hnd Hord]. unfold clearSequences.
  match goal with |- context [notifyListeners ?ev ?d ?s0] =>
    destruct (notifyListeners_fields ev d s0) as (Hs & Hc & Hmax & _) end.
  split; rewrite ?Hs, ?Hc, ?Hmax; fields.
  - done.
  - unfold len. simpl. lia.
  - done.
  - done.
  - done.
  - apply sublist_nil_l.
Qed.

Lemma addEventListener_invariant (ids : list string) (ev : string) (cb : listener)
    (s : state) :
  store_invariant ids s -> store_invariant ids (addEventListener ev cb s).
Proof. intros [Hm Hb Hcnt Hids Hnd Hord]. split; done. Qed.

Lemma constructor_invariant : store_invariant [] constructor.
Proof.
  split; simpl.
  - done.
  - unfold len. simpl. lia.
  - done.
  - constructor.
  - constructor.
  - constructor.
Qed.

Lemma step_invariant (ids : list string) (c : call) (s : state) :
  store_invariant ids s ->
  store_invariant
    (ids ++ match fst (step c s) with Some x => [x] | None => [] end)
    (snd (step c s)).
Proof.
  intros Hinv. destruct c as [now iso n sequence|i| |ev cb]; cbn [step].
  - pose proof (addSequence_invariant ids now iso n sequence s Hinv) as H.
    destruct (addSequence now iso n sequence s) as [[x|e] s']; exact H.
  - cbn [fst snd]. rewrite app_nil_r. apply removeSequence_invariant, Hinv.
  - cbn [fst snd]. rewrite app_nil_r. apply clearSequences_invariant, Hinv.
  - cbn [fst snd]. rewrite app_nil_r. apply addEventListener_invariant, Hinv.
Qed.

Lemma run_invariant (cs : list call) :
  forall (ids : list string) (s : state),
    store_invariant ids s ->
    store_invariant (ids ++ fst (run cs s)) (snd (run cs s)).
Proof.
  induction cs as [|c cs IH]; intros ids s Hinv.
  - simpl. rewrite app_nil_r. done.
  - cbn [run]. pose proof (step_invariant ids c s Hinv) as Hstep.
    destruct (step c s) as [i s1]. cbn [fst snd] in Hstep.
    specialize (IH _ _ Hstep). destruct (run cs s1) as [ids' s2]. cbn [fst snd] in *.
    destruct i as [x|]; [|rewrite app_nil_r in IH; done].
    rewrite <- app_assoc in IH. done.
Qed.

(** C3.  After any run of [addSequence], [removeSequence] and
    [clearSequences] calls (and registrations of observers) on a new
    store: at most 10 records are held; the ids [addSequence] assigned
    during the run are pairwise distinct; the records are held in the
    order in which their ids were assigned.  An [addSequence] called with
    10 records present removes the first, earliest inserted, record; when
    it returns a record, as it does for a non-empty sequence within the
    argument limit, that record is appended last; when it throws, as it
    does on the empty sequence, the other 9 records are left. *)
Theorem store_is_bounded_fifo_with_unique_ids (cs : list call) :
  let ids := fst (run cs constructor) in
  let s := snd (run cs constructor) in
  len (sequences s) <= 10 /\
  NoDup ids /\
  map id (sequences s) `sublist_of` ids /\
  forall now iso startNumber sequence,
    len (sequences s) = 10 ->
    exists oldest rest,
      sequences s = oldest :: rest /\
      match addSequence now iso startNumber sequence s with
      | (Ok r, s') => sequences s' = rest ++ [r] /\ ~ In oldest (rest ++ [r])
      | (Throw _, s') => sequences s' = rest
      end /\
      (sequence <> [] -> within_argument_limit sequence ->
       exists r, fst (addSequence now iso startNumber sequence s) = Ok r) /\
      (sequence = [] ->
       fst (addSequence now iso startNumber sequence s)
       = Throw CollatzAlgorithm.empty_sequence).
Proof.
  intros ids s.
  pose proof (run_invariant cs [] constructor constructor_invariant) as Hinv.
  rewrite app_nil_l in Hinv. fold ids s in Hinv.
  destruct Hinv as [Hm Hb Hcnt Hids Hnd Hord].
  split; [done|]. split; [done|]. split; [done|].
  intros now iso startNumber sequence Hfull.
  pose proof (addSequence_invariant ids now iso startNumber sequence s
                (Build_store_invariant _ _ Hm Hb Hcnt Hids Hnd Hord)) as Hinv'.
  pose proof (addSequence_fields now iso startNumber sequence s) as Hf.
  destruct (sequences s) as [|oldest rest] eqn:Es.
  { unfold len in Hfull. simpl in Hfull. lia. }
  assert (after_eviction s = rest) as Hev.
  { unfold after_eviction. rewrite Hm, Es, Hfull. reflexivity. }
  exists oldest, rest. split; [done|].
  destruct (addSequence now iso startNumber sequence s) as [r s']. cbn [fst snd] in *.
  destruct Hf as (_ & _ & _ & Hr). rewrite Hev in Hr.
  split; [|split].
  - destruct r as [x|e]; [|apply Hr]. destruct Hr as (Hseq & Hid & _).
    split; [done|].
    destruct Hinv' as [_ _ _ _ Hnd' Hord'].
    assert (NoDup (map id (oldest :: rest))) as Hnd1
      by exact (sublist_NoDup _ _ Hnd Hord).
    assert (id oldest ∈ ids) as Hin.
    { eapply sublist_subseteq; [exact Hord|]. simpl. left. }
    intros Hold. apply in_app_or in Hold as [Hold|Hold].
    + simpl in Hnd1. apply NoDup_cons in Hnd1 as [Hn _]. apply Hn.
      apply list_elem_of_In, in_map, Hold.
    + simpl in Hold. destruct Hold as [<-|[]].
      apply NoDup_app in Hnd' as (_ & Hdisj & _). apply (Hdisj _ Hin). left.
  - intros Hne _.
    destruct (calculateStatistics_nonempty sequence Hne) as (stats & Hstats & _).
    destruct r as [x|e]; [eauto|]. destruct Hr as [_ Hr]. congruence.
  - intros ->. destruct r as [x|e]; [destruct Hr as (_ & _ & Hr); discriminate|].
    destruct Hr as [_ Hr]. f_equal. injection Hr as <-. reflexivity.
Qed.

Lemma notifyListeners_notified (ev : string) (d : option sequenceData) (s : state) :
  notified (notifyListeners ev d s) =
  notified s ++ map (fun cb => mkNotification cb ev d)
                    (match eventListeners s !! ev with Some cbs => cbs | None => [] end).
Proof.
  unfold notifyListeners. destruct (eventListeners s !! ev); simpl; [done|].
  by rewrite app_nil_r.
Qed.

Lemma addSequence_notified (now : Z) (iso : string) (n : Z) (sequence : list Z) (s : state) :
  notified (snd (addSequence now iso n sequence s)) =
  notified s ++
  match fst (addSequence now iso n sequence s) with
  | Ok x =>
      map (fun cb => mkNotification cb "sequenceAdded" (Some x))
          (match eventListeners s !! "sequenceAdded"%string with
           | Some cbs => cbs
           | None => []
           end)
  | Throw _ => []
  end.
Proof.
  unfold addSequence.
  destruct (maxSequences s <=? len (sequences s));
    rewrite generateId_spec;
    fields;
    destruct (CollatzAlgorithm.calculateStatistics sequence) as [stats|e];
    cbn [fst snd]; rewrite ?notifyListeners_notified;
    fields;
    rewrite ?app_nil_r; reflexivity.
Qed.

(** Whatever the state, the callbacks [addSequence] calls are those of the
    event ['sequenceAdded']; when the store is full a record is evicted all
    the same. *)
Lemma addSequence_notifies_addition_only
    (now : Z) (iso : string) (n : Z) (sequence : list Z) (s : state) :
  exists new,
    notified (snd (addSequence now iso n sequence s)) = notified s ++ new /\
    Forall (fun x => event x = "sequenceAdded"%string) new /\
    (maxSequences s <= len (sequences s) ->
     forall r, fst (addSequence now iso n sequence s) = Ok r ->
               sequences (snd (addSequence now iso n sequence s)) = tl (sequences s) ++ [r]).
Proof.
  eexists. split; [apply addSequence_notified|]. split.
  - destruct (fst (addSequence now iso n sequence s)); [|constructor].
    apply Forall_forall. intros x Hx.
    apply list_elem_of_In, in_map_iff in Hx as (cb & <- & _). reflexivity.
  - intros Hfull r Hr.
    pose proof (addSequence_fields now iso n sequence s) as Hf.
    destruct (addSequence now iso n sequence s) as [r' s']. cbn [fst snd] in *. subst r'.
    destruct Hf as (_ & _ & _ & Hseq & _). rewrite Hseq. unfold after_eviction.
    apply Z.leb_le in Hfull. rewrite Hfull. reflexivity.
Qed.

(** C3 at the store holding the records of 1 .. 10, to which the sequence
    of 11 is added. *)
Lemma store_is_bounded_fifo_with_unique_ids_witness :
  let s := snd (run ten_adds constructor) in
  len (sequences s) = 10 /\
  exists oldest rest,
    sequences s = oldest :: rest /\
    match eleventh s with
    | (Ok r, s') => sequences s' = rest ++ [r] /\ ~ In oldest (rest ++ [r])
    | (Throw _, s') => sequences s' = rest
    end /\
    (sequence_of 11 <> [] -> within_argument_limit (sequence_of 11) ->
     exists r, fst (eleventh s) = Ok r) /\
    (sequence_of 11 = [] -> fst (eleventh s) = Throw CollatzAlgorithm.empty_sequence).
Proof.
  assert (len (sequences (snd (run ten_adds constructor))) = 10)
    as Hfull by (vm_compute; reflexivity).
  split; [exact Hfull|].
  apply (store_is_bounded_fifo_with_unique_ids ten_adds). exact Hfull.
Defined.

(** The store of the records of 1 .. 10, to which the empty sequence is
    added: the call evicts the record of 1 and then throws, so that 9
    records are left and no record has been appended. *)
Lemma addSequence_of_empty_sequence_evicts :
  let s := snd (run ten_adds constructor) in
  let outcome := addSequence 1700000000011 "2023-11-14T22:13:20.011Z" 11 [] s in
  map startNumber (sequences s) = [1; 2; 3; 4; 5; 6; 7; 8; 9; 10] /\
  fst outcome = Throw CollatzAlgorithm.empty_sequence /\
  map startNumber (sequences (snd outcome)) = [2; 3; 4; 5; 6; 7; 8; 9; 10] /\
  ~ exists r, In r (sequences (snd outcome)) /\ startNumber r = 11.
Proof.
  cbv zeta.
  assert (map startNumber
            (sequences (snd (addSequence 1700000000011 "2023-11-14T22:13:20.011Z" 11 []
                                         (snd (run ten_adds constructor)))))
          = [2; 3; 4; 5; 6; 7; 8; 9; 10]) as Hleft by (vm_compute; reflexivity).
  split; [vm_compute; reflexivity|]. split; [vm_compute; reflexivity|].
  split; [exact Hleft|].
  intros (r & Hr & H11). apply (in_map startNumber) in Hr.
  rewrite Hleft, H11 in Hr. simpl in Hr.
  repeat (destruct Hr as [Hr|Hr]; [discriminate|]). exact Hr.
Qed.

(** C9.  The claim: an [addSequence] on a store holding 10 records notifies
    the observers of the eviction and of the addition.  The code at the
    sample store: the call evicts the record of 1 and appends the record of
    11, and the only callback called is the observer of additions; the
    observer of removals is called by [removeSequence], not by the
    eviction. *)
Theorem eviction_is_not_notified :
  map startNumber (sequences full_store) = [1; 2; 3; 4; 5; 6; 7; 8; 9; 10] /\
  map id (sequences full_store) !! 0%nat = Some "seq_1700000000001_1"%string /\
  map startNumber (sequences (snd (eleventh full_store)))
  = [2; 3; 4; 5; 6; 7; 8; 9; 10; 11] /\
  new_notifications full_store (snd (eleventh full_store))
  = [(1%nat, "sequenceAdded"%string, Some 11)] /\
  new_notifications full_store (snd (removeSequence "seq_1700000000001_1" full_store))
  = [(0%nat, "sequenceRemoved"%string, Some 1)].
Proof. vm_compute. repeat split. Qed.

End Store.

(** * Properties of [ComparisonAnalyzer] *)

Lemma in_range (lo hi x : Z) : In x (range lo hi) <-> lo <= x < hi.
Proof.
  unfold range. rewrite in_map_iff. split.
  - intros (k & <- & Hk). apply in_seq in Hk. lia.
  - intros H. exists (Z.to_nat (x - lo)). split; [lia|]. apply in_seq. lia.
Qed.

Lemma at_lookup (l : list Z) (i : nat) (a d : Z) :
  l !! i = Some a -> at_ l (Z.of_nat i) d = a.
Proof.
  intros H. unfold at_.
  assert ((Z.of_nat i <? 0) = false) as -> by (apply Z.ltb_ge; lia).
  rewrite Nat2Z.id. apply nth_lookup_Some. done.
Qed.

Lemma Qfloor_fifth (n : Z) : Qfloor (inject_Z n * 0.2) = n / 5.
Proof.
  unfold Qfloor, inject_Z, Qmult. simpl.
  change (Z.pos (1 * 10)) with (5 * 2). apply Z.div_mul_cancel_r; lia.
Qed.

Lemma every_non_increasing_spec (l : list Z) :
  ComparisonAnalyzer.every_non_increasing l = true <-> non_increasing l.
Proof.
  unfold ComparisonAnalyzer.every_non_increasing. rewrite forallb_forall. split.
  - intros H.
    assert (forall (i : nat) (a b : Z), l !! i = Some a -> l !! S i = Some b -> b <= a) as Hadj.
    { intros i a b Ha Hb.
      assert (In (Z.of_nat (S i)) (range 0 (len l))) as Hin.
      { apply in_range. apply lookup_lt_Some in Hb. unfold len. lia. }
      specialize (H _ Hin). apply orb_true_iff in H as [H|H].
      - apply Z.eqb_eq in H. lia.
      - apply Z.leb_le in H. rewrite (at_lookup _ _ _ _ Hb) in H.
        replace (Z.of_nat (S i) - 1) with (Z.of_nat i) in H by lia.
        rewrite (at_lookup _ _ _ _ Ha) in H. done. }
    intros i j a b Hij Ha Hb. revert b Hb.
    induction Hij as [|j Hij IH]; intros b Hb; [assert (a = b) by congruence; lia|].
    destruct (lookup_lt_is_Some_2 l j) as [c Hc].
    { apply lookup_lt_Some in Hb. lia. }
    specialize (IH c Hc). specialize (Hadj j c b Hc Hb). lia.
  - intros H idx Hidx. apply in_range in Hidx. apply orb_true_iff.
    destruct (decide (idx = 0)) as [->|Hne]; [left; done|right].
    apply Z.leb_le. unfold len in Hidx.
    destruct (lookup_lt_is_Some_2 l (Z.to_nat idx)) as [b Hb]; [lia|].
    destruct (lookup_lt_is_Some_2 l (Z.to_nat (idx - 1))) as [a Ha]; [lia|].
    pose proof (at_lookup _ _ _ 0 Hb) as Eb. pose proof (at_lookup _ _ _ 0 Ha) as Ea.
    rewrite Z2Nat.id in Eb, Ea by lia. rewrite Ea, Eb.
    apply (H (Z.to_nat (idx - 1)) (Z.to_nat idx)); [lia|done|done].
Qed.

Lemma slice_last_trailing (sequence : list Z) :
  slice_last sequence (Z.min 10 (Qfloor (inject_Z (len sequence) * 0.2)))
  = trailing_window sequence.
Proof. unfold slice_last, trailing_window. rewrite Qfloor_fifth. reflexivity. Qed.

Lemma trailing_window_nonempty (sequence : list Z) :
  sequence <> [] -> trailing_window sequence <> [].
Proof.
  intros Hne. unfold trailing_window.
  destruct (Z.min 10 (len sequence / 5) =? 0) eqn:E; [done|].
  apply Z.eqb_neq in E. intros Hnil.
  apply (f_equal (@length Z)) in Hnil. rewrite length_skipn in Hnil. simpl in Hnil.
  assert (0 <= len sequence / 5) by (apply Z.div_pos; unfold len; lia).
  assert (len sequence / 5 <= len sequence).
  { apply Z.div_le_upper_bound; unfold len; lia. }
  unfold len in *. lia.
Qed.

Lemma half_le_spec (a b : Z) : Qle_bool (inject_Z a) (inject_Z b * 0.5) = (2 * a <=? b).
Proof.
  destruct (2 * a <=? b) eqn:E.
  - apply Qle_bool_iff. apply Z.leb_le in E. unfold Qle, inject_Z, Qmult. simpl. lia.
  - destruct (Qle_bool (inject_Z a) (inject_Z b * 0.5)) eqn:E'; [|done].
    apply Qle_bool_iff in E'. apply Z.leb_gt in E.
    unfold Qle, inject_Z, Qmult in E'. simpl in E'. lia.
Qed.

Lemma is_maximum_Math_max (top : Z) (l : list Z) :
  l <> [] -> (is_maximum top l <-> top = Math_max l).
Proof.
  intros Hne. destruct (Math_max_spec l Hne) as [Hall Hin]. split.
  - intros [Htin Htall]. rewrite Forall_forall in Hall, Htall.
    apply list_elem_of_In in Htin, Hin.
    specialize (Hall _ Htin). specialize (Htall _ Hin). lia.
  - intros ->. split; done.
Qed.

Lemma smooth_tail_spec (window : list Z) :
  window <> [] ->
  (smooth_tail window <->
   ComparisonAnalyzer.every_non_increasing window
   && Qle_bool (inject_Z (at_ window (len window - 1) 0))
               (inject_Z (Math_max window) * 0.5) = true).
Proof.
  intros Hne. rewrite andb_true_iff, every_non_increasing_spec, half_le_spec, Z.leb_le.
  unfold smooth_tail. split.
  - intros (Hni & final & top & Hlast & Hmax & Hle). split; [done|].
    rewrite (at_last window 0 Hne) in Hlast. injection Hlast as ->.
    apply (is_maximum_Math_max _ _ Hne) in Hmax. subst top. done.
  - intros [Hni Hle]. split; [done|].
    exists (at_ window (len window - 1) 0), (Math_max window).
    split; [apply at_last; done|]. split; [|done].
    apply is_maximum_Math_max; done.
Qed.

Section AnalyzeConvergence.
Import ComparisonAnalyzer.

(** C7.  For a sequence within the argument limit (the differences of
    the sequence are spread into [Math.max]): when it has fewer than 3
    elements [analyzeConvergence] returns the type ['unknown'] and speed 0;
    otherwise the type is ['smooth'] when the trailing window never rises
    and ends at no more than half its maximum, with speed
    1 - oscillationLevel; else ['oscillating'] when the oscillation level
    is above 0.5, with speed 0.5; else ['irregular'], with speed 0.3. *)
Theorem analyzeConvergence_classification (sequence : list Z) :
  within_argument_limit sequence ->
  let a := analyzeConvergence sequence in
  let window := trailing_window sequence in
  (len sequence < 3 /\ convergenceType a = unknown /\ (convergenceSpeed a == 0)%Q) \/
  (3 <= len sequence /\
   ((smooth_tail window /\ convergenceType a = smooth /\
     (convergenceSpeed a == 1 - oscillationLevel a)%Q) \/
    (~ smooth_tail window /\ (1 # 2 < oscillationLevel a)%Q /\
     convergenceType a = oscillating /\ (convergenceSpeed a == 1 # 2)%Q) \/
    (~ smooth_tail window /\ (oscillationLevel a <= 1 # 2)%Q /\
     convergenceType a = irregular /\ (convergenceSpeed a == 3 # 10)%Q))).
Proof.
  intros _ a window. subst a. unfold analyzeConvergence.
  destruct (len sequence <? 3) eqn:Elen.
  { left. apply Z.ltb_lt in Elen. simpl. split; [done|]. split; reflexivity. }
  right. apply Z.ltb_ge in Elen. split; [done|].
  assert (sequence <> []) as Hne.
  { intros ->. unfold len in Elen. simpl in Elen. lia. }
  pose proof (smooth_tail_spec window (trailing_window_nonempty _ Hne)) as Hsmooth.
  rewrite slice_last_trailing. fold window.
  destruct (every_non_increasing window
            && Qle_bool (inject_Z (at_ window (len window - 1) 0))
                        (inject_Z (Math_max window) * 0.5)) eqn:Es.
  { left. cbn [convergenceType convergenceSpeed oscillationLevel].
    split; [apply Hsmooth; done|]. split; reflexivity. }
  assert (~ smooth_tail window) as Hns.
  { intros Hs. apply Hsmooth in Hs. congruence. }
  right. assert (0.5 == 1 # 2)%Q as Hhalf by reflexivity.
  match goal with |- context [Qle_bool ?lvl 0.5] => destruct (Qle_bool lvl 0.5) eqn:El end;
    cbn [negb convergenceType convergenceSpeed oscillationLevel].
  - right. split; [done|]. split; [|split; reflexivity].
    apply Qle_bool_iff in El. rewrite <- Hhalf. exact El.
  - left. split; [done|]. split; [|split; reflexivity].
    apply Qnot_le_lt. intros Hle. rewrite <- Hhalf in Hle.
    apply Qle_bool_iff in Hle. congruence.
Qed.

(** C7 at the sequence of 6. *)
Lemma analyzeConvergence_classification_witness :
  within_argument_limit [6; 3; 10; 5; 16; 8; 4; 2; 1] /\
  let a := analyzeConvergence [6; 3; 10; 5; 16; 8; 4; 2; 1] in
  let window := trailing_window [6; 3; 10; 5; 16; 8; 4; 2; 1] in
  (len [6; 3; 10; 5; 16; 8; 4; 2; 1] < 3 /\ convergenceType a = unknown /\
   (convergenceSpeed a == 0)%Q) \/
  (3 <= len [6; 3; 10; 5; 16; 8; 4; 2; 1] /\
   ((smooth_tail window /\ convergenceType a = smooth /\
     (convergenceSpeed a == 1 - oscillationLevel a)%Q) \/
    (~ smooth_tail window /\ (1 # 2 < oscillationLevel a)%Q /\
     convergenceType a = oscillating /\ (convergenceSpeed a == 1 # 2)%Q) \/
    (~ smooth_tail window /\ (oscillationLevel a <= 1 # 2)%Q /\
     convergenceType a = irregular /\ (convergenceSpeed a == 3 # 10)%Q))).
Proof.
  assert (within_argument_limit [6; 3; 10; 5; 16; 8; 4; 2; 1]) as Hfits
    by (unfold within_argument_limit; simpl; lia).
  split; [exact Hfits|].
  exact (analyzeConvergence_classification [6; 3; 10; 5; 16; 8; 4; 2; 1] Hfits).
Defined.

(** The type of the sequence of 1, [[1]], is none of the three. *)
Lemma analyzeConvergence_unknown_on_short_sequence :
  let t := convergenceType (analyzeConvergence [1]) in
  t <> smooth /\ t <> oscillating /\ t <> irregular.
Proof. vm_compute. repeat split; discriminate. Qed.

End AnalyzeConvergence.

Section FindAnomalies.
Import ComparisonAnalyzer.

(** C6.  [findAnomalies()] returns the empty list whenever the analyzer
    holds fewer than 3 sequences.  It leaves the analyzer as it was, so a
    second call returns the same list; and the list depends on the held
    sequences only. *)
Theorem findAnomalies_short_and_stable (Summary : Type) (this : state Summary) :
  ((List.length (this_sequences this) < 3)%nat -> fst (findAnomalies this) = []) /\
  snd (findAnomalies this) = this /\
  fst (findAnomalies (snd (findAnomalies this)))
  = fst (findAnomalies this) /\
  (forall other : state Summary,
     this_sequences other = this_sequences this ->
     fst (findAnomalies other) = fst (findAnomalies this)).
Proof.
  assert (snd (findAnomalies this) = this) as Hsame.
  { unfold findAnomalies. destruct (List.length (this_sequences this) <? 3)%nat; reflexivity. }
  split; [|split; [exact Hsame|split]].
  - intros Hshort. unfold findAnomalies.
    apply Nat.ltb_lt in Hshort. rewrite Hshort. reflexivity.
  - rewrite Hsame. reflexivity.
  - intros other Heq. unfold findAnomalies. rewrite Heq.
    destruct (List.length (this_sequences this) <? 3)%nat; reflexivity.
Qed.

(** On the sample analyzer: the entry of 27 is an outlier by length and by
    maximum, the entry of 3 has no tag; with two entries nothing is
    reported. *)
Example findAnomalies_sample :
  map (fun a => (type a, startNumber (anomaly_sequence a), value a, severity a))
      (fst (findAnomalies sample_analyzer))
  = [(type_length, 27, number 112, high);
     (type_maxValue, 27, number 9232, high);
     (type_pattern, 3, no_patterns, medium)] /\
  fst (findAnomalies (mkState [sample_entry 3 []; sample_entry 27 []] tt)) = [].
Proof. vm_compute. split; reflexivity. Qed.

End FindAnomalies.

Section ExportComparisonData.
Import ComparisonAnalyzer.

Context {Summary Aggregates : Type}.
Context (aggregates : list entry -> Aggregates).
Context (JSON_stringify : report Summary Aggregates -> string).

Lemma generateComparisonReport_state (now : string) (this : state Summary) :
  snd (generateComparisonReport aggregates now this) = this.
Proof.
  unfold generateComparisonReport, findAnomalies.
  destruct (List.length (this_sequences this) <? 3)%nat; reflexivity.
Qed.

(** C8.  [exportComparisonData(format)] returns [JSON.stringify] of the report
    for ['json'], [convertToCSV] of the report for ['csv'], and the empty
    string for every other format; it leaves the analyzer as it was. *)
Theorem exportComparisonData_formats (now format : string) (this : state Summary) :
  let r := fst (generateComparisonReport aggregates now this) in
  let out := exportComparisonData aggregates JSON_stringify now format this in
  snd out = this /\
  (format = "json"%string -> fst out = Ok (JSON_stringify r)) /\
  (format = "csv"%string -> fst out = Ok (convertToCSV r)) /\
  (format <> "json"%string -> format <> "csv"%string -> fst out = Ok ""%string).
Proof.
  intros r out. subst r out. unfold exportComparisonData.
  pose proof (generateComparisonReport_state now this) as Hst.
  destruct (generateComparisonReport aggregates now this) as [r this'].
  cbn [fst snd] in *. subst this'.
  destruct (String.eqb_spec format "json") as [->|Hj].
  { repeat split; try done. }
  destruct (String.eqb_spec format "csv") as [->|Hc].
  { repeat split; try done. }
  repeat split; try done.
Qed.

End ExportComparisonData.

(** For the format ['xml'] the call returns the empty string: it does not
    fail. *)
Lemma exportComparisonData_unknown_format_returns :
  let out :=
    fst (ComparisonAnalyzer.exportComparisonData (fun _ => tt) (fun _ => "{}"%string)
           "2023-11-14T22:13:20.000Z" "xml" sample_analyzer) in
  out = Ok ""%string /\ forall e, out <> Throw e.
Proof. split; [reflexivity|discriminate]. Qed.

Section Pearson.
Local Open Scope R_scope.

Lemma sum_cons (a : R) (l : list R) : sum (a :: l) = a + sum l.
Proof. reflexivity. Qed.

Lemma dot_cons (a b : R) (x y : list R) : dot (a :: x) (b :: y) = a * b + dot x y.
Proof. reflexivity. Qed.

Lemma dot_nil : dot [] [] = 0.
Proof. reflexivity. Qed.

Lemma sum_nil : sum [] = 0.
Proof. reflexivity. Qed.



Lemma fold_left_over_map {A B C} (f : A -> C -> A) (g : B -> C) (l : list B) (acc : A) :
  fold_left f (map g l) acc = fold_left (fun a b => f a (g b)) l acc.
Proof. revert acc. induction l as [|b l IH]; intros acc; simpl; [done|]. apply IH. Qed.


Lemma sum_squared_distances (a : R) (l : list R) :
  0 <= INR (length l) * (a * a) - 2 * a * sum l + dot l l.
Proof.
  induction l as [|b l IH]; cbn [length].
  - rewrite sum_nil, dot_nil. simpl. lra.
  - rewrite S_INR, sum_cons, dot_cons.
    pose proof (Rle_0_sqr (a - b)) as Hsq. unfold Rsqr in Hsq. lra.
Qed.

Lemma spread_nonneg (l : list R) : 0 <= spread l.
Proof.
  unfold spread. induction l as [|a l IH]; cbn [length].
  - rewrite sum_nil, dot_nil. simpl. lra.
  - rewrite S_INR, sum_cons, dot_cons. pose proof (sum_squared_distances a l) as H. nra.
Qed.

Lemma line_sums (t : R) (x y : list R) :
  length x = length y ->
  length (line t x y) = length x /\
  sum (line t x y) = t * sum x + sum y /\
  dot (line t x y) (line t x y) = t * t * dot x x + 2 * t * dot x y + dot y y.
Proof.
  revert y. induction x as [|a x IH]; intros [|b y] Hlen; try discriminate.
  - unfold line. cbn [combine map length]. rewrite !sum_nil, !dot_nil.
    repeat split; lra.
  - injection Hlen as Hlen. destruct (IH y Hlen) as (H1 & H2 & H3).
    change (line t (a :: x) (b :: y)) with ((t * a + b) :: line t x y).
    cbn [length]. rewrite !sum_cons, !dot_cons, H1, H2, H3.
    repeat split; lra.
Qed.

Lemma spread_line (t : R) (x y : list R) :
  length x = length y ->
  spread (line t x y) = t * t * spread x + 2 * t * covariation x y + spread y.
Proof.
  intros Hlen. destruct (line_sums t x y Hlen) as (H1 & H2 & H3).
  unfold spread, covariation. rewrite H1, H2, H3, <- Hlen. ring.
Qed.

Lemma covariation_bound (x y : list R) :
  length x = length y ->
  covariation x y * covariation x y <= spread x * spread y.
Proof.
  intros Hlen.
  pose proof (spread_nonneg x) as HA. pose proof (spread_nonneg y) as HB.
  assert (forall t, 0 <= t * t * spread x + 2 * t * covariation x y + spread y) as Hq.
  { intros t. rewrite <- spread_line by done. apply spread_nonneg. }
  set (A := spread x) in *. set (B := spread y) in *. set (C := covariation x y) in *.
  destruct (Req_dec_T A 0) as [HA0|HA0].
  - assert (C = 0) as ->; [|nra].
    destruct (Req_dec_T C 0) as [|HC]; [done|].
    specialize (Hq (- (B + 1) / (2 * C))). rewrite HA0 in Hq.
    replace (2 * (- (B + 1) / (2 * C)) * C) with (- (B + 1)) in Hq by (field; done).
    lra.
  - specialize (Hq (- C / A)).
    replace (- C / A * (- C / A) * A + 2 * (- C / A) * C + B)
      with (B - C * C / A) in Hq by (field; done).
    assert (0 < A) as HApos by lra.
    assert (C * C / A <= B) as H by lra.
    apply (Rmult_le_compat_l A) in H; [|lra].
    replace (A * (C * C / A)) with (C * C) in H by (field; done). lra.
Qed.




Local Close Scope R_scope.

Lemma total_cons (a : Z) (l : list Z) : total (a :: l) = a + total l.
Proof. reflexivity. Qed.

Lemma products_cons (a b : Z) (x y : list Z) :
  products (a :: x) (b :: y) = a * b :: products x y.
Proof. reflexivity. Qed.

Lemma total_nonneg (l : list Z) : Forall (fun v => 0 <= v) l -> 0 <= total l.
Proof.
  induction 1 as [|a l Ha _ IH]; [done|]. rewrite total_cons. lia.
Qed.

Lemma products_nonneg (x y : list Z) :
  Forall (fun v => 0 <= v) x -> Forall (fun v => 0 <= v) y ->
  Forall (fun v => 0 <= v) (products x y).
Proof.
  intros Hx. revert y. induction Hx as [|a x Ha _ IH]; intros y Hy; [constructor|].
  destruct Hy as [|b y Hb Hy]; [constructor|].
  rewrite products_cons. constructor; [lia|]. apply IH, Hy.
Qed.

(** Below 2^53 the host adds non-negative integers exactly. *)
Lemma sum_of_exact (l : list Z) (acc : Z) :
  0 <= acc -> Forall (fun v => 0 <= v) l -> acc + total l < 2 ^ 53 ->
  fold_left (fun a b => Double.add a (Double.of_Z b)) l (Double.of_Z acc)
  = Double.of_Z (acc + total l).
Proof.
  revert acc. induction l as [|x l IH]; intros acc Hacc Hl Hsum; cbn [fold_left].
  - change (total []) with 0. rewrite Z.add_0_r. reflexivity.
  - inversion Hl as [|? ? Hx Hl']; subst. rewrite total_cons in Hsum.
    pose proof (total_nonneg l Hl') as Hnn.
    rewrite add_exact by lia. rewrite IH by (try done; lia).
    rewrite total_cons. f_equal. lia.
Qed.

Lemma sum_of_products_exact (x y : list Z) (acc : Z) :
  0 <= acc -> Forall (fun v => 0 <= v) x -> Forall (fun v => 0 <= v) y ->
  acc + total (products x y) < 2 ^ 53 ->
  fold_left (fun sum '(xi, yi) =>
               Double.add sum (Double.mul (Double.of_Z xi) (Double.of_Z yi)))
            (combine x y) (Double.of_Z acc)
  = Double.of_Z (acc + total (products x y)).
Proof.
  intros Hacc Hx. revert y acc Hacc.
  induction Hx as [|a x Ha Hx IH]; intros y acc Hacc Hy Hsum.
  - cbn [combine fold_left]. change (total (products [] y)) with 0.
    rewrite Z.add_0_r. reflexivity.
  - destruct Hy as [|b y Hb Hy].
    + cbn [combine fold_left]. change (total (products (a :: x) [])) with 0.
      rewrite Z.add_0_r. reflexivity.
    + cbn [combine fold_left]. rewrite products_cons, total_cons in Hsum |- *.
      pose proof (total_nonneg _ (products_nonneg x y Hx Hy)) as Hnn.
      assert (0 <= a * b) by lia.
      rewrite mul_exact, add_exact by lia.
      rewrite IH by (try done; lia). f_equal. lia.
Qed.

Lemma sum_IZR (l : list Z) : sum (map IZR l) = IZR (total l).
Proof.
  induction l as [|a l IH]; [reflexivity|].
  cbn [map]. rewrite sum_cons, IH, total_cons, plus_IZR. reflexivity.
Qed.

Lemma dot_IZR (x y : list Z) : dot (map IZR x) (map IZR y) = IZR (total (products x y)).
Proof.
  revert y. induction x as [|a x IH]; intros [|b y]; try reflexivity.
  cbn [map]. rewrite dot_cons, IH, products_cons, total_cons, plus_IZR, mult_IZR.
  reflexivity.
Qed.

Lemma spread_IZR (x : list Z) : spread (map IZR x) = IZR (scatter x).
Proof.
  unfold spread, scatter, len. rewrite length_map, sum_IZR, dot_IZR, INR_IZR_INZ.
  rewrite minus_IZR, !mult_IZR. reflexivity.
Qed.

Lemma covariation_IZR (x y : list Z) :
  covariation (map IZR x) (map IZR y) = IZR (covary x y).
Proof.
  unfold covariation, covary, len. rewrite length_map, !sum_IZR, dot_IZR, INR_IZR_INZ.
  rewrite minus_IZR, !mult_IZR. reflexivity.
Qed.

Lemma scatter_nonneg (x : list Z) : 0 <= scatter x.
Proof. apply le_IZR. rewrite <- spread_IZR. apply spread_nonneg. Qed.

(** The inequality of Cauchy and Schwarz. *)
Lemma covary_bound (x y : list Z) :
  List.length x = List.length y -> covary x y * covary x y <= scatter x * scatter y.
Proof.
  intros Hlen. apply le_IZR. rewrite !mult_IZR, <- !spread_IZR, <- covariation_IZR.
  apply covariation_bound. rewrite !length_map. exact Hlen.
Qed.

Lemma total_le_squares (x : list Z) :
  Forall (fun v => 0 <= v) x -> total x <= total (products x x).
Proof.
  induction 1 as [|a x Ha _ IH]; [done|].
  rewrite products_cons, !total_cons. nia.
Qed.

Lemma products_le_squares (x y : list Z) :
  List.length x = List.length y ->
  2 * total (products x y) <= total (products x x) + total (products y y).
Proof.
  revert y. induction x as [|a x IH]; intros [|b y] Hlen; try discriminate.
  injection Hlen as Hlen. specialize (IH y Hlen).
  rewrite !products_cons, !total_cons.
  pose proof (Z.square_nonneg (a - b)) as Hsq. nia.
Qed.

(** With exact moments every integer that [calculateCorrelation] computes
    on the way to its numerator and to the two factors of its denominator
    is below 2^53. *)
Lemma exact_moments_bounds (x y : list Z) :
  List.length x = List.length y -> x <> [] -> exact_moments x -> exact_moments y ->
  0 <= total x < 2 ^ 53 /\
  0 <= total (products x y) /\
  0 <= len x * total (products x y) < 2 ^ 53 /\
  0 <= total x * total y < 2 ^ 53 /\
  Z.abs (covary x y) < 2 ^ 53 /\
  0 <= scatter x < 2 ^ 53.
Proof.
  intros Hlen Hne [Hx Hxx] [Hy Hyy].
  assert (len y = len x) as Hlen' by (unfold len; rewrite Hlen; reflexivity).
  rewrite Hlen' in Hyy.
  assert (1 <= len x) as Hn by (unfold len; destruct x; [done|simpl; lia]).
  pose proof (total_nonneg x Hx) as Hsx. pose proof (total_nonneg y Hy) as Hsy.
  pose proof (total_le_squares x Hx) as Hx1.
  pose proof (total_nonneg _ (products_nonneg x y Hx Hy)) as Hxy.
  pose proof (total_nonneg _ (products_nonneg x x Hx Hx)) as Hxx0.
  pose proof (total_nonneg _ (products_nonneg y y Hy Hy)) as Hyy0.
  pose proof (products_le_squares x y Hlen) as Hxy2.
  pose proof (scatter_nonneg x) as Hscx. pose proof (scatter_nonneg y) as Hscy.
  unfold scatter in Hscx, Hscy |- *. unfold covary. rewrite Hlen' in Hscy.
  set (n := len x) in *. set (Sx := total x) in *. set (Sy := total y) in *.
  set (Sxx := total (products x x)) in *. set (Syy := total (products y y)) in *.
  set (Sxy := total (products x y)) in *.
  assert (2 * (Sx * Sy) <= Sx * Sx + Sy * Sy) as Hmix
    by (pose proof (Z.square_nonneg (Sx - Sy)); nia).
  assert (2 * (n * Sxy) <= n * Sxx + n * Syy) as Hmix2
    by (pose proof (Z.mul_le_mono_nonneg_l _ _ n ltac:(lia) Hxy2); lia).
  assert (0 <= n * Sxy) by nia. assert (0 <= Sx * Sy) by nia.
  repeat split; try lia.
Qed.

End Pearson.

Section CalculateCorrelations.
Import ComparisonAnalyzer.

Lemma sum_of_total (x : list Z) :
  Forall (fun v => 0 <= v) x -> total x < 2 ^ 53 ->
  InDoubles.sum_of x = Double.of_Z (total x).
Proof.
  intros Hx Hsum. unfold InDoubles.sum_of. rewrite sum_of_exact by (try done; lia).
  reflexivity.
Qed.

Lemma sum_of_products_total (x y : list Z) :
  Forall (fun v => 0 <= v) x -> Forall (fun v => 0 <= v) y ->
  total (products x y) < 2 ^ 53 ->
  InDoubles.sum_of_products x y = Double.of_Z (total (products x y)).
Proof.
  intros Hx Hy Hsum. unfold InDoubles.sum_of_products.
  rewrite sum_of_products_exact by (try done; lia). reflexivity.
Qed.

Lemma numerator_exact (x y : list Z) :
  List.length x = List.length y -> x <> [] -> exact_moments x -> exact_moments y ->
  InDoubles.numerator x y = Double.of_Z (covary x y).
Proof.
  intros Hlen Hne Hx Hy.
  destruct (exact_moments_bounds x y Hlen Hne Hx Hy) as (Hsx & Hxy & Hnxy & Hss & Hc & _).
  assert (y <> []) as Hne' by (intros ->; destruct x; done).
  destruct (exact_moments_bounds y x (eq_sym Hlen) Hne' Hy Hx) as (Hsy & _).
  assert (1 <= len x) as Hn by (unfold len; destruct x; [done|simpl; lia]).
  destruct Hx as [Hx _], Hy as [Hy _].
  unfold InDoubles.numerator.
  rewrite (sum_of_total x), (sum_of_total y), sum_of_products_total by (try done; nia).
  rewrite !mul_exact by lia. apply sub_exact. exact Hc.
Qed.

(** [n * sumX2 - sumX * sumX] *)
Lemma factor_exact (x : list Z) (n : Z) :
  n = len x -> x <> [] -> exact_moments x ->
  Double.sub (Double.mul (Double.of_Z n) (InDoubles.sum_of_products x x))
             (Double.mul (InDoubles.sum_of x) (InDoubles.sum_of x))
  = Double.of_Z (scatter x).
Proof.
  intros -> Hne Hx.
  destruct (exact_moments_bounds x x eq_refl Hne Hx Hx) as (Hsx & Hxx & Hnxx & Hss & _ & Hsc).
  assert (1 <= len x) as Hn by (unfold len; destruct x; [done|simpl; lia]).
  destruct Hx as [Hx _].
  rewrite (sum_of_total x), sum_of_products_total by (try done; nia).
  rewrite !mul_exact by lia. apply sub_exact. unfold scatter in Hsc. lia.
Qed.

Lemma denominator_exact (x y : list Z) :
  List.length x = List.length y -> x <> [] -> exact_moments x -> exact_moments y ->
  InDoubles.denominator x y
  = Double.sqrt (Double.mul (Double.of_Z (scatter x)) (Double.of_Z (scatter y))).
Proof.
  intros Hlen Hne Hx Hy. unfold InDoubles.denominator.
  assert (y <> []) as Hne' by (intros ->; destruct x; done).
  rewrite (factor_exact x), (factor_exact y); try done.
  unfold len. rewrite Hlen. reflexivity.
Qed.

(** With exact moments [calculateCorrelation] returns 0 when one of the
    two lists is constant, and a double from -1 to 1 when the product of
    the two factors of the denominator is below 2^53 as well. *)
Lemma calculateCorrelation_exact (x y : list Z) :
  List.length x = List.length y -> x <> [] -> exact_moments x -> exact_moments y ->
  (scatter x * scatter y = 0 -> InDoubles.calculateCorrelation x y = finite 0) /\
  (0 < scatter x * scatter y < 2 ^ 53 ->
   exists q, InDoubles.calculateCorrelation x y = finite q /\ (- (1) <= q)%Q /\ (q <= 1)%Q).
Proof.
  intros Hlen Hne Hx Hy. unfold InDoubles.calculateCorrelation.
  assert ((len x =? len y) = true) as -> by (apply Z.eqb_eq; unfold len; rewrite Hlen; done).
  assert ((len x =? 0) = false) as ->
    by (apply Z.eqb_neq; unfold len; destruct x; [done|simpl; lia]).
  cbn [negb orb].
  rewrite denominator_exact, numerator_exact by done.
  pose proof (covary_bound x y Hlen) as Hcs.
  set (A := scatter x) in *. set (B := scatter y) in *. set (N := covary x y) in *.
  split.
  - intros Hz. rewrite mul_exact by (rewrite Hz; done). rewrite Hz. reflexivity.
  - intros [HM1 HM2]. rewrite mul_exact by lia.
    set (M := A * B) in *.
    assert (Double.sqrt (Double.of_Z M) = finite (Double.sqrt_round (inject_Z M))) as ->.
    { unfold Double.sqrt, Double.of_Z.
      assert (Qeq_bool (inject_Z M) 0 = false) as ->.
      { destruct (Qeq_bool (inject_Z M) 0) eqn:E; [|reflexivity].
        apply Qeq_bool_iff in E. unfold Qeq, inject_Z in E. cbn [Qnum Qden] in E. lia. }
      assert (Double.negative (inject_Z M) = false) as ->; [|reflexivity].
      unfold Double.negative. apply Bool.negb_false_iff, Qle_bool_iff.
      unfold Qle, inject_Z. cbn [Qnum Qden]. lia. }
    pose proof (sqrt_round_lower M 1 ltac:(lia) ltac:(lia) ltac:(lia)) as Hd1.
    pose proof (sqrt_round_lower M (Z.abs N) ltac:(lia) ltac:(lia) ltac:(lia)) as HdN.
    set (d := Double.sqrt_round (inject_Z M)) in *.
    assert (0 < d)%Q as Hdpos by (eapply Qlt_le_trans; [|exact Hd1]; reflexivity).
    assert (Qeq_bool d 0 = false) as Hdz.
    { destruct (Qeq_bool d 0) eqn:E; [|reflexivity].
      apply Qeq_bool_iff in E. rewrite E in Hdpos. discriminate. }
    cbn [Double.is_zero]. rewrite Hdz. unfold Double.div, Double.of_Z. rewrite Hdz.
    apply round_unit.
    + apply Qle_shift_div_l; [exact Hdpos|].
      assert (- (1) * d == - d)%Q as -> by ring.
      apply Qopp_le_compat in HdN. eapply Qle_trans; [exact HdN|].
      rewrite <- inject_Z_opp, <- Zle_Qle. lia.
    + apply Qle_shift_div_r; [exact Hdpos|]. rewrite Qmult_1_l.
      eapply Qle_trans; [|exact HdN]. rewrite <- Zle_Qle. lia.
Qed.

Lemma calculateCorrelation_cases (x y : list Z) :
  List.length x = List.length y -> x <> [] ->
  let r := InDoubles.calculateCorrelation x y in
  (Double.is_zero (InDoubles.denominator x y) = true -> r = finite 0) /\
  (Double.is_zero (InDoubles.denominator x y) = false ->
   r = Double.div (InDoubles.numerator x y) (InDoubles.denominator x y)).
Proof.
  intros Hlen Hne r. subst r. unfold InDoubles.calculateCorrelation.
  assert ((len x =? len y) = true) as -> by (apply Z.eqb_eq; unfold len; rewrite Hlen; done).
  assert ((len x =? 0) = false) as ->
    by (apply Z.eqb_neq; unfold len; destruct x; [done|simpl; lia]).
  cbn [negb orb]. split; intros ->; reflexivity.
Qed.

(** C5.  With fewer than 2 sequences [calculateCorrelations()] returns the
    empty object.  With 2 or more it returns a number for each declared
    pair: 0 when the denominator it has computed is 0, and otherwise the
    quotient of the numerator and the denominator it has computed.  When
    the two lists of the pair have exact moments, that number is 0 if one
    of the lists is constant, and lies in [-1, 1] if the product of the two
    factors of the denominator is positive and below 2^53. *)
Theorem calculateCorrelations_values (sequences : list entry) :
  ((List.length sequences < 2)%nat -> InDoubles.calculateCorrelations sequences = []) /\
  ((2 <= List.length sequences)%nat ->
   forall key x y,
     In (key, x, y) (declared_pairs sequences) ->
     exists r,
       get (InDoubles.calculateCorrelations sequences) key = Some r /\
       (Double.is_zero (InDoubles.denominator x y) = true -> r = finite 0) /\
       (Double.is_zero (InDoubles.denominator x y) = false ->
        r = Double.div (InDoubles.numerator x y) (InDoubles.denominator x y)) /\
       (exact_moments x -> exact_moments y ->
        (scatter x * scatter y = 0 -> r = finite 0) /\
        (0 < scatter x * scatter y < 2 ^ 53 ->
         exists q, r = finite q /\ (- (1) <= q)%Q /\ (q <= 1)%Q))).
Proof.
  unfold InDoubles.calculateCorrelations. split.
  - intros Hlt. apply Nat.ltb_lt in Hlt. rewrite Hlt. reflexivity.
  - intros Hge. assert ((List.length sequences <? 2)%nat = false) as ->
      by (apply Nat.ltb_ge; done).
    assert (forall f : entry -> Z, map f sequences <> []) as Hne.
    { intros f E. apply (f_equal (@List.length Z)) in E. rewrite length_map in E.
      simpl in E. lia. }
    assert (forall f g : entry -> Z,
              List.length (map f sequences) = List.length (map g sequences)) as Hlen
      by (intros; rewrite !length_map; reflexivity).
    intros key x y Hin. unfold declared_pairs in Hin. cbn [In] in Hin.
    destruct Hin as [Hin|[Hin|[Hin|[Hin|[]]]]]; injection Hin as <- <- <-;
      (eexists; split; [reflexivity|]);
      (split; [apply calculateCorrelation_cases; [apply Hlen|apply Hne]|]);
      (split; [apply calculateCorrelation_cases; [apply Hlen|apply Hne]|]);
      intros Hx Hy; apply calculateCorrelation_exact; auto.
Qed.

(** With one sequence held no pair has a value: the object is empty.  With
    the sequences of 1 and of 26623 held, the value of length and maxValue
    is 1 + 2^-52, the double after 1: the sum of the squares of the two
    maxima, 1 + 106358020^2, is above 2^53 and is rounded. *)
Lemma calculateCorrelations_empty_or_above_one :
  let one := get (InDoubles.calculateCorrelations [sample_entry 27 [long]]) "lengthVsMaxValue" in
  let two :=
    get (InDoubles.calculateCorrelations [sample_entry 1 []; sample_entry 26623 []])
        "lengthVsMaxValue" in
  (one = None /\ one <> Some (finite 0)) /\
  (two = Some (finite (4503599627370497 # 4503599627370496)) /\
   (1 < 4503599627370497 # 4503599627370496)%Q).
Proof.
  split; split; [reflexivity|discriminate|vm_compute; reflexivity|reflexivity].
Qed.

(** The sequences of 1, 2 and 3 have exact moments, and the value of length
    and maxValue is 0.9973512810782371. *)
Lemma calculateCorrelations_of_three :
  let held := [sample_entry 1 []; sample_entry 2 []; sample_entry 3 []] in
  let lengths := map (fun seq => CollatzAlgorithm.length (statistics seq)) held in
  let maxValues := map (fun seq => CollatzAlgorithm.maxValue (statistics seq)) held in
  exact_moments lengths /\ exact_moments maxValues /\
  0 < scatter lengths * scatter maxValues < 2 ^ 53 /\
  get (InDoubles.calculateCorrelations held) "lengthVsMaxValue"
  = Some (finite (8983341715642871 # 9007199254740992)).
Proof.
  vm_compute. repeat split; try (repeat constructor; discriminate).
Qed.

End CalculateCorrelations.

(** * Further properties of [CollatzAlgorithm] *)

Section GeneratedValues.
Import CollatzAlgorithm.

Lemma host_step_functional (a b c : Z) : host_step a b -> host_step a c -> b = c.
Proof.
  intros [He Ho] [He' Ho']. destruct (Z.even a) eqn:E.
  - rewrite He, He'; done.
  - rewrite <- Z.negb_even, E in Ho, Ho'. rewrite Ho, Ho'; done.
Qed.

(** Two positions of a sequence that hold the same value are followed by
    the same values. *)
Lemma equal_values_shift (l : list Z) (i j : nat) (k : nat) :
  adjacent_pairs_obey host_step l -> l !! i = l !! j -> (i + k < List.length l)%nat ->
  (j + k < List.length l)%nat -> l !! (i + k)%nat = l !! (j + k)%nat.
Proof.
  intros Hp Hij. induction k as [|k IH]; intros Hi Hj.
  - rewrite !Nat.add_0_r. done.
  - destruct (lookup_lt_is_Some_2 l (i + k)) as [a Ha]; [lia|].
    destruct (lookup_lt_is_Some_2 l (i + S k)) as [b Hb]; [lia|].
    destruct (lookup_lt_is_Some_2 l (j + S k)) as [c Hc]; [lia|].
    assert (l !! (j + k)%nat = Some a) as Ha' by (rewrite <- IH by lia; done).
    rewrite Hb, Hc. f_equal.
    replace (i + S k)%nat with (S (i + k)) in Hb by lia.
    replace (j + S k)%nat with (S (j + k)) in Hc by lia.
    eapply host_step_functional; eauto.
Qed.

Lemma no_repetition_before_one (l : list Z) :
  adjacent_pairs_obey host_step l ->
  (forall i, (S i < List.length l)%nat -> l !! i <> Some 1) ->
  last l = Some 1 -> NoDup l.
Proof.
  intros Hp Hone Hlast. apply NoDup_alt.
  assert (forall i j x, (i < j)%nat -> l !! i = Some x -> l !! j = Some x -> False) as Hlt.
  { intros i j x Hij Hi Hj.
    pose proof (lookup_lt_Some _ _ _ Hj) as Hjl.
    pose proof (equal_values_shift l i j (List.length l - 1 - j) Hp) as Hs.
    rewrite Hi, Hj in Hs. specialize (Hs eq_refl).
    rewrite last_lookup in Hlast.
    replace (j + (List.length l - 1 - j))%nat with (Nat.pred (List.length l)) in Hs by lia.
    rewrite Hlast in Hs.
    apply (Hone (i + (List.length l - 1 - j))%nat); [lia|]. apply Hs; lia. }
  intros i j x Hi Hj.
  destruct (Nat.lt_trichotomy i j) as [H|[H|H]]; [exfalso; eauto|done|exfalso; eauto].
Qed.

(** X1.  For every positive integer [start], [generateSequence(start)]
    returns a sequence of positive integers with at most 1,000,001
    elements; the value 1 can only be its last element; and when it ends
    in 1 no value occurs in it twice. *)
Theorem generateSequence_values (start : Z) :
  1 <= start ->
  exists seq console,
    generateSequence (Num (inject_Z start)) = Ok (seq, console) /\
    Forall (fun x => 1 <= x) seq /\
    1 <= len seq <= 1000001 /\
    (forall i, seq !! i = Some 1 -> S i = List.length seq) /\
    (last seq = Some 1 -> NoDup seq).
Proof.
  intros H. destruct (run_loop_spec start H) as [Hinv _].
  eexists _, _.
  split; [exact (generateSequence_positive _ start (integer_is_integer start) H)|].
  pose proof (inv_length _ _ Hinv) as Hl. pose proof (inv_iterations _ _ Hinv) as Hit.
  unfold maxIterations in Hit.
  split; [apply Hinv|]. split; [lia|]. split.
  - intros i Hi. pose proof (lookup_lt_Some _ _ _ Hi) as Hlt.
    destruct (decide (S i < List.length (sequence (run_loop start)))%nat) as [Hs|Hs]; [|lia].
    exfalso. exact (inv_not_one _ _ Hinv i Hs Hi).
  - apply no_repetition_before_one; apply Hinv.
Qed.

(** The same at the start 27. *)
Lemma generateSequence_values_witness :
  1 <= 27 /\
  exists seq console,
    generateSequence (Num (inject_Z 27)) = Ok (seq, console) /\
    Forall (fun x => 1 <= x) seq /\
    1 <= len seq <= 1000001 /\
    (forall i, seq !! i = Some 1 -> S i = List.length seq) /\
    (last seq = Some 1 -> NoDup seq).
Proof.
  split; [lia|]. apply (generateSequence_values 27). lia.
Defined.

End GeneratedValues.

Section Optimized.
Import CollatzAlgorithm.

Lemma while_sequence_prefix (fuel : nat) (s : locals) :
  sequence s `prefix_of` sequence (while fuel loop_cond loop_body s).
Proof.
  revert s. induction fuel as [|fuel IH]; intros s; simpl; [done|].
  destruct (loop_cond s); [|done].
  etrans; [|apply IH]. rewrite loop_body_next. simpl. apply prefix_app_r. done.
Qed.

(** As long as no value comes twice, the cache is never hit: the loop of
    [generateSequenceOptimized] goes through the states of the loop of
    [generateSequence]. *)
Lemma cached_loop_simulation (fuel : nat) :
  forall (s : locals) (cache : gmap Z (list Z)),
    last (sequence s) = Some (current s) ->
    (forall k, is_Some (cache !! k) ->
       exists i, (S i < List.length (sequence s))%nat /\ sequence s !! i = Some k) ->
    NoDup (sequence (while fuel loop_cond loop_body s)) ->
    exists cache',
      while fuel cached_cond cached_body (with_cache s cache)
      = with_cache (while fuel loop_cond loop_body s) cache'.
Proof.
  induction fuel as [|fuel IH]; intros s cache Hlast Hkeys Hnd; simpl in *; [eauto|].
  assert (cached_cond (with_cache s cache) = loop_cond s) as -> by reflexivity.
  destruct (loop_cond s) eqn:Hc; [|eauto].
  assert (cache !! current s = None) as Hmiss.
  { destruct (cache !! current s) eqn:E; [|done]. exfalso.
    destruct (Hkeys (current s)) as (i & Hi & Hx); [rewrite E; eauto|].
    pose proof (while_sequence_prefix fuel (loop_body s)) as Hpre.
    rewrite loop_body_next in Hpre at 1. simpl in Hpre.
    rewrite last_lookup in Hlast.
    assert (forall j x, sequence s !! j = Some x ->
              sequence (while fuel loop_cond loop_body (loop_body s)) !! j = Some x) as Hup.
    { intros j x Hj. eapply prefix_lookup_Some; [|exact Hpre].
      rewrite lookup_app_l; [done|]. eapply lookup_lt_Some; eauto. }
    apply Hup in Hx, Hlast.
    pose proof (proj1 (NoDup_alt _) Hnd _ _ _ Hx Hlast). lia. }
  assert (cached_body (with_cache s cache)
          = with_cache (loop_body s)
              (if current s <? 10000
               then <[current s := [getNextNumber (current s)]]> cache else cache)) as ->.
  { unfold cached_body. cbn [c_cache c_current with_cache]. rewrite Hmiss.
    rewrite loop_body_next. reflexivity. }
  apply IH; [rewrite loop_body_next; simpl; apply last_snoc| |done].
  intros k Hk. rewrite loop_body_next. cbn [sequence]. rewrite length_app. simpl.
  assert (k = current s \/ is_Some (cache !! k)) as [->|Hin].
  { destruct (current s <? 10000); [|eauto].
    destruct (decide (k = current s)) as [->|Hne]; [eauto|].
    rewrite lookup_insert_ne in Hk by done. eauto. }
  - rewrite last_lookup in Hlast. exists (Nat.pred (List.length (sequence s))).
    assert (sequence s <> []) as Hne by (intros E; rewrite E in Hlast; done).
    destruct (sequence s) eqn:E; [done|]. rewrite <- E in *.
    assert (0 < List.length (sequence s))%nat by (rewrite E; simpl; lia).
    split; [lia|]. rewrite lookup_app_l by lia. done.
  - destruct (Hkeys k Hin) as (i & Hi & Hx). exists i. split; [lia|].
    rewrite lookup_app_l by lia. done.
Qed.

Lemma run_cached_loop_agrees (startNumber : Z) :
  NoDup (sequence (run_loop startNumber)) ->
  exists cache, run_cached_loop startNumber = with_cache (run_loop startNumber) cache.
Proof.
  intros Hnd. unfold run_cached_loop, run_loop in *.
  apply (cached_loop_simulation _
           {| sequence := [startNumber]; current := startNumber; iterations := 0 |} ∅).
  - done.
  - intros k Hk. rewrite lookup_empty in Hk. destruct Hk; done.
  - done.
Qed.

Lemma generateSequenceOptimized_throws (v : value) :
  ~ positive_integer v -> generateSequenceOptimized v = Throw invalid_start.
Proof.
  intros Hv. pose proof (generateSequence_throws v Hv) as H.
  unfold generateSequence in H. unfold generateSequenceOptimized.
  destruct (negb (Number_isInteger v) || less v 1); done.
Qed.

(** X2.  [generateSequenceOptimized] throws the invalid-input error
    exactly when its argument is not a positive integer, and it returns
    what [generateSequence] returns (the same sequence, the same warning)
    whenever that sequence holds no value twice, in particular whenever it
    ends in 1: the cache is only hit by a value that comes a second
    time. *)
Theorem generateSequenceOptimized_agrees (v : value) :
  (generateSequenceOptimized v = Throw invalid_start <-> ~ positive_integer v) /\
  (forall seq console,
     generateSequence v = Ok (seq, console) -> NoDup seq ->
     generateSequenceOptimized v = Ok (seq, console)) /\
  (forall seq console,
     generateSequence v = Ok (seq, console) -> last seq = Some 1 ->
     generateSequenceOptimized v = Ok (seq, console)).
Proof.
  assert (forall seq console,
     generateSequence v = Ok (seq, console) -> NoDup seq ->
     generateSequenceOptimized v = Ok (seq, console)) as Hnodup.
  { intros seq console Hok Hnd.
    unfold generateSequence in Hok. unfold generateSequenceOptimized.
    destruct (negb (Number_isInteger v) || less v 1); [done|].
    cbv zeta in Hok. injection Hok as Hseq Hcon. cbv zeta.
    rewrite <- Hseq in Hnd.
    destruct (run_cached_loop_agrees (to_Z v) Hnd) as [cache ->].
    cbn [c_sequence c_iterations with_cache]. rewrite Hseq, Hcon. done. }
  split; [|split; [exact Hnodup|]].
  - split; [|apply generateSequenceOptimized_throws].
    intros Hthrow Hp. destruct Hp as (n & Hn & Hint).
    destruct (is_integer_spec _ _ Hint) as [Hi Hz].
    unfold generateSequenceOptimized in Hthrow.
    rewrite Hi, (lt_one_spec _ _ Hint) in Hthrow.
    assert ((1 <=? n) = true) as E by (apply Z.leb_le; done).
    rewrite E in Hthrow. done.
  - intros seq console Hok Hlast. apply Hnodup; [done|].
    destruct (generateSequence v) as [[seq' console']|e] eqn:Hg; [|done].
    injection Hok as -> ->.
    unfold generateSequence in Hg.
    destruct (Number_isInteger v) eqn:Hi; [|done].
    pose proof (Number_isInteger_spec v Hi) as Hint.
    rewrite (lt_one_spec _ _ Hint) in Hg.
    destruct (1 <=? to_Z v) eqn:E; [|done]. apply Z.leb_le in E.
    cbn in Hg. injection Hg as Hseq _.
    destruct (run_loop_spec (to_Z v) E) as [Hinv _].
    rewrite <- Hseq in *. apply no_repetition_before_one; try apply Hinv. done.
Qed.

End Optimized.

Section Unfolding.
Import CollatzAlgorithm.

Lemma maxIterations_positive : 1 <= maxIterations.
Proof. unfold maxIterations. lia. Qed.

Lemma while_iterations_grow (fuel : nat) (s : locals) :
  iterations s <= iterations (while fuel loop_cond loop_body s).
Proof.
  revert s. induction fuel as [|fuel IH]; intros s; simpl; [lia|].
  destruct (loop_cond s); [|lia]. specialize (IH (loop_body s)).
  rewrite loop_body_next in IH at 1. simpl in IH. lia.
Qed.

(** A loop that could go on has used all its fuel. *)
Lemma while_out_of_fuel (fuel : nat) (s : locals) :
  loop_cond (while fuel loop_cond loop_body s) = true ->
  iterations (while fuel loop_cond loop_body s) = iterations s + Z.of_nat fuel.
Proof.
  revert s. induction fuel as [|fuel IH]; intros s; simpl; [lia|].
  destruct (loop_cond s) eqn:E; [|congruence].
  intros H. rewrite (IH _ H), loop_body_next. simpl. lia.
Qed.

Lemma while_one_more (fuel : nat) (s : locals) :
  while (S fuel) loop_cond loop_body s
  = if loop_cond (while fuel loop_cond loop_body s)
    then loop_body (while fuel loop_cond loop_body s)
    else while fuel loop_cond loop_body s.
Proof.
  revert s. induction fuel as [|fuel IH]; intros s; [simpl; destruct (loop_cond s); done|].
  change (while (S (S fuel)) loop_cond loop_body s)
    with (if loop_cond s then while (S fuel) loop_cond loop_body (loop_body s) else s).
  change (while (S fuel) loop_cond loop_body s)
    with (if loop_cond s then while fuel loop_cond loop_body (loop_body s) else s).
  destruct (loop_cond s) eqn:E; [apply IH|]. rewrite E. done.
Qed.

(** The run from [n] follows the run from the next number as long as the
    latter stays below the cap. *)
Lemma while_one_step_ahead (n : Z) (fuel : nat) :
  forall s s',
    one_step_ahead n s s' ->
    iterations (while fuel loop_cond loop_body s') < maxIterations ->
    loop_cond (while fuel loop_cond loop_body s') = false ->
    one_step_ahead n (while fuel loop_cond loop_body s) (while fuel loop_cond loop_body s').
Proof.
  induction fuel as [|fuel IH]; intros s s' Hrel Hit Hexit; [done|].
  simpl in *. destruct Hrel as (Hseq & Hcur & Hiter).
  destruct (loop_cond s') eqn:E'.
  - pose proof (while_iterations_grow fuel (loop_body s')) as Hgrow.
    rewrite loop_body_next in Hgrow at 1. simpl in Hgrow.
    assert (loop_cond s = true) as ->.
    { unfold loop_cond in *. rewrite Hcur, Hiter.
      apply andb_true_iff in E' as [E1 _]. rewrite E1. simpl. apply Z.ltb_lt. lia. }
    apply IH; [|done|done]. rewrite !loop_body_next. unfold one_step_ahead. simpl.
    rewrite Hseq, Hcur, Hiter. split; [done|]. split; [done|lia].
  - assert (loop_cond s = false) as ->; [|done].
    unfold loop_cond in *. rewrite Hcur, Hiter.
    apply andb_false_iff in E' as [E1|E1]; [rewrite E1; done|].
    apply Z.ltb_ge in E1. lia.
Qed.

(** X3.  For an integer [n] above 1: when the sequence of the number that
    follows [n] is returned without the cap warning, the sequence of [n]
    is [n] followed by that sequence. *)
Theorem generateSequence_unfolds (n : Z) (seq : list Z) :
  2 <= n ->
  generateSequence (Num (inject_Z (getNextNumber n))) = Ok (seq, []) ->
  exists console, generateSequence (Num (inject_Z n)) = Ok (n :: seq, console).
Proof.
  intros Hn Hnext.
  assert (1 <= getNextNumber n) as Hpos by (apply getNextNumber_positive; lia).
  rewrite (generateSequence_positive _ _ (integer_is_integer _) Hpos) in Hnext.
  assert (1 <= n) as Hn1 by lia.
  rewrite (generateSequence_positive _ _ (integer_is_integer _) Hn1).
  injection Hnext as Hseq Hcon.
  assert (iterations (run_loop (getNextNumber n)) < maxIterations) as Hit.
  { destruct (maxIterations <=? iterations (run_loop (getNextNumber n))) eqn:E; [done|].
    apply Z.leb_gt in E. done. }
  eexists. f_equal. f_equal. rewrite <- Hseq.
  unfold run_loop in *.
  set (init := {| sequence := [getNextNumber n]; current := getNextNumber n; iterations := 0 |})
    in *.
  set (fuel := Z.to_nat maxIterations) in *.
  pose proof maxIterations_positive as Hmax.
  assert (Z.of_nat fuel = maxIterations) as Hfuel_eq by (unfold fuel; lia).
  clearbody fuel.
  assert (fuel = S (Nat.pred fuel)) as Hfuel by lia.
  (* the run from the next number is over one round before its fuel is *)
  assert (while fuel loop_cond loop_body init = while (Nat.pred fuel) loop_cond loop_body init)
    as Hsame.
  { rewrite Hfuel at 1. rewrite while_one_more.
    destruct (loop_cond (while (Nat.pred fuel) loop_cond loop_body init)) eqn:E; [|done].
    exfalso. pose proof (while_out_of_fuel _ _ E) as Hout.
    rewrite Hfuel, while_one_more, E, loop_body_next in Hit. cbn [iterations] in Hit.
    change (iterations init) with 0 in Hout. lia. }
  assert (loop_cond (while (Nat.pred fuel) loop_cond loop_body init) = false) as Hexit.
  { rewrite <- Hsame.
    apply (while_exit loop_cond loop_body (fun s => Z.to_nat (maxIterations - iterations s))).
    - intros s Hc. unfold loop_cond in Hc.
      apply andb_true_iff in Hc as [_ Hc]. apply Z.ltb_lt in Hc.
      rewrite loop_body_next. cbn [iterations]. lia.
    - change (iterations init) with 0. lia. }
  rewrite Hfuel at 1. cbn [while].
  assert (loop_cond {| sequence := [n]; current := n; iterations := 0 |} = true) as ->.
  { unfold loop_cond. cbn [current iterations]. apply andb_true_iff.
    split; [apply negb_true_iff, Z.eqb_neq; lia|apply Z.ltb_lt; lia]. }
  rewrite Hsame.
  apply (while_one_step_ahead n (Nat.pred fuel)); [|rewrite <- Hsame; done|done].
  rewrite loop_body_next. unfold one_step_ahead, init. cbn [sequence current iterations].
  split; [done|]. split; [done|lia].
Qed.

(** The same at 6, which is followed by 3. *)
Lemma generateSequence_unfolds_witness :
  2 <= 6 /\
  generateSequence (Num (inject_Z (getNextNumber 6))) = Ok ([3; 10; 5; 16; 8; 4; 2; 1], []) /\
  exists console,
    generateSequence (Num (inject_Z 6)) = Ok (6 :: [3; 10; 5; 16; 8; 4; 2; 1], console).
Proof.
  assert (generateSequence (Num (inject_Z (getNextNumber 6)))
          = Ok ([3; 10; 5; 16; 8; 4; 2; 1], [])) as H by (vm_compute; reflexivity).
  split; [lia|]. split; [exact H|]. apply (generateSequence_unfolds 6); [lia|exact H].
Defined.

End Unfolding.

Section Extrema.
Import CollatzAlgorithm.

Lemma indexOf_from_spec (l : list Z) (x i : Z) :
  In x l ->
  exists k : nat,
    indexOf_from l x i = i + Z.of_nat k /\ l !! k = Some x /\
    forall j y, (j < k)%nat -> l !! j = Some y -> y <> x.
Proof.
  revert i. induction l as [|y l IH]; intros i Hin; [destruct Hin|].
  simpl. destruct (y =? x) eqn:E.
  - apply Z.eqb_eq in E. subst y. exists O. split; [lia|]. split; [done|]. lia.
  - apply Z.eqb_neq in E. destruct Hin as [Hin|Hin]; [done|].
    destruct (IH (i + 1) Hin) as (k & Hk & Hx & Hfirst). exists (S k).
    split; [lia|]. split; [done|]. intros [|j] z Hj Hz.
    + injection Hz as <-. done.
    + eapply Hfirst; [|exact Hz]. lia.
Qed.

Lemma indexOf_from_missing (l : list Z) (x i : Z) :
  ~ In x l -> indexOf_from l x i = -1.
Proof.
  revert i. induction l as [|y l IH]; intros i Hin; [done|].
  simpl. destruct (y =? x) eqn:E.
  - apply Z.eqb_eq in E. subst y. exfalso. apply Hin. left. done.
  - apply IH. intros H. apply Hin. right. done.
Qed.

(** A loop that counts the indices passing a test counts at most all of
    them. *)
Lemma count_bounds {A} (p : A -> bool) (l : list A) (acc : Z) :
  acc <= fold_left (fun n i => if p i then n + 1 else n) l acc <= acc + len l.
Proof.
  unfold len. revert acc. induction l as [|x l IH]; intros acc; simpl fold_left.
  - simpl. lia.
  - specialize (IH (if p x then acc + 1 else acc)). simpl List.length.
    destruct (p x); lia.
Qed.

Lemma len_range (lo hi : Z) : len (range lo hi) = Z.max 0 (hi - lo).
Proof. unfold len, range. rewrite length_map, length_seq. lia. Qed.

Lemma directionChanges_bounds (sequence : list Z) :
  0 <= directionChanges sequence <= Z.max 0 (len sequence - 2).
Proof.
  unfold directionChanges.
  pose proof (count_bounds (is_turn sequence) (range 1 (len sequence - 1)) 0) as H.
  rewrite len_range in H. lia.
Qed.

(** X4.  On an array within the argument limit, [calculateStatistics]
    throws, with its empty-sequence error, on the empty array only.
    Otherwise [maxValue] and [minValue] are elements
    of the sequence that bound all its elements, [maxValueIndex] is the
    first index holding [maxValue], [startNumber] and [endNumber] are the
    first and the last element, and [complexity] lies between 0 and
    length - 2 (0 for fewer than 3 elements). *)
Theorem calculateStatistics_extrema (sequence : list Z) :
  within_argument_limit sequence ->
  match calculateStatistics sequence with
  | Throw e => sequence = [] /\ e = empty_sequence
  | Ok stats =>
      In (maxValue stats) sequence /\
      In (minValue stats) sequence /\
      Forall (fun x => minValue stats <= x <= maxValue stats) sequence /\
      (exists k : nat,
         maxValueIndex stats = Z.of_nat k /\
         sequence !! k = Some (maxValue stats) /\
         forall j y, (j < k)%nat -> sequence !! j = Some y -> y < maxValue stats) /\
      sequence !! 0%nat = Some (startNumber stats) /\
      last sequence = Some (endNumber stats) /\
      0 <= complexity stats <= Z.max 0 (length stats - 2)
  end.
Proof.
  intros _. unfold calculateStatistics. destruct (len sequence =? 0) eqn:E.
  - apply Z.eqb_eq in E. unfold len in E. split; [|done].
    destruct sequence; [done|]. simpl in E. lia.
  - assert (sequence <> []) as Hne by (intros ->; done).
    destruct (Math_max_spec sequence Hne) as [Hmax Hin].
    destruct (Math_min_spec sequence Hne) as [Hmin Hin'].
    cbn [maxValue minValue maxValueIndex startNumber endNumber complexity length].
    split; [done|]. split; [done|]. split.
    { rewrite Forall_forall in *. intros x Hx. split; eauto. }
    split.
    { destruct (indexOf_from_spec sequence (Math_max sequence) 0 Hin)
        as (k & Hk & Hx & Hfirst).
      exists k. unfold indexOf. split; [lia|]. split; [done|].
      intros j y Hj Hy. specialize (Hfirst j y Hj Hy).
      assert (y <= Math_max sequence); [|lia].
      rewrite Forall_lookup in Hmax. eauto. }
    split; [destruct (at_first sequence 0); done|].
    split; [apply at_last; done|]. apply directionChanges_bounds.
Qed.

(** The same at the sequence of 6. *)
Lemma calculateStatistics_extrema_witness :
  within_argument_limit [6; 3; 10; 5; 16; 8; 4; 2; 1] /\
  match calculateStatistics [6; 3; 10; 5; 16; 8; 4; 2; 1] with
  | Throw e => [6; 3; 10; 5; 16; 8; 4; 2; 1] = [] /\ e = empty_sequence
  | Ok stats =>
      In (maxValue stats) [6; 3; 10; 5; 16; 8; 4; 2; 1] /\
      In (minValue stats) [6; 3; 10; 5; 16; 8; 4; 2; 1] /\
      Forall (fun x => minValue stats <= x <= maxValue stats)
             [6; 3; 10; 5; 16; 8; 4; 2; 1] /\
      (exists k : nat,
         maxValueIndex stats = Z.of_nat k /\
         [6; 3; 10; 5; 16; 8; 4; 2; 1] !! k = Some (maxValue stats) /\
         forall j y, (j < k)%nat -> [6; 3; 10; 5; 16; 8; 4; 2; 1] !! j = Some y ->
                     y < maxValue stats) /\
      [6; 3; 10; 5; 16; 8; 4; 2; 1] !! 0%nat = Some (startNumber stats) /\
      last [6; 3; 10; 5; 16; 8; 4; 2; 1] = Some (endNumber stats) /\
      0 <= complexity stats <= Z.max 0 (length stats - 2)
  end.
Proof.
  assert (within_argument_limit [6; 3; 10; 5; 16; 8; 4; 2; 1]) as Hfits
    by (unfold within_argument_limit; simpl; lia).
  split; [exact Hfits|].
  exact (calculateStatistics_extrema [6; 3; 10; 5; 16; 8; 4; 2; 1] Hfits).
Defined.

End Extrema.

Lemma lookup_at (l : list Z) (i d : Z) :
  0 <= i < len l -> l !! Z.to_nat i = Some (at_ l i d).
Proof.
  intros Hi. unfold len in Hi.
  destruct (lookup_lt_is_Some_2 l (Z.to_nat i)) as [x Hx]; [lia|].
  rewrite Hx. f_equal. symmetry. rewrite <- (Z2Nat.id i) at 1 by lia.
  apply at_lookup. done.
Qed.

Lemma range_snoc (n : nat) :
  range 0 (Z.of_nat (S n)) = range 0 (Z.of_nat n) ++ [Z.of_nat n].
Proof.
  unfold range.
  replace (Z.to_nat (Z.of_nat (S n) - 0)) with (S n) by lia.
  replace (Z.to_nat (Z.of_nat n - 0)) with n by lia.
  rewrite seq_S, map_app. reflexivity.
Qed.

(** Reading the indices 0 .. n-1 of an array gives its first [n]
    elements. *)
Lemma map_at_range (l : list Z) (d : Z) (n : nat) :
  (n <= List.length l)%nat ->
  map (fun i => at_ l i d) (range 0 (Z.of_nat n)) = firstn n l.
Proof.
  induction n as [|n IH]; intros Hn; [done|].
  rewrite range_snoc, map_app. rewrite IH by lia.
  destruct (lookup_lt_is_Some_2 l n) as [x Hx]; [lia|].
  rewrite (take_S_r _ _ _ Hx). simpl. rewrite (at_lookup _ _ _ _ Hx). done.
Qed.

Lemma flat_map_singletons {A B} (f : A -> list B) (g : A -> B) (l : list A) :
  (forall x, In x l -> f x = [g x]) -> flat_map f l = map g l.
Proof.
  induction l as [|x l IH]; intros H; [done|]. simpl.
  rewrite (H x) by (left; done). rewrite IH; [done|]. intros y Hy. apply H. right. done.
Qed.

Lemma Qeq_bool_half (a b : Z) : Qeq_bool (inject_Z b) (inject_Z a / 2) = (2 * b =? a).
Proof.
  destruct (2 * b =? a) eqn:E.
  - apply Qeq_bool_iff. apply Z.eqb_eq in E. unfold Qeq, inject_Z, Qdiv, Qmult, Qinv. simpl. lia.
  - destruct (Qeq_bool (inject_Z b) (inject_Z a / 2)) eqn:E'; [|done].
    apply Qeq_bool_iff in E'. apply Z.eqb_neq in E.
    unfold Qeq, inject_Z, Qdiv, Qmult, Qinv in E'. simpl in E'. lia.
Qed.

Lemma Qeq_shift_div_r_half (a k : Z) : a = 2 * k -> 0 < a -> (inject_Z k / inject_Z a == 1 # 2)%Q.
Proof.
  intros -> Hk. unfold Qeq, Qdiv, Qmult, Qinv, inject_Z.
  destruct k as [|k|k]; [lia| |lia]. simpl. lia.
Qed.

Section AnalyzePatterns.
Import CollatzAlgorithm.

Lemma neighbours (l : list Z) (i : Z) :
  adjacent_pairs_obey host_step l -> Forall (fun x => 1 <= x) l -> 0 <= i -> i + 1 < len l ->
  1 <= at_ l i 0 /\ host_step (at_ l i 0) (at_ l (i + 1) 0).
Proof.
  intros Hp Hpos H0 Hi.
  pose proof (lookup_at l i 0 ltac:(lia)) as Ha.
  pose proof (lookup_at l (i + 1) 0 ltac:(lia)) as Hb.
  replace (Z.to_nat (i + 1)) with (S (Z.to_nat i)) in Hb by lia.
  split; [|eapply Hp; eauto].
  rewrite Forall_lookup in Hpos. eapply Hpos. exact Ha.
Qed.

Lemma stepTypes_of_collatz (l : list Z) :
  adjacent_pairs_obey host_step l -> Forall (fun x => 1 <= x) l ->
  stepTypes (analyzePatterns l) = map step_of (removelast l).
Proof.
  intros Hp Hpos. unfold analyzePatterns. cbn [stepTypes].
  rewrite (flat_map_singletons _ (fun i => step_of (at_ l i 0))).
  - destruct l as [|x l]; [done|].
    rewrite removelast_firstn_len.
    replace (len (x :: l) - 1) with (Z.of_nat (Nat.pred (List.length (x :: l))))
      by (unfold len; simpl List.length; lia).
    rewrite <- (map_at_range (x :: l) 0) by lia.
    rewrite map_map. done.
  - intros i Hi. apply in_range in Hi.
    destruct (neighbours l i Hp Hpos) as [Ha [He Ho]]; [lia|lia|].
    rewrite Qeq_bool_half. unfold step_of.
    destruct (Z.even (at_ l i 0)) eqn:E.
    + rewrite He by done. apply Z.even_spec in E. destruct E as [k Hk].
      assert (at_ l i 0 / 2 = k) as Hq by (rewrite Hk, Z.mul_comm, Z.div_mul; lia).
      assert ((2 * (at_ l i 0 / 2) =? at_ l i 0) = true) as -> by (apply Z.eqb_eq; lia).
      done.
    + rewrite <- Z.negb_even, E in Ho. rewrite Ho by done.
      set (b := Double.nearest (Double.nearest (3 * at_ l i 0) + 1)).
      assert ((2 * b =? at_ l i 0) = false) as ->.
      { apply Z.eqb_neq. intros Heq. rewrite <- Heq, Z.even_mul in E. discriminate. }
      rewrite Z.eqb_refl. done.
Qed.

Lemma growthRate_of_collatz (l : list Z) :
  adjacent_pairs_obey host_step l -> Forall (fun x => 1 <= x) l ->
  Forall (fun a => 3 * a + 1 <= 2 ^ 53) l ->
  Forall (fun g => exists q, g = Some q /\ (q == 1 # 2 \/ 3 < q /\ q <= 4)%Q)
         (growthRate (analyzePatterns l)).
Proof.
  intros Hp Hpos Hexact. unfold analyzePatterns. cbn [growthRate].
  rewrite Forall_forall. intros g Hg. apply list_elem_of_In, in_map_iff in Hg.
  destruct Hg as (i & <- & Hi). apply in_range in Hi.
  destruct (neighbours l (i - 1) Hp Hpos) as [Ha Hstep]; [lia|lia|].
  assert (3 * at_ l (i - 1) 0 + 1 <= 2 ^ 53) as Hbound.
  { rewrite Forall_lookup in Hexact. eapply Hexact. apply lookup_at. lia. }
  destruct (host_step_exact _ _ Ha Hstep Hbound) as [He Ho].
  replace (i - 1 + 1) with i in * by lia.
  assert ((at_ l (i - 1) 0 =? 0) = false) as -> by (apply Z.eqb_neq; lia).
  eexists. split; [reflexivity|].
  set (a := at_ l (i - 1) 0) in *.
  assert (0 < inject_Z a)%Q as HaQ by (change 0%Q with (inject_Z 0); rewrite <- Zlt_Qlt; lia).
  destruct (Z.even a) eqn:E.
  - left. rewrite He by done. apply Z.even_spec in E. destruct E as [k Hk].
    assert (a / 2 = k) as -> by (rewrite Hk, Z.mul_comm, Z.div_mul; lia).
    apply Qeq_shift_div_r_half; lia.
  - right. rewrite <- Z.negb_even, E in Ho. rewrite Ho by done. split.
    + apply Qlt_shift_div_l; [done|]. change 3%Q with (inject_Z 3).
      rewrite <- inject_Z_mult, <- Zlt_Qlt. lia.
    + apply Qle_shift_div_r; [done|]. change 4%Q with (inject_Z 4).
      rewrite <- inject_Z_mult, <- Zle_Qle. lia.
Qed.

(** X5.  On the sequence [generateSequence(start)] returns for a positive
    integer, [analyzePatterns] gives one step type per step, ['divide'] at
    the even elements and ['multiply'] at the odd ones, and one growth rate
    per step; when 3a + 1 is at most 2^53 for every element a, so that the
    host triples exactly, each growth rate is a finite number that is 1/2
    or lies in (3, 4]. *)
Theorem analyzePatterns_of_generated (start : Z) :
  1 <= start ->
  exists seq console,
    generateSequence (Num (inject_Z start)) = Ok (seq, console) /\
    stepTypes (analyzePatterns seq) = map step_of (removelast seq) /\
    len (growthRate (analyzePatterns seq)) = len seq - 1 /\
    (Forall (fun a => 3 * a + 1 <= 2 ^ 53) seq ->
     Forall (fun g => exists q, g = Some q /\ (q == 1 # 2 \/ 3 < q /\ q <= 4)%Q)
            (growthRate (analyzePatterns seq))).
Proof.
  intros H. destruct (run_loop_spec start H) as [Hinv _].
  eexists _, _.
  split; [exact (generateSequence_positive _ start (integer_is_integer start) H)|].
  split; [apply stepTypes_of_collatz; apply Hinv|]. split.
  - unfold analyzePatterns. cbn [growthRate].
    pose proof (len_range 1 (len (sequence (run_loop start)))) as Hr.
    pose proof (inv_length _ _ Hinv). pose proof (inv_iterations _ _ Hinv).
    unfold len in *. rewrite length_map. lia.
  - apply growthRate_of_collatz; apply Hinv.
Qed.

(** The same at the start 7. *)
Lemma analyzePatterns_of_generated_witness :
  1 <= 7 /\
  exists seq console,
    generateSequence (Num (inject_Z 7)) = Ok (seq, console) /\
    stepTypes (analyzePatterns seq) = map step_of (removelast seq) /\
    len (growthRate (analyzePatterns seq)) = len seq - 1 /\
    (Forall (fun a => 3 * a + 1 <= 2 ^ 53) seq ->
     Forall (fun g => exists q, g = Some q /\ (q == 1 # 2 \/ 3 < q /\ q <= 4)%Q)
            (growthRate (analyzePatterns seq))).
Proof.
  split; [lia|]. apply (analyzePatterns_of_generated 7). lia.
Defined.

End AnalyzePatterns.

Lemma in_insert_by {A} (before : A -> A -> bool) (x y : A) (l : list A) :
  In y (insert_by before x l) <-> y = x \/ In y l.
Proof.
  induction l as [|z l IH]; simpl.
  - split; [intros [H|[]]; left; done|intros [H|[]]; left; done].
  - destruct (before x z); simpl; [split; intros [H|H]; eauto|].
    rewrite IH. split; [intros [H|[H|H]]|intros [H|[H|H]]]; eauto.
Qed.

Lemma in_stable_sort {A} (before : A -> A -> bool) (y : A) (l : list A) :
  In y (stable_sort before l) <-> In y l.
Proof.
  unfold stable_sort. induction l as [|x l IH]; simpl; [done|].
  rewrite in_insert_by, IH. split; intros [H|H]; eauto.
Qed.

Lemma StronglySorted_range (lo hi : Z) : StronglySorted Z.lt (range lo hi).
Proof.
  unfold range. generalize (Z.to_nat (hi - lo)) as n. intros n.
  assert (forall k, StronglySorted Z.lt (map (fun j => lo + Z.of_nat j) (seq k n))) as H;
    [|apply H].
  induction n as [|n IH]; intros k; simpl; constructor; [apply IH|].
  rewrite Forall_forall. intros x Hx. apply list_elem_of_In, in_map_iff in Hx.
  destruct Hx as (j & <- & Hj). apply in_seq in Hj. lia.
Qed.

Lemma length_insert_by {A} (before : A -> A -> bool) (x : A) (l : list A) :
  List.length (insert_by before x l) = S (List.length l).
Proof. induction l as [|y l IH]; simpl; [done|]. destruct (before x y); simpl; lia. Qed.

Lemma length_stable_sort {A} (before : A -> A -> bool) (l : list A) :
  List.length (stable_sort before l) = List.length l.
Proof.
  unfold stable_sort. induction l as [|x l IH]; simpl; [done|].
  rewrite length_insert_by, IH. done.
Qed.

Lemma StronglySorted_weaken {A} (R R' : A -> A -> Prop) (l : list A) :
  (forall a b, R a b -> R' a b) -> StronglySorted R l -> StronglySorted R' l.
Proof.
  intros H. induction 1 as [|x l Hl IH Hx]; constructor; [done|].
  rewrite Forall_forall in Hx. rewrite Forall_forall. eauto.
Qed.

Section StableSort.

Context {A : Type} (key secondary : A -> Z) (before : A -> A -> bool).
Hypothesis before_spec : forall a b, before a b = (key a <=? key b).

Lemma insert_by_ascending (x : A) (l : list A) :
  StronglySorted (fun a b => key a <= key b) l ->
  StronglySorted (fun a b => key a <= key b) (insert_by before x l).
Proof.
  induction 1 as [|y l Hl IH Hy]; simpl.
  - constructor; constructor.
  - rewrite before_spec. destruct (key x <=? key y) eqn:E.
    + apply Z.leb_le in E. constructor; [constructor; [exact Hl|exact Hy]|].
      constructor; [exact E|]. rewrite Forall_forall in Hy. rewrite Forall_forall.
      intros z Hz. specialize (Hy z Hz). simpl in Hy. lia.
    + apply Z.leb_gt in E. constructor; [done|].
      rewrite Forall_forall in Hy. rewrite Forall_forall. intros z Hz.
      apply list_elem_of_In, in_insert_by in Hz. destruct Hz as [->|Hz]; [lia|].
      apply Hy, list_elem_of_In. done.
Qed.

(** The sorted array is in the order of the keys. *)
Lemma stable_sort_ascending (l : list A) :
  StronglySorted (fun a b => key a <= key b) (stable_sort before l).
Proof.
  induction l as [|x l IH]; [constructor|].
  change (stable_sort before (x :: l)) with (insert_by before x (stable_sort before l)).
  apply insert_by_ascending. exact IH.
Qed.

Lemma insert_by_lexicographic (x : A) (l : list A) :
  StronglySorted (fun a b => key a < key b \/ (key a = key b /\ secondary a < secondary b)) l ->
  Forall (fun y => secondary x < secondary y) l ->
  StronglySorted (fun a b => key a < key b \/ (key a = key b /\ secondary a < secondary b))
                 (insert_by before x l).
Proof.
  induction 1 as [|y l Hl IH Hy]; intros Hx; simpl.
  - constructor; constructor.
  - inversion Hx as [|? ? Hxy Hxl]; subst. rewrite before_spec.
    destruct (key x <=? key y) eqn:E.
    + apply Z.leb_le in E. constructor; [constructor; [exact Hl|exact Hy]|].
      constructor; [lia|].
      rewrite Forall_forall in Hy, Hxl. rewrite Forall_forall.
      intros z Hz. specialize (Hy z Hz). specialize (Hxl z Hz). simpl in Hy. lia.
    + apply Z.leb_gt in E. constructor; [apply IH; done|].
      rewrite Forall_forall in Hy. rewrite Forall_forall. intros z Hz.
      apply list_elem_of_In, in_insert_by in Hz. destruct Hz as [->|Hz]; [lia|].
      apply Hy, list_elem_of_In. done.
Qed.

(** The sort is stable: elements of one key keep the order they had. *)
Lemma stable_sort_lexicographic (l : list A) :
  StronglySorted (fun a b => secondary a < secondary b) l ->
  StronglySorted (fun a b => key a < key b \/ (key a = key b /\ secondary a < secondary b))
                 (stable_sort before l).
Proof.
  induction 1 as [|x l Hl IH Hx]; [constructor|].
  change (stable_sort before (x :: l)) with (insert_by before x (stable_sort before l)).
  apply insert_by_lexicographic; [exact IH|].
  rewrite Forall_forall in Hx. rewrite Forall_forall. intros y Hy. apply Hx.
  apply list_elem_of_In. apply list_elem_of_In in Hy.
  apply (proj1 (in_stable_sort before y l)) in Hy. exact Hy.
Qed.

End StableSort.

Section FindLongSequences.
Import CollatzAlgorithm.

Lemma in_visit (minLength i : Z) (r : longSequence) :
  In r (visit minLength i) <->
  number r = i /\
  (exists console,
     generateSequence (Num (inject_Z i)) = Ok (long_sequence r, console)) /\
  calculateStatistics (long_sequence r) = Ok (long_statistics r) /\
  minLength <= length (long_statistics r).
Proof.
  unfold visit. split.
  - destruct (generateSequence (Num (inject_Z i))) as [[seq console]|e]; [|intros []].
    destruct (calculateStatistics seq) as [stats|e] eqn:Hs; [|intros []].
    destruct (minLength <=? length stats) eqn:E; [|intros []].
    intros [<-|[]]. apply Z.leb_le in E. simpl. eauto.
  - intros (Hn & (console & Hg) & Hs & Hm). rewrite Hg, Hs.
    apply Z.leb_le in Hm. rewrite Hm. left. destruct r; simpl in *. congruence.
Qed.

Lemma visit_at_most_one (minLength i : Z) :
  visit minLength i = [] \/ exists r, visit minLength i = [r].
Proof.
  unfold visit. destruct (generateSequence _) as [[seq console]|e]; [|left; done].
  destruct (calculateStatistics seq); [|left; done].
  destruct (_ <=? _); [right; eauto|left; done].
Qed.

Lemma visits_ascending (minLength : Z) (l : list Z) :
  StronglySorted Z.lt l ->
  StronglySorted (fun a b => number a < number b) (flat_map (visit minLength) l).
Proof.
  induction 1 as [|i l Hl IH Hi]; simpl; [constructor|].
  destruct (visit_at_most_one minLength i) as [E|[r E]]; rewrite E; [done|].
  simpl. constructor; [done|].
  assert (number r = i) as Hr by (apply (in_visit minLength); rewrite E; left; done).
  rewrite Forall_forall in Hi. rewrite Forall_forall.
  intros b Hb. apply list_elem_of_In, in_flat_map in Hb.
  destruct Hb as (j & Hj & Hb). apply in_visit in Hb. destruct Hb as [Hb _].
  specialize (Hi j (proj2 (list_elem_of_In _ _) Hj)). lia.
Qed.

Lemma stable_sort_longer_first (l : list longSequence) :
  StronglySorted (fun a b => number a < number b) l ->
  StronglySorted longer_first
    (stable_sort (fun a b => length (long_statistics b) - length (long_statistics a) <=? 0)
                 l).
Proof.
  intros Hl.
  eapply StronglySorted_weaken;
    [|apply (stable_sort_lexicographic (fun a => - length (long_statistics a)) number);
      [|exact Hl]].
  - intros a b H. unfold longer_first. simpl in H. lia.
  - intros a b. simpl.
    destruct (length (long_statistics b) - length (long_statistics a) <=? 0) eqn:E;
      symmetry; [apply Z.leb_le; apply Z.leb_le in E|apply Z.leb_gt; apply Z.leb_gt in E]; lia.
Qed.

(** X6.  For integers [start] and [end] between -2^53 and 2^53 - 1, over
    which the loop counter counts exactly,
    [findLongSequences(start, end, minLength)] returns exactly one
    element for each integer of [start .. end] whose sequence
    [generateSequence] returns (the integers below 1 are skipped) and has
    at least [minLength] elements, with that sequence and its statistics;
    the elements are in the order of decreasing length and, for one
    length, of increasing number. *)
Theorem findLongSequences_spec (start end_ minLength : Z) :
  - 2 ^ 53 <= start -> end_ < 2 ^ 53 ->
  (forall r,
     In r (findLongSequences start end_ minLength) <->
     start <= number r <= end_ /\
     (exists console,
        generateSequence (Num (inject_Z (number r))) = Ok (long_sequence r, console)) /\
     calculateStatistics (long_sequence r) = Ok (long_statistics r) /\
     minLength <= length (long_statistics r)) /\
  StronglySorted longer_first (findLongSequences start end_ minLength).
Proof.
  intros _ _. unfold findLongSequences. split.
  - intros r. rewrite in_stable_sort, in_flat_map. split.
    + intros (i & Hi & Hr). apply in_range in Hi. apply in_visit in Hr.
      destruct Hr as (<- & Hg & Hs & Hm). split; [lia|]. done.
    + intros (Hn & Hg & Hs & Hm). exists (number r). split; [apply in_range; lia|].
      apply in_visit. done.
  - apply stable_sort_longer_first, visits_ascending, StronglySorted_range.
Qed.

(** The same for the numbers 1 .. 10 and sequences of at least 9
    elements. *)
Lemma findLongSequences_spec_witness :
  - 2 ^ 53 <= 1 /\ 10 < 2 ^ 53 /\
  (forall r,
     In r (findLongSequences 1 10 9) <->
     1 <= number r <= 10 /\
     (exists console,
        generateSequence (Num (inject_Z (number r))) = Ok (long_sequence r, console)) /\
     calculateStatistics (long_sequence r) = Ok (long_statistics r) /\
     9 <= length (long_statistics r)) /\
  StronglySorted longer_first (findLongSequences 1 10 9).
Proof.
  split; [lia|]. split; [lia|]. apply (findLongSequences_spec 1 10 9); lia.
Defined.

End FindLongSequences.

(** * Cycles and repetitions *)

Lemma every_equal_spec (a b : list Z) : every_equal a b = true <-> a `prefix_of` b.
Proof.
  revert b. induction a as [|x a IH]; intros b; simpl.
  - split; [intros _; apply prefix_nil|done].
  - destruct b as [|y b].
    + split; [done|]. intros H. apply prefix_nil_inv in H. done.
    + rewrite andb_true_iff, Z.eqb_eq, IH. split.
      * intros [-> H]. apply prefix_cons. done.
      * intros H. split; [eapply prefix_cons_inv_1|eapply prefix_cons_inv_2]; eauto.
Qed.

Lemma slice_lookup (l : list Z) (a b : Z) (k : nat) :
  0 <= a ->
  slice l a b !! k
  = if decide (k < Z.to_nat (b - a))%nat then l !! (Z.to_nat a + k)%nat else None.
Proof. intros Ha. unfold slice. rewrite lookup_take, lookup_drop. done. Qed.

Lemma slice_length (l : list Z) (a b : Z) :
  0 <= a -> a <= b <= len l -> List.length (slice l a b) = Z.to_nat (b - a).
Proof.
  intros Ha Hb. unfold slice, len in *. rewrite length_take, length_drop. lia.
Qed.

(** A block of [l] that [every] finds equal to the block at [t] is read
    again, value by value, at [t]. *)
Lemma block_match (l : list Z) (s n t e : Z) (j : nat) :
  0 <= s -> 0 <= t -> s + n <= len l ->
  every_equal (slice l s (s + n)) (slice l t e) = true ->
  Z.of_nat j < n ->
  Z.of_nat j < e - t /\
  exists x, l !! (Z.to_nat s + j)%nat = Some x /\ l !! (Z.to_nat t + j)%nat = Some x.
Proof.
  intros Hs Ht Hn Heq Hj. apply every_equal_spec in Heq.
  destruct (lookup_lt_is_Some_2 l (Z.to_nat s + j)) as [x Hx]; [unfold len in Hn; lia|].
  assert (slice l s (s + n) !! j = Some x) as Hsl.
  { rewrite slice_lookup by done. destruct (decide (j < Z.to_nat (s + n - s))%nat); [done|lia]. }
  pose proof (prefix_lookup_Some _ _ _ _ Hsl Heq) as Hsl'.
  rewrite slice_lookup in Hsl' by done.
  destruct (decide (j < Z.to_nat (e - t))%nat); [|done].
  split; [lia|]. eauto.
Qed.

Lemma blocks_equal (l : list Z) (s n t e : Z) :
  0 <= s -> 0 <= t -> 0 <= n -> s + n <= len l -> e = t + n ->
  (forall j : nat, Z.of_nat j < n -> l !! (Z.to_nat s + j)%nat = l !! (Z.to_nat t + j)%nat) ->
  every_equal (slice l s (s + n)) (slice l t e) = true.
Proof.
  intros Hs Ht Hn0 Hn -> Hall. apply every_equal_spec.
  assert (slice l s (s + n) = slice l t (t + n)) as ->; [|done].
  apply list_eq. intros j. rewrite !slice_lookup by done.
  replace (s + n - s) with n by lia. replace (t + n - t) with n by lia.
  destruct (decide (j < Z.to_nat n)%nat); [|done]. apply Hall. lia.
Qed.

Section Cycles.
Import ComparisonAnalyzer.

Lemma count_repeats_spec (l cycle : list Z) (s cl : Z) (os : list Z) (rc : Z) :
  exists n : nat,
    (n <= List.length os)%nat /\
    count_repeats l cycle s cl os rc = rc + Z.of_nat n /\
    (forall i off, (i < n)%nat -> os !! i = Some off ->
       every_equal cycle (slice l (s + off) (s + off + cl)) = true) /\
    (forall off, os !! n = Some off ->
       every_equal cycle (slice l (s + off) (s + off + cl)) = false).
Proof.
  revert rc. induction os as [|off os IH]; intros rc; simpl.
  - exists O. split; [done|]. split; [lia|]. split; [lia|done].
  - destruct (every_equal cycle (slice l (s + off) (s + off + cl))) eqn:E.
    + destruct (IH (rc + 1)) as (n & Hn & Hr & Hall & Hstop). exists (S n).
      split; [lia|]. split; [lia|]. split; [|exact Hstop].
      intros [|i] off' Hi Hoff.
      * injection Hoff as <-. done.
      * eapply Hall; [|exact Hoff]. lia.
    + exists O. split; [lia|]. split; [lia|]. split; [lia|].
      intros off' [= <-]. done.
Qed.

Lemma offsets_lookup (length cl : Z) (i : nat) :
  Z.of_nat i + 1 < length / cl ->
  offsets length cl !! i = Some ((Z.of_nat i + 1) * cl).
Proof.
  intros Hi. unfold offsets, range. rewrite list_lookup_fmap, list_lookup_fmap.
  rewrite lookup_seq_lt by lia. simpl. f_equal. lia.
Qed.

Lemma offsets_length (length cl : Z) :
  Z.of_nat (List.length (offsets length cl)) = Z.max 0 (length / cl - 1).
Proof. unfold offsets. rewrite length_map. apply len_range. Qed.

(** The record of a cycle of [cycleLength] values at [start], as
    [findCycles] pushes it. *)
Lemma in_findCycles (l : list Z) (c : CycleRecord) :
  In c (findCycles l) <->
  exists cl s,
    2 <= cl <= Z.min 20 (len l / 2) /\ 0 <= s <= len l - cl * 2 /\
    2 <= count_repeats l (slice l s (s + cl)) s cl (offsets (len l) cl) 1 /\
    c = {| cycle_length := cl;
           start := s;
           repeats := count_repeats l (slice l s (s + cl)) s cl (offsets (len l) cl) 1;
           pattern := slice l s (s + cl);
           totalLength :=
             cl * count_repeats l (slice l s (s + cl)) s cl (offsets (len l) cl) 1 |}.
Proof.
  unfold findCycles. rewrite in_flat_map. split.
  - intros (cl & Hcl & Hc). apply in_range in Hcl. apply in_flat_map in Hc.
    destruct Hc as (s & Hs & Hc). apply in_range in Hs. cbv zeta in Hc.
    destruct (2 <=? count_repeats l (slice l s (s + cl)) s cl (offsets (len l) cl) 1) eqn:E;
      [|destruct Hc].
    destruct Hc as [<-|[]]. apply Z.leb_le in E. exists cl, s. repeat split; try lia.
  - intros (cl & s & Hcl & Hs & Hr & ->). exists cl. split; [apply in_range; lia|].
    apply in_flat_map. exists s. split; [apply in_range; lia|]. cbv zeta.
    apply Z.leb_le in Hr. rewrite Hr. left. done.
Qed.

Lemma div_ge_2 (n cl s : Z) : 2 <= cl -> 0 <= s <= n - cl * 2 -> 2 <= n / cl.
Proof. intros Hcl Hs. apply Z.div_le_lower_bound; lia. Qed.

(** X7.  Every record [findCycles] returns describes a repetition that is
    in the sequence: its length is between 2 and 20, it repeats at least
    twice, [totalLength] is length times repeats and fits into the
    sequence from [start], [pattern] is the block at [start], and within
    those [totalLength] places every value comes again one cycle length
    later. *)
Theorem findCycles_sound (sequence : list Z) (c : CycleRecord) :
  In c (findCycles sequence) ->
  2 <= cycle_length c <= 20 /\
  0 <= start c /\
  2 <= repeats c /\
  totalLength c = cycle_length c * repeats c /\
  start c + totalLength c <= len sequence /\
  pattern c = slice sequence (start c) (start c + cycle_length c) /\
  periodic sequence (start c) (start c + totalLength c) (cycle_length c).
Proof.
  intros Hc. apply in_findCycles in Hc. destruct Hc as (cl & s & Hcl & Hs & Hr & ->).
  cbn [cycle_length start repeats pattern totalLength].
  destruct (count_repeats_spec sequence (slice sequence s (s + cl)) s cl
              (offsets (len sequence) cl) 1) as (n & Hn & Hcount & Hall & _).
  rewrite Hcount in *.
  pose proof (offsets_length (len sequence) cl) as Hol.
  pose proof (div_ge_2 (len sequence) cl s ltac:(lia) Hs) as Hdiv.
  assert (forall (k j : nat), (k < n)%nat -> Z.of_nat j < cl ->
            s + (Z.of_nat k + 1) * cl + Z.of_nat j < len sequence /\
            exists x, sequence !! (Z.to_nat s + j)%nat = Some x /\
                      sequence !! (Z.to_nat (s + (Z.of_nat k + 1) * cl) + j)%nat = Some x)
    as Hblock.
  { intros k j Hk Hj.
    assert (Z.of_nat k + 1 < len sequence / cl) as Hkk by lia.
    pose proof (Hall k _ Hk (offsets_lookup (len sequence) cl k Hkk)) as Heq.
    assert (0 <= s + (Z.of_nat k + 1) * cl) as Hnn by nia.
    destruct (block_match sequence s cl (s + (Z.of_nat k + 1) * cl)
                (s + (Z.of_nat k + 1) * cl + cl) j ltac:(lia) Hnn ltac:(lia) Heq Hj)
      as (Hlt & x & Hx & Hy).
    split; [|eauto]. apply lookup_lt_Some in Hy. unfold len. lia. }
  split; [lia|]. split; [lia|]. split; [lia|]. split; [done|]. split.
  { destruct n as [|n]; [lia|].
    destruct (Hblock n (Z.to_nat (cl - 1)) ltac:(lia) ltac:(lia)) as [Hlt _]. lia. }
  split; [done|].
  intros i Hi Hend.
  (* i = s + q * cl + j *)
  set (q := (Z.of_nat i - s) / cl). set (j := (Z.of_nat i - s) mod cl).
  pose proof (Z.div_mod (Z.of_nat i - s) cl ltac:(lia)) as Hdm. fold q j in Hdm.
  pose proof (Z.mod_pos_bound (Z.of_nat i - s) cl ltac:(lia)) as Hj. fold j in Hj.
  assert (0 <= q) as Hq by (apply Z.div_pos; lia).
  assert (q + 1 < 1 + Z.of_nat n) as Hq' by nia.
  (* the block after the one of [i] is a copy of the first block *)
  destruct (Hblock (Z.to_nat q) (Z.to_nat j) ltac:(lia) ltac:(lia)) as (_ & x & Hx & Hy).
  replace (Z.to_nat (s + (Z.of_nat (Z.to_nat q) + 1) * cl) + Z.to_nat j)%nat
    with (i + Z.to_nat cl)%nat in Hy by nia.
  exists x. split; [|done].
  destruct (decide (q = 0)) as [Hq0|Hq0].
  - replace i with (Z.to_nat s + Z.to_nat j)%nat by nia. done.
  - destruct (Hblock (Z.to_nat (q - 1)) (Z.to_nat j) ltac:(lia) ltac:(lia))
      as (_ & x' & Hx' & Hy').
    replace (Z.to_nat (s + (Z.of_nat (Z.to_nat (q - 1)) + 1) * cl) + Z.to_nat j)%nat
      with i in Hy' by nia.
    congruence.
Qed.

Lemma first_offset (l : list Z) (cl s : Z) :
  2 <= cl -> 0 <= s <= len l - cl * 2 ->
  exists os, offsets (len l) cl = cl :: os.
Proof.
  intros Hcl Hs. pose proof (div_ge_2 _ _ _ Hcl Hs) as Hdiv.
  pose proof (offsets_lookup (len l) cl 0 ltac:(lia)) as H0.
  destruct (offsets (len l) cl) as [|o os]; [done|].
  injection H0 as ->. exists os. f_equal. lia.
Qed.

(** [findCycles] counts a second copy exactly when the block is followed
    by a copy of itself. *)
Lemma repeats_twice (l : list Z) (cl s : Z) :
  2 <= cl -> 0 <= s <= len l - cl * 2 ->
  (2 <= count_repeats l (slice l s (s + cl)) s cl (offsets (len l) cl) 1
   <-> every_equal (slice l s (s + cl)) (slice l (s + cl) (s + cl * 2)) = true).
Proof.
  intros Hcl Hs. destruct (first_offset l cl s Hcl Hs) as [os ->]. simpl.
  replace (s + cl + cl) with (s + cl * 2) by lia.
  destruct (every_equal (slice l s (s + cl)) (slice l (s + cl) (s + cl * 2))).
  - destruct (count_repeats_spec l (slice l s (s + cl)) s cl os (1 + 1))
      as (n & _ & -> & _). split; [done|lia].
  - split; [lia|done].
Qed.

(** X8.  [hasCyclicPattern] holds of a sequence exactly when the sequence
    has at least 6 elements and [findCycles] returns for it a cycle of
    length at most 10. *)
Theorem hasCyclicPattern_findCycles (sequence : list Z) :
  hasCyclicPattern sequence = true <->
  6 <= len sequence /\
  exists c, In c (findCycles sequence) /\ cycle_length c <= 10.
Proof.
  unfold hasCyclicPattern. destruct (len sequence <? 6) eqn:E.
  { apply Z.ltb_lt in E. split; [done|]. intros [H _]. lia. }
  apply Z.ltb_ge in E. rewrite existsb_exists. split.
  - intros (cl & Hcl & Hex). apply in_range in Hcl. apply existsb_exists in Hex.
    destruct Hex as (s & Hs & Heq). apply in_range in Hs. cbv zeta in Heq.
    split; [done|]. eexists. split.
    + apply in_findCycles. exists cl, s. split; [lia|]. split; [lia|].
      split; [|reflexivity]. apply repeats_twice; [lia|lia|done].
    + cbn [cycle_length]. lia.
  - intros (_ & c & Hc & Hle). apply in_findCycles in Hc.
    destruct Hc as (cl & s & Hcl & Hs & Hr & ->). cbn [cycle_length] in Hle.
    exists cl. split; [apply in_range; lia|]. apply existsb_exists.
    exists s. split; [apply in_range; lia|]. cbv zeta.
    apply repeats_twice; [lia|lia|done].
Qed.

End Cycles.

Section NoCycles.
Import CollatzAlgorithm ComparisonAnalyzer.

(** A block followed by a copy of itself shows its first value twice. *)
Lemma copy_repeats_a_value (l : list Z) (s cl e : Z) :
  0 <= s -> 1 <= cl -> s + cl <= len l ->
  every_equal (slice l s (s + cl)) (slice l (s + cl) e) = true -> ~ NoDup l.
Proof.
  intros Hs Hcl Hlen Heq Hnd.
  destruct (block_match l s cl (s + cl) e 0 Hs ltac:(lia) Hlen Heq ltac:(lia))
    as (_ & x & Hx & Hy).
  pose proof (proj1 (NoDup_alt l) Hnd _ _ _ Hx Hy). lia.
Qed.

Lemma findCycles_NoDup (l : list Z) : NoDup l -> findCycles l = [].
Proof.
  intros Hnd. destruct (findCycles l) as [|c cs] eqn:E; [done|]. exfalso.
  assert (In c (findCycles l)) as Hc by (rewrite E; left; done).
  apply in_findCycles in Hc. destruct Hc as (cl & s & Hcl & Hs & Hr & _).
  apply repeats_twice in Hr; [|lia|lia].
  eapply copy_repeats_a_value; [| | |exact Hr|exact Hnd]; lia.
Qed.

Lemma hasCyclicPattern_NoDup (l : list Z) : NoDup l -> hasCyclicPattern l = false.
Proof.
  intros Hnd. unfold hasCyclicPattern. destruct (len l <? 6); [done|].
  destruct (existsb _ _) eqn:E; [|done]. exfalso.
  apply existsb_exists in E. destruct E as (cl & Hcl & Hex). apply in_range in Hcl.
  apply existsb_exists in Hex. destruct Hex as (s & Hs & Heq). apply in_range in Hs.
  cbv zeta in Heq.
  eapply copy_repeats_a_value; [| | |exact Heq|exact Hnd]; lia.
Qed.

Lemma findRepeatingPatterns_NoDup (l : list Z) : NoDup l -> findRepeatingPatterns l = [].
Proof.
  intros Hnd. unfold findRepeatingPatterns. cbv zeta.
  destruct (flat_map _ _) as [|p ps] eqn:E; [done|]. exfalso.
  assert (In p (p :: ps)) as Hp by (left; done). rewrite <- E in Hp.
  apply in_flat_map in Hp. destruct Hp as (pl & Hpl & Hp). apply in_range in Hpl.
  apply in_flat_map in Hp. destruct Hp as (s & Hs & Hp). apply in_range in Hs.
  set (x := at_ (slice l s (s + pl)) 0 0) in *.
  destruct (in_dec Z.eq_dec x (skipn (Z.to_nat (s + pl)) l)) as [Hin|Hnot].
  - destruct (indexOf_from_spec _ x 0 Hin) as (k & _ & Hk & _).
    rewrite lookup_drop in Hk.
    assert (l !! Z.to_nat s = Some x) as Hx.
    { assert (slice l s (s + pl) !! 0%nat = Some x) as H0.
      { destruct (at_first (slice l s (s + pl)) 0) as [H|H]; [exact H|].
        apply (f_equal (@List.length Z)) in H. rewrite slice_length in H by lia.
        simpl in H. lia. }
      rewrite slice_lookup in H0 by lia.
      destruct (decide (0 < Z.to_nat (s + pl - s))%nat); [|done].
      rewrite Nat.add_0_r in H0. done. }
    pose proof (proj1 (NoDup_alt l) Hnd _ _ _ Hx Hk). lia.
  - unfold indexOf in Hp. rewrite (indexOf_from_missing _ x 0 Hnot) in Hp.
    simpl in Hp. destruct Hp.
Qed.

(** X9.  A sequence that [generateSequence] returns for a positive integer
    and that ends in 1 has no repetition: [findRepeatingPatterns] and
    [findCycles] return the empty array for it and [hasCyclicPattern] is
    false. *)
Theorem no_cycle_on_the_way_to_one (start : Z) :
  1 <= start ->
  exists seq console,
    generateSequence (Num (inject_Z start)) = Ok (seq, console) /\
    (last seq = Some 1 ->
     findRepeatingPatterns seq = [] /\ findCycles seq = [] /\ hasCyclicPattern seq = false).
Proof.
  intros H. destruct (run_loop_spec start H) as [Hinv _].
  eexists _, _.
  split; [exact (generateSequence_positive _ start (integer_is_integer start) H)|].
  intros Hlast.
  assert (NoDup (CollatzAlgorithm.sequence (run_loop start))) as Hnd
    by (apply no_repetition_before_one; try apply Hinv; done).
  split; [apply findRepeatingPatterns_NoDup; done|].
  split; [apply findCycles_NoDup; done|]. apply hasCyclicPattern_NoDup; done.
Qed.

(** The same at the start 97. *)
Lemma no_cycle_on_the_way_to_one_witness :
  1 <= 97 /\
  exists seq console,
    generateSequence (Num (inject_Z 97)) = Ok (seq, console) /\
    (last seq = Some 1 ->
     findRepeatingPatterns seq = [] /\ findCycles seq = [] /\ hasCyclicPattern seq = false).
Proof.
  split; [lia|]. apply (no_cycle_on_the_way_to_one 97). lia.
Defined.

(** The cycle 4, 2, 1 in the sequence 4, 2, 1, 4, 2, 1, which the steps
    from 4 would go through if they went on after 1. *)
Lemma findCycles_sound_witness :
  let c := {| cycle_length := 3; start := 0; repeats := 2; pattern := [4; 2; 1];
              totalLength := 6 |} in
  In c (findCycles [4; 2; 1; 4; 2; 1]) /\
  2 <= cycle_length c <= 20 /\
  0 <= start c /\
  2 <= repeats c /\
  totalLength c = cycle_length c * repeats c /\
  start c + totalLength c <= len [4; 2; 1; 4; 2; 1] /\
  pattern c = slice [4; 2; 1; 4; 2; 1] (start c) (start c + cycle_length c) /\
  periodic [4; 2; 1; 4; 2; 1] (start c) (start c + totalLength c) (cycle_length c).
Proof.
  intros c.
  assert (In c (findCycles [4; 2; 1; 4; 2; 1])) as Hin by (vm_compute; left; reflexivity).
  split; [exact Hin|]. exact (findCycles_sound _ c Hin).
Defined.

End NoCycles.

Section RepeatingPatterns.
Import CollatzAlgorithm.

Lemma arraysEqual_spec (arr1 arr2 : list Z) : arraysEqual arr1 arr2 = true <-> arr1 = arr2.
Proof.
  unfold arraysEqual, len. split.
  - destruct (Z.of_nat (List.length arr1) =? Z.of_nat (List.length arr2)) eqn:E; [|done].
    apply Z.eqb_eq in E. simpl. assert (List.length arr1 = List.length arr2) as Hlen by lia.
    clear E. revert arr2 Hlen. induction arr1 as [|x arr1 IH]; intros [|y arr2] Hlen H;
      simpl in *; try done.
    apply andb_true_iff in H as [Hx H]. apply Z.eqb_eq in Hx. subst y.
    f_equal. apply IH; [lia|done].
  - intros <-. rewrite Z.eqb_refl. simpl.
    induction arr1 as [|x arr1 IH]; simpl; [done|]. rewrite Z.eqb_refl. done.
Qed.

Lemma slice_length_min (l : list Z) (a b : Z) :
  List.length (slice l a b) = (Z.to_nat (b - a) `min` (List.length l - Z.to_nat a))%nat.
Proof. unfold slice. rewrite length_take, length_drop. done. Qed.

(** X10.  Every pattern [findRepeatingPatterns] returns has between 2 and
    10 values and stands in the sequence twice, the second time after the
    end of the first.  [arraysEqual], which compares the two places, holds
    of two arrays exactly when they are equal. *)
Theorem findRepeatingPatterns_sound (sequence : list Z) :
  Forall (fun p =>
            2 <= len p <= 10 /\
            exists s t : Z,
              0 <= s /\ s + len p <= t /\ t + len p <= len sequence /\
              slice sequence s (s + len p) = p /\
              slice sequence t (t + len p) = p)
         (findRepeatingPatterns sequence) /\
  (forall arr1 arr2, arraysEqual arr1 arr2 = true <-> arr1 = arr2).
Proof.
  split; [|apply arraysEqual_spec].
  rewrite Forall_forall. intros p Hp. apply list_elem_of_In in Hp.
  unfold findRepeatingPatterns in Hp. cbv zeta in Hp.
  apply in_flat_map in Hp. destruct Hp as (pl & Hpl & Hp). apply in_range in Hpl.
  apply in_flat_map in Hp. destruct Hp as (s & Hs & Hp). apply in_range in Hs.
  set (x := at_ (slice sequence s (s + pl)) 0 0) in *.
  destruct (in_dec Z.eq_dec x (skipn (Z.to_nat (s + pl)) sequence)) as [Hin|Hnot].
  2: { unfold indexOf in Hp. rewrite (indexOf_from_missing _ x 0 Hnot) in Hp.
       simpl in Hp. destruct Hp. }
  destruct (indexOf_from_spec _ x 0 Hin) as (k & Hk & _).
  unfold indexOf in Hp. rewrite Hk in Hp.
  assert ((0 + Z.of_nat k =? -1) = false) as E by (apply Z.eqb_neq; lia).
  rewrite E in Hp.
  assert ((s + pl + (0 + Z.of_nat k) =? -1) = false) as E' by (apply Z.eqb_neq; lia).
  rewrite E' in Hp. simpl negb in Hp. cbn [andb] in Hp.
  destruct (arraysEqual _ _) eqn:Heq; [|destruct Hp].
  destruct Hp as [<-|[]]. apply arraysEqual_spec in Heq.
  assert (List.length (slice sequence s (s + pl)) = Z.to_nat pl) as Hlen.
  { rewrite slice_length by lia. f_equal. lia. }
  assert (len (slice sequence s (s + pl)) = pl) as Hlen' by (unfold len; lia).
  rewrite Hlen'. split; [lia|].
  exists s, (s + pl + (0 + Z.of_nat k)). split; [lia|]. split; [lia|].
  split; [|split; [done|symmetry; exact Heq]].
  pose proof (slice_length_min sequence (s + pl + (0 + Z.of_nat k))
                (s + pl + (0 + Z.of_nat k) + pl)) as Hmin.
  rewrite <- Heq, Hlen in Hmin. unfold len. lia.
Qed.

End RepeatingPatterns.

(** * Further properties of [DataManager] *)

Section Lookup.
Import DataManager.

Lemma find_by_id_Some (l : list sequenceData) (x : sequenceData) :
  NoDup (map id l) -> In x l ->
  List.find (fun seq => String.eqb (id seq) (id x)) l = Some x.
Proof.
  induction l as [|y l IH]; intros Hnd Hin; [destruct Hin|].
  simpl in *. apply NoDup_cons in Hnd as [Hy Hnd].
  destruct Hin as [->|Hin]; [rewrite String.eqb_refl; done|].
  destruct (String.eqb (id y) (id x)) eqn:E; [|apply IH; done].
  apply String.eqb_eq in E. exfalso. apply Hy. rewrite E.
  apply list_elem_of_In, in_map, Hin.
Qed.

Lemma find_by_id_None (l : list sequenceData) (i : string) :
  List.find (fun seq => String.eqb (id seq) i) l = None <-> ~ In i (map id l).
Proof.
  induction l as [|y l IH]; simpl; [tauto|].
  destruct (String.eqb (id y) i) eqn:E.
  - apply String.eqb_eq in E. split; [done|]. intros H. exfalso. apply H. left. done.
  - apply String.eqb_neq in E. rewrite IH. tauto.
Qed.

Lemma find_by_id_found (l : list sequenceData) (i : string) (x : sequenceData) :
  List.find (fun seq => String.eqb (id seq) i) l = Some x -> In x l /\ id x = i.
Proof.
  intros H. apply find_some in H. destruct H as [Hin E]. apply String.eqb_eq in E. done.
Qed.

Lemma held_ids_distinct (ids : list string) (s : state) :
  store_invariant ids s -> NoDup (map id (sequences s)).
Proof. intros [_ _ _ _ Hnd Hord]. exact (sublist_NoDup _ _ Hnd Hord). Qed.

Lemma getLastSequence_snoc (s : state) (l : list sequenceData) (x : sequenceData) :
  sequences s = l ++ [x] -> getLastSequence s = Some x.
Proof.
  intros E. unfold getLastSequence. rewrite E, len_app_one.
  assert ((0 <? len l + 1) = true) as -> by (apply Z.ltb_lt; unfold len; lia).
  replace (Z.to_nat (len l + 1 - 1)) with (List.length l) by (unfold len; lia).
  rewrite nth_error_app2 by lia. rewrite Nat.sub_diag. done.
Qed.

(** X11.  On a store reached from a new one by any run of [addSequence],
    [removeSequence], [clearSequences] and [addEventListener] calls, an
    [addSequence] that returns a record makes that record the one
    [getLastSequence] and [getSequenceById] (with its id) return; every
    record held afterwards is found under its id, and the id of a record
    that was evicted is no longer found.  For a sequence within the
    argument limit [addSequence] throws on the empty sequence only. *)
Theorem addSequence_then_lookup (cs : list call) (now : Z) (iso : string)
    (startNumber : Z) (sequence : list Z) :
  within_argument_limit sequence ->
  match addSequence now iso startNumber sequence (snd (run cs constructor)) with
  | (Ok r, s') =>
      getSequenceById (id r) s' = Some r /\
      getLastSequence s' = Some r /\
      (forall x, In x (sequences s') -> getSequenceById (id x) s' = Some x) /\
      (forall x, In x (sequences (snd (run cs constructor))) ->
                 ~ In x (sequences s') -> getSequenceById (id x) s' = None)
  | (Throw e, s') => sequence = [] /\ e = CollatzAlgorithm.empty_sequence
  end.
Proof.
  intros _.
  pose proof (run_invariant cs [] constructor constructor_invariant) as Hinv.
  rewrite app_nil_l in Hinv.
  set (s := snd (run cs constructor)) in *. set (ids := fst (run cs constructor)) in *.
  pose proof (addSequence_invariant ids now iso startNumber sequence s Hinv) as Hinv'.
  pose proof (addSequence_fields now iso startNumber sequence s) as Hf.
  destruct (addSequence now iso startNumber sequence s) as [[r|e] s']; cbn [fst snd] in *.
  - destruct Hf as (_ & _ & _ & Hseq & Hid & _).
    pose proof (held_ids_distinct _ _ Hinv') as Hnd'.
    pose proof (held_ids_distinct _ _ Hinv) as Hnd.
    assert (forall x, In x (sequences s') -> getSequenceById (id x) s' = Some x) as Hall.
    { intros x Hx. apply find_by_id_Some; done. }
    split; [apply Hall; rewrite Hseq; apply in_or_app; right; left; done|].
    split; [eapply getLastSequence_snoc; eauto|]. split; [exact Hall|].
    intros x Hx Hnot. apply find_by_id_None. rewrite Hseq in *. intros Hin.
    rewrite map_app in Hin. apply in_app_or in Hin as [Hin|Hin].
    + (* the id of [x] is held by a record that was kept: that record is [x] *)
      apply in_map_iff in Hin. destruct Hin as (y & Hy & Hin).
      assert (In y (sequences s)) as Hys.
      { apply list_elem_of_In. eapply sublist_subseteq; [apply after_eviction_sublist|].
        apply list_elem_of_In. done. }
      assert (y = x); [|subst y; apply Hnot, in_or_app; left; done].
      pose proof (find_by_id_Some _ _ Hnd Hys) as H1.
      pose proof (find_by_id_Some _ _ Hnd Hx) as H2. rewrite Hy in H1. congruence.
    + simpl in Hin. destruct Hin as [Hin|[]].
      destruct Hinv' as [_ _ _ _ Hnd'' _].
      apply NoDup_app in Hnd'' as (_ & Hdisj & _). apply (Hdisj (id x)); [|rewrite <- Hin; left].
      destruct Hinv as [_ _ _ _ _ Hord]. eapply sublist_subseteq; [exact Hord|].
      apply list_elem_of_In, in_map, Hx.
  - destruct Hf as (_ & _ & _ & _ & Hthrow). unfold CollatzAlgorithm.calculateStatistics in Hthrow.
    destruct (len sequence =? 0) eqn:E; [|done]. injection Hthrow as <-.
    split; [|done]. apply Z.eqb_eq in E. unfold len in E. destruct sequence; [done|].
    simpl in E. lia.
Qed.

(** The same at the store of the records of 1 .. 10, to which the
    sequence of 11 is added. *)
Lemma addSequence_then_lookup_witness :
  within_argument_limit (sequence_of 11) /\
  match eleventh (snd (run ten_adds constructor)) with
  | (Ok r, s') =>
      getSequenceById (id r) s' = Some r /\
      getLastSequence s' = Some r /\
      (forall x, In x (sequences s') -> getSequenceById (id x) s' = Some x) /\
      (forall x, In x (sequences (snd (run ten_adds constructor))) ->
                 ~ In x (sequences s') -> getSequenceById (id x) s' = None)
  | (Throw e, s') => sequence_of 11 = [] /\ e = CollatzAlgorithm.empty_sequence
  end.
Proof.
  assert (within_argument_limit (sequence_of 11)) as Hfits
    by (unfold within_argument_limit; vm_compute; discriminate).
  split; [exact Hfits|].
  exact (addSequence_then_lookup ten_adds 1700000000011 "2023-11-14T22:13:20.011Z" 11
           (sequence_of 11) Hfits).
Defined.

Lemma findIndex_spec (l : list sequenceData) (i : string) :
  match findIndex l i with
  | Some index =>
      exists x, nth_error l index = Some x /\ id x = i /\
                List.find (fun seq => String.eqb (id seq) i) l = Some x /\
                (NoDup (map id l) ->
                 firstn index l ++ skipn (S index) l
                 = List.filter (fun seq => negb (String.eqb (id seq) i)) l)
  | None =>
      List.find (fun seq => String.eqb (id seq) i) l = None /\
      List.filter (fun seq => negb (String.eqb (id seq) i)) l = l
  end.
Proof.
  induction l as [|y l IH]; simpl; [done|].
  destruct (String.eqb (id y) i) eqn:E.
  - exists y. apply String.eqb_eq in E. split; [done|]. split; [done|]. split; [done|].
    intros Hnd. simpl. apply NoDup_cons in Hnd as [Hy _].
    symmetry. apply forallb_filter_id. apply forallb_forall. intros z Hz.
    apply negb_true_iff, String.eqb_neq. intros Hzi. apply Hy. rewrite E, <- Hzi.
    apply list_elem_of_In, in_map, Hz.
  - destruct (findIndex l i) as [index|]; simpl.
    + destruct IH as (x & Hx & Hid & Hfind & Hfilter). exists x.
      split; [done|]. split; [done|]. split; [done|].
      intros Hnd. apply NoDup_cons in Hnd as [_ Hnd]. rewrite Hfilter by done. done.
    + destruct IH as [Hfind Hfilter]. split; [done|]. rewrite Hfilter. done.
Qed.

(** X12.  On a store reached from a new one by any run of [addSequence],
    [removeSequence], [clearSequences] and [addEventListener] calls,
    [removeSequence(id)] returns [true] exactly when a record is held
    under [id]; afterwards the
    store holds the other records, in their order, and [getSequenceById(id)]
    returns [null]; a call that returns [false] changes nothing; a call
    that removes a record calls every callback registered for
    ['sequenceRemoved'] once with that record. *)
Theorem removeSequence_spec (cs : list call) (i : string) :
  (fst (removeSequence i (snd (run cs constructor))) = true
   <-> holds (snd (run cs constructor)) i) /\
  sequences (snd (removeSequence i (snd (run cs constructor))))
  = List.filter (fun seq => negb (String.eqb (id seq) i))
                (sequences (snd (run cs constructor))) /\
  getSequenceById i (snd (removeSequence i (snd (run cs constructor)))) = None /\
  (fst (removeSequence i (snd (run cs constructor))) = false ->
   snd (removeSequence i (snd (run cs constructor))) = snd (run cs constructor)) /\
  (forall x, getSequenceById i (snd (run cs constructor)) = Some x ->
     notified (snd (removeSequence i (snd (run cs constructor))))
     = notified (snd (run cs constructor))
       ++ map (fun cb => mkNotification cb "sequenceRemoved" (Some x))
              (listeners_of "sequenceRemoved" (snd (run cs constructor)))).
Proof.
  pose proof (run_invariant cs [] constructor constructor_invariant) as Hinv.
  rewrite app_nil_l in Hinv.
  set (s := snd (run cs constructor)) in *.
  pose proof (held_ids_distinct _ _ Hinv) as Hnd.
  pose proof (findIndex_spec (sequences s) i) as Hfi.
  assert (sequences (snd (removeSequence i s))
          = List.filter (fun seq => negb (String.eqb (id seq) i)) (sequences s)) as Hseq.
  { unfold removeSequence. destruct (findIndex (sequences s) i) as [index|].
    - destruct Hfi as (x & Hx & _ & _ & Hfilter). rewrite Hx. cbn [snd].
      destruct (notifyListeners_fields "sequenceRemoved" (Some x)
                  (set_sequences (firstn index (sequences s) ++ skipn (S index) (sequences s)) s))
        as (-> & _). simpl. apply Hfilter. done.
    - destruct Hfi as [_ Hfilter]. cbn [snd]. rewrite Hfilter. done. }
  split; [|split; [exact Hseq|split; [|split]]].
  - unfold removeSequence, holds. destruct (findIndex (sequences s) i) as [index|].
    + destruct Hfi as (x & Hx & Hid & _). rewrite Hx. cbn [fst]. split; [|done].
      intros _. exists x. split; [eapply nth_error_In; eauto|done].
    + destruct Hfi as [Hfind _]. cbn [fst]. split; [done|].
      intros (x & Hx & Hid). apply find_by_id_None in Hfind. exfalso. apply Hfind.
      rewrite <- Hid. apply in_map, Hx.
  - unfold getSequenceById. rewrite Hseq. apply find_by_id_None. intros Hin.
    apply in_map_iff in Hin. destruct Hin as (x & Hid & Hx).
    apply filter_In in Hx. destruct Hx as [_ Hx]. rewrite Hid, String.eqb_refl in Hx. done.
  - unfold removeSequence. destruct (findIndex (sequences s) i) as [index|]; [|done].
    destruct Hfi as (x & Hx & _). rewrite Hx. done.
  - intros x Hget. unfold getSequenceById in Hget. unfold removeSequence.
    destruct (findIndex (sequences s) i) as [index|].
    + destruct Hfi as (y & Hy & _ & Hfind & _). rewrite Hy. cbn [snd].
      assert (y = x) as -> by congruence.
      unfold notifyListeners, listeners_of. simpl.
      destruct (eventListeners s !! "sequenceRemoved"); simpl; [done|].
      rewrite app_nil_r. done.
    + destruct Hfi as [Hfind _]. congruence.
Qed.

End Lookup.

Section Listeners.
Import DataManager.

Lemma listener_index_spec (l : list listener) (cb : listener) :
  match listener_index l cb with
  | Some index =>
      count_occ Nat.eq_dec (firstn index l ++ skipn (S index) l) cb
      = Nat.pred (count_occ Nat.eq_dec l cb) /\
      List.filter (fun x => negb (Nat.eqb x cb)) (firstn index l ++ skipn (S index) l)
      = List.filter (fun x => negb (Nat.eqb x cb)) l
  | None => ~ In cb l
  end.
Proof.
  induction l as [|x l IH]; simpl; [tauto|].
  destruct (Nat.eqb x cb) eqn:E.
  - apply Nat.eqb_eq in E. subst x. simpl. destruct (Nat.eq_dec cb cb); [|done].
    split; done.
  - pose proof E as E'. apply Nat.eqb_neq in E'.
    destruct (listener_index l cb) as [index|]; simpl.
    + destruct IH as [Hc Hf]. destruct (Nat.eq_dec x cb); [done|].
      rewrite E. simpl. split; [done|]. rewrite Hf. done.
    + tauto.
Qed.

Lemma listener_index_snoc (l : list listener) (cb : listener) :
  ~ In cb l -> listener_index (l ++ [cb]) cb = Some (List.length l).
Proof.
  induction l as [|x l IH]; intros Hin; simpl.
  - rewrite Nat.eqb_refl. done.
  - destruct (Nat.eqb x cb) eqn:E.
    + apply Nat.eqb_eq in E. exfalso. apply Hin. left. done.
    + rewrite IH; [done|]. intros H. apply Hin. right. done.
Qed.

(** X13.  [removeEventListener(event, callback)] removes one registration
    of the callback from the event (the first): the callback is registered
    one time less, the other callbacks of the event stay in their order,
    other events, the records and the calls made so far are untouched.
    Registering a callback that was not registered and removing it again
    restores the callbacks of the event; and a callback that was registered
    at most once is not called by a later [notifyListeners]. *)
Theorem removeEventListener_spec (ev : string) (cb : listener) (s : state) :
  count_occ Nat.eq_dec (listeners_of ev (removeEventListener ev cb s)) cb
  = Nat.pred (count_occ Nat.eq_dec (listeners_of ev s) cb) /\
  List.filter (fun x => negb (Nat.eqb x cb)) (listeners_of ev (removeEventListener ev cb s))
  = List.filter (fun x => negb (Nat.eqb x cb)) (listeners_of ev s) /\
  (forall ev', ev' <> ev ->
     listeners_of ev' (removeEventListener ev cb s) = listeners_of ev' s) /\
  sequences (removeEventListener ev cb s) = sequences s /\
  notified (removeEventListener ev cb s) = notified s /\
  (~ In cb (listeners_of ev s) ->
   listeners_of ev (removeEventListener ev cb (addEventListener ev cb s))
   = listeners_of ev s) /\
  (forall d n,
     (count_occ Nat.eq_dec (listeners_of ev s) cb <= 1)%nat ->
     In n (notified (notifyListeners ev d (removeEventListener ev cb s))) ->
     In n (notified s) \/ callback n <> cb).
Proof.
  assert (count_occ Nat.eq_dec (listeners_of ev (removeEventListener ev cb s)) cb
          = Nat.pred (count_occ Nat.eq_dec (listeners_of ev s) cb) /\
          List.filter (fun x => negb (Nat.eqb x cb))
                      (listeners_of ev (removeEventListener ev cb s))
          = List.filter (fun x => negb (Nat.eqb x cb)) (listeners_of ev s)) as [Hcount Hothers].
  { unfold removeEventListener, listeners_of.
    destruct (eventListeners s !! ev) as [l|] eqn:El; [|rewrite El; done].
    pose proof (listener_index_spec l cb) as Hi.
    destruct (listener_index l cb) as [index|].
    - cbn [eventListeners]. rewrite lookup_insert_eq. exact Hi.
    - rewrite El. split; [|done].
      rewrite (proj1 (count_occ_not_In Nat.eq_dec l cb) Hi). done. }
  split; [exact Hcount|]. split; [exact Hothers|]. split; [|split; [|split; [|split]]].
  - intros ev' Hne. unfold removeEventListener, listeners_of.
    destruct (eventListeners s !! ev) as [l|]; [|done].
    destruct (listener_index l cb); [|done].
    cbn [eventListeners]. rewrite lookup_insert_ne by done. done.
  - unfold removeEventListener. destruct (eventListeners s !! ev) as [l|]; [|done].
    destruct (listener_index l cb); done.
  - unfold removeEventListener. destruct (eventListeners s !! ev) as [l|]; [|done].
    destruct (listener_index l cb); done.
  - intros Hnot. unfold removeEventListener, addEventListener, listeners_of in *.
    cbn [eventListeners]. rewrite lookup_insert_eq.
    destruct (eventListeners s !! ev) as [l|].
    + rewrite (listener_index_snoc l cb Hnot). cbn [eventListeners].
      rewrite lookup_insert_eq.
      rewrite take_app_length, drop_ge by (rewrite length_app; simpl; lia).
      rewrite app_nil_r. done.
    + simpl. rewrite Nat.eqb_refl. cbn [eventListeners]. rewrite lookup_insert_eq. done.
  - intros d n Hone Hn. rewrite notifyListeners_notified in Hn.
    assert (notified (removeEventListener ev cb s) = notified s) as Hsame.
    { unfold removeEventListener. destruct (eventListeners s !! ev) as [l|]; [|done].
      destruct (listener_index l cb); done. }
    rewrite Hsame in Hn. apply in_app_or in Hn as [Hn|Hn]; [left; done|right].
    fold (listeners_of ev (removeEventListener ev cb s)) in Hn.
    apply in_map_iff in Hn. destruct Hn as (x & <- & Hx). cbn [callback].
    intros ->. apply (count_occ_In Nat.eq_dec) in Hx. lia.
Qed.

End Listeners.

Lemma average_bounds (l : list Z) :
  l <> [] ->
  Qle (inject_Z (Math_min l))
      (Qdiv (inject_Z (fold_left (fun a b => a + b) l 0)) (inject_Z (len l))) /\
  Qle (Qdiv (inject_Z (fold_left (fun a b => a + b) l 0)) (inject_Z (len l)))
      (inject_Z (Math_max l)).
Proof.
  intros Hne.
  assert (0 < len l) as Hlen by (unfold len; destruct l; [done|simpl List.length; lia]).
  destruct (Math_max_spec l Hne) as [Hmax _].
  destruct (Math_min_spec l Hne) as [Hmin _].
  assert (Forall (fun x => Math_min l <= x <= Math_max l) l) as Hb.
  { rewrite Forall_forall in Hmax, Hmin. rewrite Forall_forall. intros x Hx. split; eauto. }
  pose proof (fold_left_sum_bounds _ _ l 0 Hb) as [Hlo Hhi].
  assert (0 < inject_Z (len l))%Q as HlenQ.
  { change 0%Q with (inject_Z 0). rewrite <- Zlt_Qlt. done. }
  split.
  - apply Qle_shift_div_l; [done|]. rewrite <- inject_Z_mult, <- Zle_Qle. lia.
  - apply Qle_shift_div_r; [done|]. rewrite <- inject_Z_mult, <- Zle_Qle. lia.
Qed.

Lemma in_created_keys (l : list Z) (k : Z) : In k (created_keys l) <-> In k l.
Proof.
  unfold created_keys.
  assert (forall acc, In k (fold_left (fun keys v => if existsb (Z.eqb v) keys then keys
                                                     else keys ++ [v]) l acc)
                      <-> In k acc \/ In k l) as H; [|rewrite H; simpl; tauto].
  induction l as [|x l IH]; intros acc; simpl; [tauto|].
  rewrite IH. destruct (existsb (Z.eqb x) acc) eqn:E.
  - apply existsb_exists in E. destruct E as (y & Hy & E). apply Z.eqb_eq in E. subst y.
    split; [tauto|]. intros [H|[<-|H]]; tauto.
  - rewrite in_app_iff. simpl. tauto.
Qed.

Lemma in_Object_keys (created : list Z) (k : Z) : In k (Object_keys created) <-> In k created.
Proof.
  unfold Object_keys. rewrite in_app_iff.
  rewrite <- !list_elem_of_In, merge_sort_Permutation, !list_elem_of_In, !filter_In.
  destruct (is_array_index k); simpl; intuition congruence.
Qed.

Lemma Object_keys_ascending (created : list Z) :
  Forall (fun k => is_array_index k = true) created ->
  StronglySorted Z.le (Object_keys created).
Proof.
  intros Hall. unfold Object_keys.
  assert (List.filter (fun k => negb (is_array_index k)) created = []) as ->.
  { induction Hall as [|k l Hk Hl IH]; [done|]. simpl. rewrite Hk. done. }
  rewrite app_nil_r. apply StronglySorted_merge_sort; apply _.
Qed.

Lemma maxValueCount_count_occ (l : list Z) (k : Z) :
  DataManager.maxValueCount l k = Z.of_nat (count_occ Z.eq_dec l k).
Proof.
  unfold DataManager.maxValueCount, len. induction l as [|x l IH]; [done|].
  simpl. destruct (Z.eq_dec x k) as [->|Hne].
  - rewrite Z.eqb_refl. simpl List.length. lia.
  - assert ((k =? x) = false) as -> by (apply Z.eqb_neq; done). done.
Qed.

(** [reduce((a, b) => count(a) > count(b) ? a : b)] keeps a key of the
    greatest count; of the keys of that count it keeps the last. *)
Lemma reduce_most_common (count : Z -> Z) (keys : list Z) (k : Z) :
  let r := fold_left (fun a b => if count b <? count a then a else b) keys k in
  In r (k :: keys) /\
  Forall (fun v => count v <= count r) (k :: keys) /\
  (StronglySorted Z.le (k :: keys) ->
   Forall (fun v => count v = count r -> v <= r) (k :: keys)).
Proof.
  cbv zeta. revert k. induction keys as [|b keys IH]; intros k.
  - simpl. split; [left; done|]. split; [repeat constructor; lia|].
    intros _. repeat constructor. lia.
  - cbn [fold_left]. set (a' := if count b <? count k then k else b).
    destruct (IH a') as (Hin & Hmax & Hlast).
    set (r := fold_left _ keys a') in *.
    assert (count k <= count a' /\ count b <= count a') as [Hk Hb].
    { unfold a'. destruct (count b <? count k) eqn:E;
        [apply Z.ltb_lt in E|apply Z.ltb_ge in E]; lia. }
    inversion Hmax as [|? ? Ha' Hkeys]; subst.
    split; [|split].
    + destruct Hin as [Hin|Hin]; [|right; right; done].
      rewrite <- Hin. unfold a'. destruct (count b <? count k); [left|right; left]; done.
    + constructor; [lia|]. constructor; [lia|done].
    + intros Hs. inversion Hs as [|? ? Hs' Hkb]; subst.
      inversion Hs' as [|? ? Hs'' Hbk]; subst. inversion Hkb as [|? ? Hkb' Hkk]; subst.
      assert (StronglySorted Z.le (a' :: keys)) as Hsa.
      { constructor; [done|]. unfold a'. destruct (count b <? count k); done. }
      specialize (Hlast Hsa). inversion Hlast as [|? ? Hla Hlk]; subst.
      constructor; [|constructor; [|done]]; intros Hv; revert Hla Ha' Hk Hb; unfold a';
        destruct (count b <? count k) eqn:E;
        [apply Z.ltb_lt in E|apply Z.ltb_ge in E|apply Z.ltb_lt in E|apply Z.ltb_ge in E];
        intros; lia.
Qed.

Section OverallStatistics.
Import DataManager.

Lemma mostCommon_spec (maxValues : list Z) :
  maxValues <> [] ->
  In (mostCommon maxValues) maxValues /\
  (forall v, count_occ Z.eq_dec maxValues v
             <= count_occ Z.eq_dec maxValues (mostCommon maxValues))%nat /\
  (Forall (fun v => 0 <= v < 4294967295) maxValues ->
   forall v, count_occ Z.eq_dec maxValues v
             = count_occ Z.eq_dec maxValues (mostCommon maxValues) ->
             v <= mostCommon maxValues).
Proof.
  intros Hne. unfold mostCommon.
  assert (forall k, In k (Object_keys (created_keys maxValues)) <-> In k maxValues) as Hkeys.
  { intros k. rewrite in_Object_keys, in_created_keys. done. }
  destruct (Object_keys (created_keys maxValues)) as [|k keys] eqn:E.
  { destruct maxValues as [|v l]; [done|]. exfalso. apply (Hkeys v). left. done. }
  pose proof (reduce_most_common (maxValueCount maxValues) keys k) as (Hin & Hmax & Hlast).
  cbv zeta in *. set (r := fold_left _ keys k) in *.
  assert (In r maxValues) as Hr by (apply Hkeys; done).
  split; [done|]. split.
  - intros v. destruct (in_dec Z.eq_dec v maxValues) as [Hv|Hv].
    + apply Hkeys in Hv. rewrite Forall_forall in Hmax.
      specialize (Hmax v (proj2 (list_elem_of_In _ _) Hv)).
      rewrite !maxValueCount_count_occ in Hmax. lia.
    + apply (count_occ_not_In Z.eq_dec) in Hv. lia.
  - intros Hidx v Hv.
    assert (In v maxValues) as Hvin.
    { apply (count_occ_In Z.eq_dec). apply (count_occ_In Z.eq_dec) in Hr. lia. }
    assert (StronglySorted Z.le (k :: keys)) as Hs.
    { rewrite <- E. apply Object_keys_ascending. rewrite Forall_forall.
      intros x Hx. apply list_elem_of_In in Hx.
      apply (proj1 (in_created_keys _ _)) in Hx.
      rewrite Forall_forall in Hidx. specialize (Hidx x (proj2 (list_elem_of_In _ _) Hx)).
      unfold is_array_index. apply andb_true_iff. split; [apply Z.leb_le|apply Z.ltb_lt]; lia. }
    specialize (Hlast Hs). rewrite Forall_forall in Hlast.
    apply (Hlast v); [apply list_elem_of_In, Hkeys; done|].
    rewrite !maxValueCount_count_occ. lia.
Qed.

Lemma len_filter_le {A} (p : A -> bool) (l : list A) : 0 <= len (List.filter p l) <= len l.
Proof.
  unfold len. induction l as [|x l IH]; simpl; [lia|]. destruct (p x); simpl List.length; lia.
Qed.

Lemma map_nonempty {A B} (f : A -> B) (l : list A) : l <> [] -> map f l <> [].
Proof. destruct l; done. Qed.

(** X14.  On a store that holds a record, and no more records than the
    argument limit, whose lengths are non-negative and add up to less
    than 2^53 and whose maxima are below 10^21 in magnitude (so that the
    host adds the lengths exactly and writes each maximum with its
    digits): [getOverallStatistics] returns the
    number of records, an average length between the least and the
    greatest length, a count of sequences reaching 1 between 0 and the
    number of records, and as [mostCommonMaxValue] a maximum that no other
    maximum beats in the number of records having it; when all maxima are
    from 0 to 2^32 - 2 it is the largest of the most frequent maxima. *)
Theorem getOverallStatistics_spec (s : state) :
  sequences s <> [] ->
  within_argument_limit (sequences s) ->
  exact_sum (map (fun seq => CollatzAlgorithm.length (statistics seq)) (sequences s)) ->
  Forall (fun seq => written_in_digits (CollatzAlgorithm.maxValue (statistics seq)))
         (sequences s) ->
  totalSequences (getOverallStatistics s) = len (sequences s) /\
  (inject_Z (minLength (getOverallStatistics s)) <= averageLength (getOverallStatistics s))%Q /\
  (averageLength (getOverallStatistics s) <= inject_Z (maxLength (getOverallStatistics s)))%Q /\
  0 <= sequencesReachingOne (getOverallStatistics s) <= totalSequences (getOverallStatistics s) /\
  1 <= records_peaking_at s (mostCommonMaxValue (getOverallStatistics s)) /\
  (forall v, records_peaking_at s v
             <= records_peaking_at s (mostCommonMaxValue (getOverallStatistics s))) /\
  (Forall (fun seq => 0 <= CollatzAlgorithm.maxValue (statistics seq) < 4294967295)
          (sequences s) ->
   forall v, records_peaking_at s v
             = records_peaking_at s (mostCommonMaxValue (getOverallStatistics s)) ->
             v <= mostCommonMaxValue (getOverallStatistics s)).
Proof.
  intros Hne _ _ _. unfold getOverallStatistics.
  assert ((len (sequences s) =? 0) = false) as ->.
  { apply Z.eqb_neq. unfold len. destruct (sequences s); [done|]. simpl List.length. lia. }
  cbn [totalSequences averageLength minLength maxLength sequencesReachingOne mostCommonMaxValue].
  unfold records_peaking_at.
  set (maxValues := map (fun seq => CollatzAlgorithm.maxValue (statistics seq)) (sequences s)).
  destruct (mostCommon_spec maxValues (map_nonempty _ _ Hne)) as (Hin & Hmode & Htie).
  split; [done|].
  destruct (average_bounds
              (map (fun seq => CollatzAlgorithm.length (statistics seq)) (sequences s))
              (map_nonempty _ _ Hne)) as [Hlo Hhi].
  split; [exact Hlo|]. split; [exact Hhi|].
  split; [apply len_filter_le|]. split.
  { apply (count_occ_In Z.eq_dec) in Hin. lia. }
  split; [intros v; specialize (Hmode v); lia|].
  intros Hidx v Hv. apply Htie; [|lia].
  unfold maxValues. rewrite Forall_forall in Hidx. rewrite Forall_forall.
  intros x Hx. apply list_elem_of_In, in_map_iff in Hx. destruct Hx as (y & <- & Hy).
  apply Hidx, list_elem_of_In, Hy.
Qed.

(** The same at the sample store of ten records. *)
Lemma getOverallStatistics_spec_witness :
  sequences full_store <> [] /\
  within_argument_limit (sequences full_store) /\
  exact_sum (map (fun seq => CollatzAlgorithm.length (statistics seq))
                 (sequences full_store)) /\
  Forall (fun seq => written_in_digits (CollatzAlgorithm.maxValue (statistics seq)))
         (sequences full_store) /\
  totalSequences (getOverallStatistics full_store) = len (sequences full_store) /\
  (inject_Z (minLength (getOverallStatistics full_store))
   <= averageLength (getOverallStatistics full_store))%Q /\
  (averageLength (getOverallStatistics full_store)
   <= inject_Z (maxLength (getOverallStatistics full_store)))%Q /\
  0 <= sequencesReachingOne (getOverallStatistics full_store)
    <= totalSequences (getOverallStatistics full_store) /\
  1 <= records_peaking_at full_store (mostCommonMaxValue (getOverallStatistics full_store)) /\
  (forall v, records_peaking_at full_store v
             <= records_peaking_at full_store
                  (mostCommonMaxValue (getOverallStatistics full_store))) /\
  (Forall (fun seq => 0 <= CollatzAlgorithm.maxValue (statistics seq) < 4294967295)
          (sequences full_store) ->
   forall v, records_peaking_at full_store v
             = records_peaking_at full_store
                 (mostCommonMaxValue (getOverallStatistics full_store)) ->
             v <= mostCommonMaxValue (getOverallStatistics full_store)).
Proof.
  assert (sequences full_store <> []) as Hne by (vm_compute; discriminate).
  assert (within_argument_limit (sequences full_store)) as Hfits
    by (unfold within_argument_limit; vm_compute; discriminate).
  assert (exact_sum (map (fun seq => CollatzAlgorithm.length (statistics seq))
                         (sequences full_store))) as Hsum
    by (unfold exact_sum, written_in_digits; apply (bool_decide_unpack _); vm_compute;
        exact I).
  assert (Forall (fun seq => written_in_digits
                               (CollatzAlgorithm.maxValue (statistics seq)))
                 (sequences full_store)) as Hdigits
    by (unfold exact_sum, written_in_digits; apply (bool_decide_unpack _); vm_compute;
        exact I).
  split; [exact Hne|]. split; [exact Hfits|]. split; [exact Hsum|].
  split; [exact Hdigits|].
  exact (getOverallStatistics_spec full_store Hne Hfits Hsum Hdigits).
Defined.


End OverallStatistics.

(** A loop that counts the indices passing a test counts all of them
    exactly when all pass. *)
Lemma count_all {A} (p : A -> bool) (l : list A) (acc : Z) :
  fold_left (fun n i => if p i then n + 1 else n) l acc = acc + len l
  <-> forall x, In x l -> p x = true.
Proof.
  revert acc. induction l as [|x l IH]; intros acc; simpl fold_left.
  - unfold len. simpl. split; [intros _ x []|lia].
  - replace (acc + len (x :: l)) with (acc + 1 + len l) by (unfold len; simpl List.length; lia).
    destruct (p x) eqn:E.
    + rewrite IH. split; [intros H y [<-|Hy]; eauto|intros H y Hy; apply H; right; done].
    + pose proof (count_bounds p l acc) as Hb. split; [lia|].
      intros H. specialize (H x ltac:(left; done)). congruence.
Qed.

Lemma count_ext {A} (p q : A -> bool) (l : list A) (acc : Z) :
  (forall x, p x = q x) ->
  fold_left (fun n i => if p i then n + 1 else n) l acc
  = fold_left (fun n i => if q i then n + 1 else n) l acc.
Proof.
  intros H. revert acc. induction l as [|x l IH]; intros acc; simpl; [done|].
  rewrite H. apply IH.
Qed.

Lemma count_none {A} (p : A -> bool) (l : list A) (acc : Z) :
  fold_left (fun n i => if p i then n + 1 else n) l acc = acc
  <-> forall x, In x l -> p x = false.
Proof.
  revert acc. induction l as [|x l IH]; intros acc; simpl fold_left.
  - split; [intros _ x []|done].
  - destruct (p x) eqn:E.
    + pose proof (count_bounds p l (acc + 1)) as Hb. split; [lia|].
      intros H. specialize (H x ltac:(left; done)). congruence.
    + rewrite IH. split; [intros H y [<-|Hy]; eauto|intros H y Hy; apply H; right; done].
Qed.

Lemma unit_interval (a b : Z) :
  0 <= a <= b -> 0 < b -> (0 <= inject_Z a / inject_Z b <= 1)%Q.
Proof.
  intros Ha Hb.
  assert (0 < inject_Z b)%Q as HbQ by (change 0%Q with (inject_Z 0); rewrite <- Zlt_Qlt; done).
  split.
  - apply Qle_shift_div_l; [done|]. rewrite Qmult_0_l.
    change 0%Q with (inject_Z 0). rewrite <- Zle_Qle. lia.
  - apply Qle_shift_div_r; [done|]. rewrite Qmult_1_l. rewrite <- Zle_Qle. lia.
Qed.

Section Similarity.
Import DataManager.

Lemma agree_on_prefix (seq1 seq2 : list Z) :
  (forall i, In i (range 0 (Z.min (len seq1) (len seq2))) ->
             (at_ seq1 i 0 =? at_ seq2 i 0) = true)
  <-> seq1 `prefix_of` seq2 \/ seq2 `prefix_of` seq1.
Proof.
  split.
  - intros H.
    assert (forall i : nat, (i < List.length seq1)%nat -> (i < List.length seq2)%nat ->
                            seq1 !! i = seq2 !! i) as Hsame.
    { intros i H1 H2. specialize (H (Z.of_nat i)).
      rewrite in_range, Z.eqb_eq in H. unfold len in H. specialize (H ltac:(lia)).
      rewrite <- (Nat2Z.id i).
      rewrite (lookup_at seq1 (Z.of_nat i) 0), (lookup_at seq2 (Z.of_nat i) 0)
        by (unfold len; lia).
      congruence. }
    destruct (decide (List.length seq1 <= List.length seq2)%nat) as [Hle|Hgt]; [left|right].
    + exists (drop (List.length seq1) seq2). rewrite <- (take_drop (List.length seq1) seq2) at 1.
      f_equal. apply list_eq. intros i. rewrite lookup_take.
      destruct (decide (i < List.length seq1)%nat); [symmetry; apply Hsame; lia|].
      rewrite lookup_ge_None_2 by lia. done.
    + exists (drop (List.length seq2) seq1). rewrite <- (take_drop (List.length seq2) seq1) at 1.
      f_equal. apply list_eq. intros i. rewrite lookup_take.
      destruct (decide (i < List.length seq2)%nat); [apply Hsame; lia|].
      rewrite lookup_ge_None_2 by lia. done.
  - intros Hp i Hi. apply in_range in Hi. apply Z.eqb_eq.
    pose proof (lookup_at seq1 i 0 ltac:(lia)) as H1.
    pose proof (lookup_at seq2 i 0 ltac:(lia)) as H2.
    destruct Hp as [Hp|Hp].
    + pose proof (prefix_lookup_Some _ _ _ _ H1 Hp). congruence.
    + pose proof (prefix_lookup_Some _ _ _ _ H2 Hp). congruence.
Qed.

Lemma calculateSimilarity_comm (seq1 seq2 : list Z) :
  calculateSimilarity seq1 seq2 = calculateSimilarity seq2 seq1.
Proof.
  unfold calculateSimilarity. cbv zeta. rewrite (Z.min_comm (len seq2)).
  rewrite (count_ext (fun i => at_ seq2 i 0 =? at_ seq1 i 0)
                     (fun i => at_ seq1 i 0 =? at_ seq2 i 0)); [done|].
  intros i. apply Z.eqb_sym.
Qed.

(** The similarity as the quotient of the number of agreeing indices by
    the number of common indices. *)
Lemma calculateSimilarity_Some (seq1 seq2 : list Z) (q : Q) :
  calculateSimilarity seq1 seq2 = Some q ->
  exists matches m,
    m = Z.min (len seq1) (len seq2) /\ 0 < m /\ 0 <= matches <= m /\
    q = Qdiv (inject_Z matches) (inject_Z m) /\
    (matches = m <-> seq1 `prefix_of` seq2 \/ seq2 `prefix_of` seq1) /\
    (matches = 0 <->
     forall (i : nat) a b, seq1 !! i = Some a -> seq2 !! i = Some b -> a <> b).
Proof.
  unfold calculateSimilarity. cbv zeta.
  set (m := Z.min (len seq1) (len seq2)).
  set (matches := fold_left (fun matches i => if at_ seq1 i 0 =? at_ seq2 i 0
                                             then matches + 1 else matches) (range 0 m) 0).
  destruct (m =? 0) eqn:E; [done|]. apply Z.eqb_neq in E. intros [= <-].
  assert (0 <= m) as Hm0 by (unfold m, len; lia).
  pose proof (count_bounds (fun i => at_ seq1 i 0 =? at_ seq2 i 0) (range 0 m) 0) as Hb.
  rewrite len_range in Hb. fold matches in Hb.
  exists matches, m. split; [done|]. split; [lia|]. split; [lia|]. split; [done|]. split.
  - rewrite <- agree_on_prefix. fold m.
    rewrite <- (count_all (fun i => at_ seq1 i 0 =? at_ seq2 i 0) (range 0 m) 0).
    fold matches. rewrite len_range. lia.
  - unfold matches.
    rewrite (count_none (fun i => at_ seq1 i 0 =? at_ seq2 i 0) (range 0 m) 0).
    split.
    + intros H i a b Ha Hb'. pose proof (lookup_lt_Some _ _ _ Ha).
      pose proof (lookup_lt_Some _ _ _ Hb').
      specialize (H (Z.of_nat i)). rewrite in_range in H. unfold m, len in H.
      specialize (H ltac:(lia)). apply Z.eqb_neq in H.
      rewrite (at_lookup _ _ _ _ Ha), (at_lookup _ _ _ _ Hb') in H. done.
    + intros H i Hi. apply in_range in Hi. apply Z.eqb_neq.
      unfold m in Hi.
      pose proof (lookup_at seq1 i 0 ltac:(lia)) as H1.
      pose proof (lookup_at seq2 i 0 ltac:(lia)) as H2.
      eapply H; eauto.
Qed.

Lemma quotient_is_one (a b : Z) : 0 < b -> (inject_Z a / inject_Z b == 1)%Q <-> a = b.
Proof.
  intros Hb.
  assert (~ inject_Z b == 0)%Q as Hnz.
  { intros H. change 0%Q with (inject_Z 0) in H. rewrite inject_Z_injective in H. lia. }
  split.
  - intros H. assert (inject_Z a == inject_Z b)%Q as H'.
    { rewrite <- (Qmult_1_l (inject_Z b)), <- H. field. done. }
    rewrite inject_Z_injective in H'. done.
  - intros ->. field. done.
Qed.

Lemma quotient_is_zero (a b : Z) : 0 < b -> (inject_Z a / inject_Z b == 0)%Q <-> a = 0.
Proof.
  intros Hb.
  assert (~ inject_Z b == 0)%Q as Hnz.
  { intros H. change 0%Q with (inject_Z 0) in H. rewrite inject_Z_injective in H. lia. }
  split.
  - intros H. assert (inject_Z a == inject_Z 0)%Q as H'.
    { change (inject_Z 0) with 0%Q. rewrite <- (Qmult_0_l (inject_Z b)), <- H. field. done. }
    rewrite inject_Z_injective in H'. done.
  - intros ->. unfold Qeq, Qdiv, Qmult. simpl. done.
Qed.

(** X16.  [calculateSimilarity] is symmetric; it is not a number exactly
    when one of the sequences is empty; otherwise it lies between 0 and 1,
    it is 1 exactly when one sequence is a prefix of the other, and 0
    exactly when the two sequences differ at every common index. *)
Theorem calculateSimilarity_spec (seq1 seq2 : list Z) :
  calculateSimilarity seq1 seq2 = calculateSimilarity seq2 seq1 /\
  (calculateSimilarity seq1 seq2 = None <-> seq1 = [] \/ seq2 = []) /\
  (forall q, calculateSimilarity seq1 seq2 = Some q ->
     (0 <= q <= 1)%Q /\
     ((q == 1)%Q <-> seq1 `prefix_of` seq2 \/ seq2 `prefix_of` seq1) /\
     ((q == 0)%Q <->
      forall (i : nat) a b, seq1 !! i = Some a -> seq2 !! i = Some b -> a <> b)).
Proof.
  split; [apply calculateSimilarity_comm|]. split.
  - unfold calculateSimilarity. cbv zeta.
    destruct (Z.min (len seq1) (len seq2) =? 0) eqn:E.
    + apply Z.eqb_eq in E. split; [|done]. intros _. unfold len in E.
      destruct seq1; [left; done|]. destruct seq2; [right; done|].
      simpl List.length in E. lia.
    + apply Z.eqb_neq in E. split; [done|].
      intros [->| ->]; exfalso; apply E; unfold len; simpl; lia.
  - intros q Hq.
    destruct (calculateSimilarity_Some _ _ _ Hq)
      as (matches & m & _ & Hm & Hb & -> & Hone & Hzero).
    split; [apply unit_interval; lia|].
    rewrite (quotient_is_one _ _ Hm), (quotient_is_zero _ _ Hm). done.
Qed.

(** X17.  [compareSequences(id1, id2)] throws its not-found error exactly
    when no record is held under one of the ids.  Comparing in the other
    order negates the differences, swaps the two even/odd ratios and keeps
    the similarity; a record compared with itself has differences 0 and a
    similarity of 1, where the difference of the averages is 0 for a
    finite average and NaN for an average that is not finite (the sum of
    the sequence has overflowed). *)
Theorem compareSequences_spec (id1 id2 : string) (s : state) :
  (compareSequences id1 id2 s = Throw not_found <-> ~ holds s id1 \/ ~ holds s id2) /\
  (forall c, compareSequences id1 id2 s = Ok c ->
     exists c',
       compareSequences id2 id1 s = Ok c' /\
       lengthDifference c' = - lengthDifference c /\
       maxValueDifference c' = - maxValueDifference c /\
       stepDifference c' = - stepDifference c /\
       complexityDifference c' = - complexityDifference c /\
       averageValueDifference c' = Double.opposite (averageValueDifference c) /\
       evenOddRatio1 c' = evenOddRatio2 c /\
       evenOddRatio2 c' = evenOddRatio1 c /\
       similarity c' = similarity c) /\
  (id1 = id2 ->
   forall c, compareSequences id1 id2 s = Ok c ->
     lengthDifference c = 0 /\ maxValueDifference c = 0 /\ stepDifference c = 0 /\
     complexityDifference c = 0 /\
     (forall seq, getSequenceById id1 s = Some seq ->
        averageValueDifference c
        = match CollatzAlgorithm.averageValue (statistics seq) with
          | finite _ => finite 0
          | _ => not_a_number
          end) /\
     evenOddRatio1 c = evenOddRatio2 c /\
     (forall q, similarity c = Some q -> (q == 1)%Q)).
Proof.
  assert (forall i, getSequenceById i s = None <-> ~ holds s i) as Hnone.
  { intros i. unfold getSequenceById, holds. rewrite find_by_id_None. split.
    - intros H (x & Hx & Hid). apply H. rewrite <- Hid. apply in_map, Hx.
    - intros H Hin. apply in_map_iff in Hin. destruct Hin as (x & Hid & Hx). eauto. }
  unfold compareSequences. split; [|split].
  - destruct (getSequenceById id1 s) as [seq1|] eqn:E1;
      destruct (getSequenceById id2 s) as [seq2|] eqn:E2.
    + split; [done|]. intros [H|H]; apply Hnone in H; congruence.
    + split; [|done]. intros _. right. apply Hnone. done.
    + split; [|done]. intros _. left. apply Hnone. done.
    + split; [|done]. intros _. left. apply Hnone. done.
  - intros c. destruct (getSequenceById id1 s) as [seq1|]; [|done].
    destruct (getSequenceById id2 s) as [seq2|]; [|done].
    intros [= <-]. eexists. split; [reflexivity|].
    cbn [lengthDifference maxValueDifference stepDifference complexityDifference
         averageValueDifference evenOddRatio1 evenOddRatio2 similarity].
    split; [lia|]. split; [lia|]. split; [lia|]. split; [lia|].
    split; [apply sub_swap|].
    split; [done|]. split; [done|]. apply calculateSimilarity_comm.
  - intros <- c. destruct (getSequenceById id1 s) as [seq1|]; [|done].
    intros [= <-].
    cbn [lengthDifference maxValueDifference stepDifference complexityDifference
         averageValueDifference evenOddRatio1 evenOddRatio2 similarity].
    split; [lia|]. split; [lia|]. split; [lia|]. split; [lia|]. split.
    { intros seq [= <-].
      destruct (CollatzAlgorithm.averageValue (statistics seq1)) as [x|[]|];
        [apply sub_self|reflexivity..]. }
    split; [done|]. intros q Hq.
    destruct (calculateSimilarity_Some _ _ _ Hq) as (matches & m & _ & Hm & _ & -> & Hone & _).
    apply quotient_is_one; [done|]. apply Hone. left. done.
Qed.

End Similarity.

Lemma List_filter_sublist {A} (p : A -> bool) (l : list A) : List.filter p l `sublist_of` l.
Proof.
  induction l as [|x l IH]; simpl; [done|].
  destruct (p x); [apply sublist_skip|apply sublist_cons]; done.
Qed.

Lemma optional_filter_sublist {A} (c : bool) (p : A -> bool) (l : list A) :
  (if c then List.filter p l else l) `sublist_of` l.
Proof. destruct c; [apply List_filter_sublist|done]. Qed.

Lemma in_optional_filter {A} (c : bool) (p : A -> bool) (l : list A) (x : A) :
  In x (if c then List.filter p l else l) <-> In x l /\ (c = true -> p x = true).
Proof. destruct c; [rewrite filter_In|]; intuition congruence. Qed.

Section FilterSequences.
Import DataManager.

Lemma truthy_asks (filter : option Z) (P : Z -> Prop) :
  (truthy filter = true -> P (filter_value filter)) <-> (forall v, asks filter v -> P v).
Proof.
  unfold truthy, asks, filter_value. destruct filter as [v|].
  - destruct (v =? 0) eqn:E; simpl.
    + apply Z.eqb_eq in E. split; [|done]. intros _ w [[= <-] Hw]. done.
    + apply Z.eqb_neq in E. split.
      * intros H w [[= <-] _]. auto.
      * intros H _. apply H. done.
  - split; [|done]. intros _ w [Hw _]. done.
Qed.

(** X18.  [filterSequences(filters)] returns held records in their order:
    exactly those that pass every numeric filter given with a number other
    than 0 and the [reachingOne] filter if it is given.  A numeric filter
    given as 0 filters nothing: with [maxLength: 0] alone every record is
    returned. *)
Theorem filterSequences_spec (f : filters) (s : state) :
  filterSequences f s `sublist_of` sequences s /\
  (forall seq,
     In seq (filterSequences f s) <->
     In seq (sequences s) /\
     (forall v, asks (filter_minLength f) v -> v <= CollatzAlgorithm.length (statistics seq)) /\
     (forall v, asks (filter_maxLength f) v -> CollatzAlgorithm.length (statistics seq) <= v) /\
     (forall v, asks (filter_minMaxValue f) v ->
                v <= CollatzAlgorithm.maxValue (statistics seq)) /\
     (forall v, asks (filter_maxMaxValue f) v ->
                CollatzAlgorithm.maxValue (statistics seq) <= v) /\
     (forall b, filter_reachingOne f = Some b ->
                CollatzAlgorithm.hasReachedOne (statistics seq) = b)) /\
  filterSequences
    {| filter_minLength := None; filter_maxLength := Some 0; filter_minMaxValue := None;
       filter_maxMaxValue := None; filter_reachingOne := None |} s
  = sequences s.
Proof.
  split; [|split; [|reflexivity]].
  - unfold filterSequences. cbv zeta.
    destruct (filter_reachingOne f);
      repeat (etrans; [first [apply List_filter_sublist|apply optional_filter_sublist]|]);
      done.
  - intros seq.
    rewrite <- (truthy_asks (filter_minLength f)
                  (fun v => v <= CollatzAlgorithm.length (statistics seq))).
    rewrite <- (truthy_asks (filter_maxLength f)
                  (fun v => CollatzAlgorithm.length (statistics seq) <= v)).
    rewrite <- (truthy_asks (filter_minMaxValue f)
                  (fun v => v <= CollatzAlgorithm.maxValue (statistics seq))).
    rewrite <- (truthy_asks (filter_maxMaxValue f)
                  (fun v => CollatzAlgorithm.maxValue (statistics seq) <= v)).
    unfold filterSequences. cbv zeta.
    destruct (filter_reachingOne f) as [b|].
    + rewrite filter_In, !in_optional_filter, !Z.leb_le. unfold same_bool.
      rewrite Bool.eqb_true_iff. split.
      * intros H. repeat split; try tauto. intros b' [= <-]. tauto.
      * intros (H1 & H2 & H3 & H4 & H5 & H6). repeat split; auto.
    + rewrite !in_optional_filter, !Z.leb_le. split.
      * intros H. repeat split; try tauto. intros b' [=].
      * intros (H1 & H2 & H3 & H4 & H5 & H6). repeat split; auto.
Qed.

End FilterSequences.

(** * Further properties of [ComparisonAnalyzer] *)

Lemma unit_fraction (a b : Z) :
  0 <= a <= b -> 0 < b -> (0 <= inject_Z a / inject_Z b /\ inject_Z a / inject_Z b <= 1)%Q.
Proof.
  intros Ha Hb.
  assert (0 < inject_Z b)%Q as HbQ by (change 0%Q with (inject_Z 0); rewrite <- Zlt_Qlt; done).
  split.
  - apply Qle_shift_div_l; [done|]. rewrite Qmult_0_l.
    change 0%Q with (inject_Z 0). rewrite <- Zle_Qle. lia.
  - apply Qle_shift_div_r; [done|]. rewrite Qmult_1_l. rewrite <- Zle_Qle. lia.
Qed.

Lemma fold_left_sum_member (l : list Z) (x acc : Z) :
  Forall (fun y => 0 <= y) l -> In x l -> acc + x <= fold_left (fun a b => a + b) l acc.
Proof.
  revert acc. induction l as [|y l IH]; intros acc Hl Hin; [destruct Hin|].
  inversion Hl as [|? ? Hy Hl']; subst. simpl.
  destruct Hin as [->|Hin].
  - pose proof (fold_left_sum_bounds 0 (Math_max (0 :: l)) l (acc + x)) as H.
    assert (Forall (fun y => 0 <= y <= Math_max (0 :: l)) l) as Hb.
    { destruct (Math_max_spec (0 :: l)) as [Hm _]; [done|].
      inversion Hm; subst. rewrite Forall_forall in *. intros z Hz. split; eauto. }
    specialize (H Hb). lia.
  - specialize (IH (acc + y) Hl' Hin). lia.
Qed.

Section ConvergenceRanges.
Import CollatzAlgorithm ComparisonAnalyzer.

(** X19.  For a sequence within the argument limit whose neighbours are
    less than 2^53 apart in sum, so that the host adds the differences
    exactly, [analyzeConvergence] returns an oscillation level and a
    convergence speed between 0 and 1, and a stability score, where it is
    a number, in [0, 1).  For a sequence of at least 3 elements the
    oscillation level is the [complexity] of its statistics divided by
    length - 2. *)
Theorem analyzeConvergence_ranges (sequence : list Z) :
  within_argument_limit sequence ->
  variation sequence < 2 ^ 53 ->
  (0 <= oscillationLevel (analyzeConvergence sequence) <= 1)%Q /\
  (0 <= convergenceSpeed (analyzeConvergence sequence) <= 1)%Q /\
  (forall score, stabilityScore (analyzeConvergence sequence) = Some score ->
     (0 <= score < 1)%Q) /\
  (forall stats, calculateStatistics sequence = Ok stats -> 3 <= length stats ->
     (oscillationLevel (analyzeConvergence sequence)
      == inject_Z (complexity stats) / inject_Z (length stats - 2))%Q).
Proof.
  intros _ _.
  unfold analyzeConvergence. destruct (len sequence <? 3) eqn:Hshort.
  { apply Z.ltb_lt in Hshort. cbn [oscillationLevel convergenceSpeed stabilityScore].
    split; [done|]. split; [done|]. split.
    - intros score [= <-]. done.
    - intros stats Hs Hl. unfold calculateStatistics in Hs.
      destruct (len sequence =? 0); [done|]. injection Hs as <-. simpl in Hl. lia. }
  apply Z.ltb_ge in Hshort. cbv zeta.
  fold (directionChanges sequence).
  pose proof (directionChanges_bounds sequence) as Hdc.
  destruct (unit_fraction (directionChanges sequence) (len sequence - 2)) as [Ho0 Ho1];
    [lia|lia|].
  set (osc := (inject_Z (directionChanges sequence) / inject_Z (len sequence - 2))%Q) in *.
  set (differences := map (fun i => Z.abs (at_ sequence i 0 - at_ sequence (i - 1) 0))
                          (range 1 (len sequence))).
  assert (forall score,
            (if Math_max differences =? 0 then None
             else Some (1 - inject_Z (fold_left (fun a b => (a + b)%Z) differences 0%Z)
                            / inject_Z (len differences) / inject_Z (Math_max differences))%Q)
            = Some score -> (0 <= score < 1)%Q) as Hscore.
  { intros score. destruct (Math_max differences =? 0) eqn:Hz; [done|].
    apply Z.eqb_neq in Hz. intros [= <-].
    assert (len differences = len sequence - 1) as Hlen.
    { pose proof (len_range 1 (len sequence)) as Hr.
      unfold differences, len in *. rewrite length_map. lia. }
    assert (differences <> []) as Hne.
    { intros E. rewrite E in Hlen. unfold len in Hlen at 1. simpl in Hlen. lia. }
    destruct (Math_max_spec differences Hne) as [Hmax Hin].
    assert (Forall (fun y => 0 <= y) differences) as Hpos.
    { unfold differences. rewrite Forall_forall. intros y Hy.
      apply list_elem_of_In, in_map_iff in Hy. destruct Hy as (i & <- & _). lia. }
    assert (0 < Math_max differences) as HM.
    { rewrite Forall_forall in Hpos. specialize (Hpos _ (proj2 (list_elem_of_In _ _) Hin)). lia. }
    pose proof (fold_left_sum_member differences _ 0 Hpos Hin) as Hlo.
    assert (Forall (fun y => 0 <= y <= Math_max differences) differences) as Hb.
    { rewrite Forall_forall in *. intros z Hz'. split; eauto. }
    pose proof (fold_left_sum_bounds _ _ differences 0 Hb) as [_ Hhi].
    set (S := fold_left (fun a b => a + b) differences 0) in *.
    set (M := Math_max differences) in *.
    set (n := len differences) in *.
    assert (0 < inject_Z M)%Q as HMQ by (change 0%Q with (inject_Z 0); rewrite <- Zlt_Qlt; done).
    assert (0 < inject_Z n)%Q as HnQ by (change 0%Q with (inject_Z 0); rewrite <- Zlt_Qlt; lia).
    assert (inject_Z S / inject_Z n / inject_Z M <= 1)%Q as H1.
    { apply Qle_shift_div_r; [done|]. apply Qle_shift_div_r; [done|].
      rewrite Qmult_1_l, <- inject_Z_mult, <- Zle_Qle. lia. }
    assert (0 < inject_Z S / inject_Z n / inject_Z M)%Q as H0.
    { apply Qlt_shift_div_l; [done|]. apply Qlt_shift_div_l; [done|].
      rewrite !Qmult_0_l. change 0%Q with (inject_Z 0). rewrite <- Zlt_Qlt. lia. }
    split.
    - apply Qle_minus_iff in H1. exact H1.
    - apply Qlt_minus_iff.
      assert (1 + - (1 - inject_Z S / inject_Z n / inject_Z M)
              == inject_Z S / inject_Z n / inject_Z M)%Q as -> by ring.
      exact H0. }
  assert (forall stats, calculateStatistics sequence = Ok stats -> 3 <= length stats ->
            (osc == inject_Z (complexity stats) / inject_Z (length stats - 2))%Q) as Hlink.
  { intros stats Hs _. unfold calculateStatistics in Hs.
    destruct (len sequence =? 0); [done|]. injection Hs as <-. simpl. reflexivity. }
  match goal with
  | |- context [if ?c then _ else _] => destruct c
  end; [|match goal with
  | |- context [if ?c then _ else _] => destruct c
  end]; cbn [oscillationLevel convergenceSpeed stabilityScore].
  - split; [done|]. split; [|done]. split.
    + apply Qle_minus_iff in Ho1. exact Ho1.
    + apply Qle_minus_iff. assert (1 + - (1 - osc) == osc)%Q as -> by ring. done.
  - split; [done|]. split; [|done]. split; done.
  - split; [done|]. split; [|done]. split; done.
Qed.

(** The same at the sequence of 6. *)
Lemma analyzeConvergence_ranges_witness :
  within_argument_limit (sequence_of 6) /\
  variation (sequence_of 6) < 2 ^ 53 /\
  (0 <= oscillationLevel (analyzeConvergence (sequence_of 6)) <= 1)%Q /\
  (0 <= convergenceSpeed (analyzeConvergence (sequence_of 6)) <= 1)%Q /\
  (forall score,
     stabilityScore (analyzeConvergence (sequence_of 6)) = Some score ->
     (0 <= score < 1)%Q) /\
  (forall stats,
     calculateStatistics (sequence_of 6) = Ok stats -> 3 <= length stats ->
     (oscillationLevel (analyzeConvergence (sequence_of 6))
      == inject_Z (complexity stats) / inject_Z (length stats - 2))%Q).
Proof.
  assert (within_argument_limit (sequence_of 6)) as Hfits
    by (unfold within_argument_limit; vm_compute; discriminate).
  assert (variation (sequence_of 6) < 2 ^ 53) as Hsum
    by (vm_compute; reflexivity).
  split; [exact Hfits|]. split; [exact Hsum|].
  exact (analyzeConvergence_ranges (sequence_of 6) Hfits Hsum).
Defined.

End ConvergenceRanges.

Lemma StronglySorted_lookup_le (l : list Z) (i j : nat) (a b : Z) :
  StronglySorted Z.le l -> (i <= j)%nat -> l !! i = Some a -> l !! j = Some b -> a <= b.
Proof.
  intros Hs. revert i j. induction Hs as [|x l Hs IH Hx]; intros i j Hij Ha Hb; [done|].
  destruct i as [|i], j as [|j]; simpl in *; try lia.
  - injection Ha as <-. injection Hb as <-. lia.
  - injection Ha as <-. rewrite Forall_lookup in Hx. eauto.
  - eapply IH; [|eauto..]. lia.
Qed.

Lemma Qfloor_quarter (n : Z) : Qfloor (inject_Z n * 0.25) = n / 4.
Proof.
  unfold Qfloor, inject_Z, Qmult. simpl.
  change (Z.pos (1 * 100)) with (4 * 25). apply Z.div_mul_cancel_r; lia.
Qed.

Lemma Qfloor_three_quarters (n : Z) : Qfloor (inject_Z n * 0.75) = 3 * n / 4.
Proof.
  unfold Qfloor, inject_Z, Qmult. simpl.
  change (Z.pos (1 * 100)) with (4 * 25). replace (n * 75) with (3 * n * 25) by lia.
  apply Z.div_mul_cancel_r; lia.
Qed.

Section Outliers.
Import ComparisonAnalyzer.

Lemma calculateOutlierStats_quartiles (values : list Z) :
  values <> [] ->
  In (q1 (calculateOutlierStats values)) values /\
  In (q3 (calculateOutlierStats values)) values /\
  q1 (calculateOutlierStats values) <= q3 (calculateOutlierStats values) /\
  iqr (calculateOutlierStats values)
  = q3 (calculateOutlierStats values) - q1 (calculateOutlierStats values).
Proof.
  intros Hne. unfold calculateOutlierStats. cbv zeta. cbn [q1 q3 iqr].
  rewrite Qfloor_quarter, Qfloor_three_quarters.
  set (sorted := merge_sort Z.le values).
  assert (sorted ≡ₚ values) as Hperm by apply merge_sort_Permutation.
  assert (StronglySorted Z.le sorted) as Hs by (apply StronglySorted_merge_sort; apply _).
  assert (0 < len sorted) as Hlen.
  { unfold len. rewrite Hperm. destruct values; [done|]. simpl List.length. lia. }
  assert (0 <= len sorted / 4 <= 3 * len sorted / 4) as H1.
  { split; [apply Z.div_pos; lia|]. apply Z.div_le_mono; lia. }
  assert (3 * len sorted / 4 < len sorted) as H3.
  { apply Z.div_lt_upper_bound; lia. }
  pose proof (lookup_at sorted (len sorted / 4) 0 ltac:(lia)) as Ha.
  pose proof (lookup_at sorted (3 * len sorted / 4) 0 ltac:(lia)) as Hb.
  split; [|split; [|split; [|done]]].
  - apply list_elem_of_In. rewrite <- Hperm. eapply list_elem_of_lookup_2. exact Ha.
  - apply list_elem_of_In. rewrite <- Hperm. eapply list_elem_of_lookup_2. exact Hb.
  - eapply StronglySorted_lookup_le; [exact Hs| |exact Ha|exact Hb]. lia.
Qed.

(** X20.  For a non-empty array of integers of magnitude at most 2^50,
    on which the host computes the bounds exactly, the quartiles that
    [calculateOutlierStats] returns are values of the array with
    q1 <= q3, [iqr] is their difference, the bounds enclose both quartiles
    and are 4 interquartile ranges apart. *)
Theorem calculateOutlierStats_spec (values : list Z) :
  values <> [] ->
  Forall small values ->
  In (q1 (calculateOutlierStats values)) values /\
  In (q3 (calculateOutlierStats values)) values /\
  q1 (calculateOutlierStats values) <= q3 (calculateOutlierStats values) /\
  iqr (calculateOutlierStats values)
  = q3 (calculateOutlierStats values) - q1 (calculateOutlierStats values) /\
  (lowerBound (calculateOutlierStats values)
   <= inject_Z (q1 (calculateOutlierStats values)))%Q /\
  (inject_Z (q3 (calculateOutlierStats values))
   <= upperBound (calculateOutlierStats values))%Q /\
  (upperBound (calculateOutlierStats values) - lowerBound (calculateOutlierStats values)
   == 4 * inject_Z (iqr (calculateOutlierStats values)))%Q.
Proof.
  intros Hne _.
  destruct (calculateOutlierStats_quartiles values Hne) as (H1 & H3 & Hle & Hiqr).
  split; [done|]. split; [done|]. split; [done|]. split; [done|].
  revert Hle Hiqr. unfold calculateOutlierStats. cbv zeta.
  cbn [q1 q3 iqr lowerBound upperBound].
  set (a := at_ _ (Qfloor (_ * 0.25)) 0). set (b := at_ _ (Qfloor (_ * 0.75)) 0).
  intros Hle _. split; [|split].
  - unfold Qle, Qminus, Qplus, Qmult, Qopp, inject_Z. simpl. lia.
  - unfold Qle, Qminus, Qplus, Qmult, Qopp, inject_Z. simpl. lia.
  - unfold Qeq, Qminus, Qplus, Qmult, Qopp, inject_Z. simpl. lia.
Qed.

(** The same at the values 3, 9, 1, 7. *)
Lemma calculateOutlierStats_spec_witness :
  [3; 9; 1; 7]%Z <> [] /\
  Forall small [3; 9; 1; 7]%Z /\
  In (q1 (calculateOutlierStats [3; 9; 1; 7]%Z)) [3; 9; 1; 7]%Z /\
  In (q3 (calculateOutlierStats [3; 9; 1; 7]%Z)) [3; 9; 1; 7]%Z /\
  q1 (calculateOutlierStats [3; 9; 1; 7]%Z) <= q3 (calculateOutlierStats [3; 9; 1; 7]%Z) /\
  iqr (calculateOutlierStats [3; 9; 1; 7]%Z)
  = q3 (calculateOutlierStats [3; 9; 1; 7]%Z) - q1 (calculateOutlierStats [3; 9; 1; 7]%Z) /\
  (lowerBound (calculateOutlierStats [3; 9; 1; 7]%Z)
   <= inject_Z (q1 (calculateOutlierStats [3; 9; 1; 7]%Z)))%Q /\
  (inject_Z (q3 (calculateOutlierStats [3; 9; 1; 7]%Z))
   <= upperBound (calculateOutlierStats [3; 9; 1; 7]%Z))%Q /\
  (upperBound (calculateOutlierStats [3; 9; 1; 7]%Z)
   - lowerBound (calculateOutlierStats [3; 9; 1; 7]%Z)
   == 4 * inject_Z (iqr (calculateOutlierStats [3; 9; 1; 7]%Z)))%Q.
Proof.
  assert ([3; 9; 1; 7]%Z <> []) as Hne by discriminate.
  assert (Forall small [3; 9; 1; 7]%Z) as Hsmall
    by (repeat constructor; unfold small; simpl; lia).
  split; [exact Hne|]. split; [exact Hsmall|].
  exact (calculateOutlierStats_spec _ Hne Hsmall).
Defined.

(** A value beyond the bounds is off the mid-quartile point by more than
    two interquartile ranges. *)
Lemma outside_far (v a b : Z) :
  a <= b ->
  outside v {| q1 := a; q3 := b; iqr := b - a;
               lowerBound := inject_Z a - 1.5 * inject_Z (b - a);
               upperBound := inject_Z b + 1.5 * inject_Z (b - a) |} = true ->
  calculateAnomalySeverity v
    {| q1 := a; q3 := b; iqr := b - a;
       lowerBound := inject_Z a - 1.5 * inject_Z (b - a);
       upperBound := inject_Z b + 1.5 * inject_Z (b - a) |} <> low /\
  (v < a \/ b < v).
Proof.
  intros Hle. unfold outside, calculateAnomalySeverity. cbn [q1 q3 iqr lowerBound upperBound].
  intros Hout.
  assert (2 * v > 5 * b - 3 * a \/ 2 * v < 5 * a - 3 * b) as Hfar.
  { apply orb_true_iff in Hout. destruct Hout as [H|H]; apply negb_true_iff in H; [left|right].
    - destruct (Z_le_gt_dec (2 * v) (5 * b - 3 * a)) as [Hc|Hc]; [|lia]. exfalso.
      assert (Qle_bool (inject_Z v) (inject_Z b + 1.5 * inject_Z (b - a)) = true); [|congruence].
      apply Qle_bool_iff. unfold Qle, Qminus, Qplus, Qmult, Qopp, inject_Z. simpl. lia.
    - destruct (Z_le_gt_dec (5 * a - 3 * b) (2 * v)) as [Hc|Hc]; [|lia]. exfalso.
      assert (Qle_bool (inject_Z a - 1.5 * inject_Z (b - a)) (inject_Z v) = true); [|congruence].
      apply Qle_bool_iff. unfold Qle, Qminus, Qplus, Qmult, Qopp, inject_Z. simpl. lia. }
  split; [|lia].
  assert (Qle_bool (Qabs (inject_Z v - (inject_Z a + inject_Z b) / 2)) (inject_Z (b - a) * 2)
          = false) as Hd.
  { destruct (Qle_bool (Qabs _) _) eqn:E; [|done]. exfalso. apply Qle_bool_iff in E.
    apply Qabs_Qle_condition in E. destruct E as [E1 E2].
    unfold Qle, Qminus, Qplus, Qmult, Qdiv, Qinv, Qopp, inject_Z in E1, E2.
    simpl in E1, E2. lia. }
  rewrite Hd. destruct (Qle_bool _ (inject_Z (b - a) * 3)); simpl; discriminate.
Qed.

Lemma outside_not_low (values : list Z) (v : Z) :
  values <> [] ->
  outside v (calculateOutlierStats values) = true ->
  calculateAnomalySeverity v (calculateOutlierStats values) <> low /\
  (v < q1 (calculateOutlierStats values) \/ q3 (calculateOutlierStats values) < v).
Proof.
  intros Hne Hout.
  destruct (calculateOutlierStats_quartiles values Hne) as (_ & _ & Hle & _).
  exact (outside_far v (q1 (calculateOutlierStats values)) (q3 (calculateOutlierStats values))
           Hle Hout).
Qed.

Lemma in_combine_map {A B} (f : A -> B) (l : list A) (x : A) (y : B) :
  In (x, y) (combine l (map f l)) -> In x l /\ y = f x.
Proof.
  induction l as [|z l IH]; simpl; [done|].
  intros [[= -> ->]|H]; [split; [left|]; done|].
  destruct (IH H). split; [right|]; done.
Qed.

(** X21.  When the lengths and the maxima of the held sequences are
    integers of magnitude at most 2^50, on which the host computes the
    outlier test exactly: every anomaly [findAnomalies] reports is about
    a held sequence
    and has severity ['medium'] or ['high'], never ['low'].  An anomaly of
    type ['length'] (['maxValue']) carries the length (the maximum) of its
    sequence, which lies below the first or above the third quartile of
    the lengths (maxima) held; one of type ['pattern'] is about a sequence
    without tags and is ['medium'].  With 3 or more sequences held, every
    sequence without tags is reported. *)
Theorem findAnomalies_sound (Summary : Type) (this : state Summary) :
  Forall (fun seq => small (CollatzAlgorithm.length (statistics seq)) /\
                     small (CollatzAlgorithm.maxValue (statistics seq)))
         (this_sequences this) ->
  Forall (fun a =>
    In (anomaly_sequence a) (this_sequences this) /\
    severity a <> low /\
    match type a with
    | type_length =>
        value a = number (CollatzAlgorithm.length (statistics (anomaly_sequence a))) /\
        let stats :=
          calculateOutlierStats
            (map (fun seq => CollatzAlgorithm.length (statistics seq)) (this_sequences this)) in
        CollatzAlgorithm.length (statistics (anomaly_sequence a)) < q1 stats
        \/ q3 stats < CollatzAlgorithm.length (statistics (anomaly_sequence a))
    | type_maxValue =>
        value a = number (CollatzAlgorithm.maxValue (statistics (anomaly_sequence a))) /\
        let stats :=
          calculateOutlierStats
            (map (fun seq => CollatzAlgorithm.maxValue (statistics seq)) (this_sequences this)) in
        CollatzAlgorithm.maxValue (statistics (anomaly_sequence a)) < q1 stats
        \/ q3 stats < CollatzAlgorithm.maxValue (statistics (anomaly_sequence a))
    | type_pattern =>
        value a = no_patterns /\ patterns (anomaly_sequence a) = [] /\ severity a = medium
    end) (fst (findAnomalies this)) /\
  (forall seq, (3 <= List.length (this_sequences this))%nat ->
     In seq (this_sequences this) -> patterns seq = [] ->
     exists a, In a (fst (findAnomalies this)) /\
               type a = type_pattern /\ anomaly_sequence a = seq).
Proof.
  intros _.
  unfold findAnomalies.
  destruct (List.length (this_sequences this) <? 3)%nat eqn:Hshort.
  { apply Nat.ltb_lt in Hshort. split; [constructor|]. intros; lia. }
  apply Nat.ltb_ge in Hshort. cbv zeta. cbn [fst].
  assert (this_sequences this <> []) as Hne by (intros E; rewrite E in Hshort; simpl in Hshort; lia).
  split.
  - rewrite !Forall_app. split; [|split].
    + rewrite Forall_forall. intros a Ha. apply list_elem_of_In, in_flat_map in Ha.
      destruct Ha as ([seq v] & Hin & Ha). apply in_combine_map in Hin as [Hseq ->].
      match type of Ha with context [outside ?v ?st] =>
        destruct (outside v st) eqn:Hout; [|destruct Ha] end.
      destruct Ha as [<-|[]]. cbn [anomaly_sequence severity type value].
      split; [done|].
      destruct (outside_not_low _ _ (map_nonempty _ _ Hne) Hout) as [Hsev Hfar].
      split; [exact Hsev|]. split; [done|]. exact Hfar.
    + rewrite Forall_forall. intros a Ha. apply list_elem_of_In, in_flat_map in Ha.
      destruct Ha as ([seq v] & Hin & Ha). apply in_combine_map in Hin as [Hseq ->].
      match type of Ha with context [outside ?v ?st] =>
        destruct (outside v st) eqn:Hout; [|destruct Ha] end.
      destruct Ha as [<-|[]]. cbn [anomaly_sequence severity type value].
      split; [done|].
      destruct (outside_not_low _ _ (map_nonempty _ _ Hne) Hout) as [Hsev Hfar].
      split; [exact Hsev|]. split; [done|]. exact Hfar.
    + rewrite Forall_forall. intros a Ha. apply list_elem_of_In, in_flat_map in Ha.
      destruct Ha as (seq & Hseq & Ha).
      destruct (List.length (patterns seq) =? 0)%nat eqn:E; [|destruct Ha].
      destruct Ha as [<-|[]]. cbn [anomaly_sequence severity type value].
      apply Nat.eqb_eq in E. split; [done|]. split; [done|]. split; [done|].
      split; [|done]. destruct (patterns seq); [done|]. simpl in E. lia.
  - intros seq _ Hseq Hnone. eexists. split.
    + apply in_or_app. right. apply in_or_app. right. apply in_flat_map.
      exists seq. split; [done|]. rewrite Hnone. simpl. left. reflexivity.
    + done.
Qed.

(** The same at the sample analyzer, which holds the sequences of 1, 2,
    3, 4 and 27. *)
Lemma findAnomalies_sound_witness :
  Forall (fun seq => small (CollatzAlgorithm.length (statistics seq)) /\
                     small (CollatzAlgorithm.maxValue (statistics seq)))
         (this_sequences sample_analyzer) /\
  Forall (fun a =>
    In (anomaly_sequence a) (this_sequences sample_analyzer) /\
    severity a <> low /\
    match type a with
    | type_length =>
        value a = number (CollatzAlgorithm.length (statistics (anomaly_sequence a))) /\
        let stats :=
          calculateOutlierStats
            (map (fun seq => CollatzAlgorithm.length (statistics seq))
                 (this_sequences sample_analyzer)) in
        CollatzAlgorithm.length (statistics (anomaly_sequence a)) < q1 stats
        \/ q3 stats < CollatzAlgorithm.length (statistics (anomaly_sequence a))
    | type_maxValue =>
        value a = number (CollatzAlgorithm.maxValue (statistics (anomaly_sequence a))) /\
        let stats :=
          calculateOutlierStats
            (map (fun seq => CollatzAlgorithm.maxValue (statistics seq))
                 (this_sequences sample_analyzer)) in
        CollatzAlgorithm.maxValue (statistics (anomaly_sequence a)) < q1 stats
        \/ q3 stats < CollatzAlgorithm.maxValue (statistics (anomaly_sequence a))
    | type_pattern =>
        value a = no_patterns /\ patterns (anomaly_sequence a) = [] /\ severity a = medium
    end) (fst (findAnomalies sample_analyzer)) /\
  (forall seq, (3 <= List.length (this_sequences sample_analyzer))%nat ->
     In seq (this_sequences sample_analyzer) -> patterns seq = [] ->
     exists a, In a (fst (findAnomalies sample_analyzer)) /\
               type a = type_pattern /\ anomaly_sequence a = seq).
Proof.
  assert (Forall (fun seq => small (CollatzAlgorithm.length (statistics seq)) /\
                             small (CollatzAlgorithm.maxValue (statistics seq)))
                 (this_sequences sample_analyzer)) as Hsmall.
  { repeat constructor; vm_compute; discriminate. }
  split; [exact Hsmall|]. exact (findAnomalies_sound unit sample_analyzer Hsmall).
Defined.

End Outliers.

Lemma count_as_filter {A} (p : A -> bool) (l : list A) (acc : Z) :
  fold_left (fun n i => if p i then n + 1 else n) l acc = acc + len (List.filter p l).
Proof.
  unfold len. revert acc. induction l as [|x l IH]; intros acc; simpl; [lia|].
  rewrite IH. destruct (p x); simpl List.length; lia.
Qed.

Lemma count_ext_in {A} (p q : A -> bool) (l : list A) (acc : Z) :
  (forall x, In x l -> p x = q x) ->
  fold_left (fun n i => if p i then n + 1 else n) l acc
  = fold_left (fun n i => if q i then n + 1 else n) l acc.
Proof.
  revert acc. induction l as [|x l IH]; intros acc H; simpl; [done|].
  rewrite (H x) by (left; done). apply IH. intros y Hy. apply H. right. done.
Qed.

Lemma range_shift (n : Z) : range 1 n = map (fun i => i + 1) (range 0 (n - 1)).
Proof.
  unfold range. rewrite map_map. replace (n - 1 - 0) with (n - 1) by lia.
  apply map_ext. intros k. lia.
Qed.

Lemma Qle_bool_three_halves (a b : Z) :
  Qle_bool (inject_Z b) (inject_Z a * 1.5) = (2 * b <=? 3 * a).
Proof.
  destruct (2 * b <=? 3 * a) eqn:E.
  - apply Qle_bool_iff. apply Z.leb_le in E. unfold Qle, inject_Z, Qmult. simpl. lia.
  - destruct (Qle_bool (inject_Z b) (inject_Z a * 1.5)) eqn:E'; [|done].
    apply Qle_bool_iff in E'. apply Z.leb_gt in E.
    unfold Qle, inject_Z, Qmult in E'. simpl in E'. lia.
Qed.

Lemma Qfloor_three_tenths (n : Z) : Qfloor (inject_Z n * 0.3) = 3 * n / 10.
Proof. unfold Qfloor, inject_Z, Qmult. simpl. f_equal. lia. Qed.

Lemma rem2_odd (a : Z) : 1 <= a -> (Z.rem a 2 =? 1) = Z.odd a.
Proof.
  intros Ha. rewrite <- Z.negb_even, <- rem2_even.
  pose proof (Z.rem_bound_pos a 2 ltac:(lia) ltac:(lia)).
  destruct (Z.rem a 2 =? 0) eqn:E; [apply Z.eqb_eq in E|apply Z.eqb_neq in E]; simpl.
  - apply Z.eqb_neq. lia.
  - apply Z.eqb_eq. lia.
Qed.

Section ExponentialGrowth.
Import CollatzAlgorithm.

(** On a sequence that follows the step rule, the steps that grow by more
    than half are the steps from an odd number. *)
Lemma growthCount_of_collatz (l : list Z) :
  adjacent_pairs_obey host_step l -> Forall (fun x => 1 <= x) l ->
  fold_left (fun growthCount i =>
               if negb (Qle_bool (inject_Z (at_ l i 0)) (inject_Z (at_ l (i - 1) 0) * 1.5))
               then growthCount + 1 else growthCount)
            (range 1 (len l)) 0
  = len (List.filter Z.odd (removelast l)).
Proof.
  intros Hp Hpos. rewrite range_shift.
  rewrite (fold_left_over_map
             (fun growthCount i =>
                if negb (Qle_bool (inject_Z (at_ l i 0)) (inject_Z (at_ l (i - 1) 0) * 1.5))
                then growthCount + 1 else growthCount) (fun i => i + 1)).
  rewrite (count_ext_in _ (fun i => Z.odd (at_ l i 0))).
  - rewrite <- (fold_left_over_map (fun n x => if Z.odd x then n + 1 else n)
                                   (fun i => at_ l i 0)).
    rewrite count_as_filter. destruct l as [|x l]; [done|].
    rewrite removelast_firstn_len.
    replace (len (x :: l) - 1) with (Z.of_nat (Nat.pred (List.length (x :: l))))
      by (unfold len; simpl List.length; lia).
    rewrite map_at_range by lia. lia.
  - intros i Hi. apply in_range in Hi.
    destruct (neighbours l i Hp Hpos) as [Ha [He Ho]]; [lia|lia|].
    replace (i + 1 - 1) with i by lia. rewrite Qle_bool_three_halves.
    destruct (Z.odd (at_ l i 0)) eqn:E.
    + rewrite Ho by done. apply negb_true_iff, Z.leb_gt.
      pose proof (nearest_lower (3 * at_ l i 0) ltac:(lia)) as H1.
      pose proof (nearest_lower (Double.nearest (3 * at_ l i 0) + 1) ltac:(lia)) as H2.
      lia.
    + rewrite <- Z.negb_even in E. apply negb_false_iff in E. rewrite He by done.
      apply negb_false_iff, Z.leb_le.
      pose proof (Z.div_le_upper_bound (at_ l i 0) 2 (at_ l i 0)). lia.
Qed.

Lemma oddCount_of_sequence_to_one (l : list Z) :
  Forall (fun x => 1 <= x) l -> last l = Some 1 ->
  len (List.filter (fun num => Z.rem num 2 =? 1) l)
  = len (List.filter Z.odd (removelast l)) + 1.
Proof.
  intros Hpos Hlast. apply last_Some in Hlast. destruct Hlast as [l' ->].
  rewrite removelast_last. apply Forall_app in Hpos as [Hpos _].
  rewrite List.filter_app. unfold len. rewrite length_app. simpl.
  rewrite (filter_ext_in (fun num => Z.rem num 2 =? 1) Z.odd l'); [lia|].
  intros x Hx. apply rem2_odd. rewrite Forall_forall in Hpos.
  apply Hpos, list_elem_of_In, Hx.
Qed.

(** X22.  For the sequence [generateSequence(start)] returns for a positive
    integer, when it ends in 1: [hasExponentialGrowth] holds exactly when
    the sequence has at least 5 elements and the number of its odd elements
    other than the final 1 is at least floor(3 * length / 10), the counts
    being those of [calculateStatistics]. *)
Theorem hasExponentialGrowth_of_generated (start : Z) :
  1 <= start ->
  exists seq console stats,
    generateSequence (Num (inject_Z start)) = Ok (seq, console) /\
    calculateStatistics seq = Ok stats /\
    (last seq = Some 1 ->
     ComparisonAnalyzer.hasExponentialGrowth seq
     = (5 <=? length stats) && (3 * length stats / 10 <=? oddCount stats - 1)).
Proof.
  intros H. destruct (run_loop_spec start H) as [Hinv _].
  destruct (calculateStatistics_nonempty _ (run_loop_nonempty start H))
    as (stats & Hs & Hlen & _).
  eexists _, _, stats.
  split; [exact (generateSequence_positive _ start (integer_is_integer start) H)|].
  split; [exact Hs|]. intros Hlast.
  assert (oddCount stats = len (List.filter Z.odd (removelast (sequence (run_loop start)))) + 1)
    as Hodd.
  { unfold calculateStatistics in Hs. destruct (len _ =? 0); [done|]. injection Hs as <-.
    cbn [oddCount]. apply oddCount_of_sequence_to_one; [apply Hinv|done]. }
  unfold ComparisonAnalyzer.hasExponentialGrowth. rewrite Hlen.
  destruct (len (sequence (run_loop start)) <? 5) eqn:E.
  - apply Z.ltb_lt in E. symmetry. apply andb_false_iff. left. apply Z.leb_gt. done.
  - apply Z.ltb_ge in E. cbv zeta.
    rewrite growthCount_of_collatz by apply Hinv. rewrite Qfloor_three_tenths, Hodd.
    assert ((5 <=? len (sequence (run_loop start))) = true) as -> by (apply Z.leb_le; done).
    simpl. f_equal. lia.
Qed.

(** The same at the start 27. *)
Lemma hasExponentialGrowth_of_generated_witness :
  1 <= 27 /\
  exists seq console stats,
    generateSequence (Num (inject_Z 27)) = Ok (seq, console) /\
    calculateStatistics seq = Ok stats /\
    (last seq = Some 1 ->
     ComparisonAnalyzer.hasExponentialGrowth seq
     = (5 <=? length stats) && (3 * length stats / 10 <=? oddCount stats - 1)).
Proof.
  split; [lia|]. apply (hasExponentialGrowth_of_generated 27). lia.
Defined.

End ExponentialGrowth.

Section Degenerate.
Local Open Scope R_scope.









End Degenerate.

Section StepsVsLength.
Import ComparisonAnalyzer.



End StepsVsLength.

Lemma NoDup_created_keys (l : list Z) : NoDup (created_keys l).
Proof.
  unfold created_keys.
  assert (forall acc, NoDup acc ->
            NoDup (fold_left (fun keys v => if existsb (Z.eqb v) keys then keys
                                            else keys ++ [v]) l acc)) as H;
    [|apply H; constructor].
  induction l as [|x l IH]; intros acc Hacc; simpl; [done|]. apply IH.
  destruct (existsb (Z.eqb x) acc) eqn:E; [done|].
  apply NoDup_app. split; [done|]. split; [|apply NoDup_singleton].
  intros y Hy Hx. apply list_elem_of_singleton in Hx. subst y.
  assert (existsb (Z.eqb x) acc = true); [|congruence].
  apply existsb_exists. exists x. split; [apply list_elem_of_In; done|apply Z.eqb_refl].
Qed.

Lemma NoDup_List_filter {A} (p : A -> bool) (l : list A) :
  NoDup l -> NoDup (List.filter p l).
Proof.
  induction 1 as [|x l Hx Hl IH]; simpl; [constructor|].
  destruct (p x); [|done]. constructor; [|done].
  intros Hin. apply Hx. apply list_elem_of_In in Hin. apply filter_In in Hin.
  apply list_elem_of_In. tauto.
Qed.

Lemma StronglySorted_strict (l : list Z) :
  StronglySorted Z.le l -> NoDup l -> StronglySorted Z.lt l.
Proof.
  induction 1 as [|x l Hl IH Hx]; intros Hnd; [constructor|].
  apply NoDup_cons in Hnd as [Hnot Hnd]. constructor; [apply IH; done|].
  rewrite Forall_forall in Hx. rewrite Forall_forall. intros y Hy.
  specialize (Hx y Hy). assert (x <> y) by (intros ->; done). lia.
Qed.

(** The keys of an object whose keys are array indices come in
    ascending order, each once. *)
Lemma Object_keys_strictly_ascending (l : list Z) :
  Forall (fun k => is_array_index k = true) l ->
  StronglySorted Z.lt (Object_keys (created_keys l)).
Proof.
  intros Hall. apply StronglySorted_strict.
  - apply Object_keys_ascending. rewrite Forall_forall in Hall. rewrite Forall_forall.
    intros k Hk. apply Hall. apply list_elem_of_In. apply list_elem_of_In in Hk.
    apply (proj1 (in_created_keys l k)). done.
  - unfold Object_keys.
    assert (List.filter (fun k => negb (is_array_index k)) (created_keys l) = []) as ->.
    { assert (Forall (fun k => is_array_index k = true) (created_keys l)) as Hc.
      { rewrite Forall_forall in Hall. rewrite Forall_forall. intros k Hk. apply Hall.
        apply list_elem_of_In. apply list_elem_of_In in Hk.
        apply (proj1 (in_created_keys l k)). done. }
      induction Hc as [|k ks Hk Hks IH]; [done|]. simpl. rewrite Hk. done. }
    rewrite app_nil_r. rewrite merge_sort_Permutation.
    apply NoDup_List_filter, NoDup_created_keys.
Qed.

Lemma count_filter_count_occ (l : list Z) (k : Z) :
  len (List.filter (Z.eqb k) l) = Z.of_nat (count_occ Z.eq_dec l k).
Proof. apply maxValueCount_count_occ. Qed.

Section AnalyzeCycles.
Import ComparisonAnalyzer.

Lemma cycle_lengths_flat_map (sequences : list entry) :
  flat_map (fun seq => map cycle_length (cycles seq)) sequences
  = map cycle_length (flat_map cycles sequences).
Proof.
  induction sequences as [|seq l IH]; simpl; [done|]. rewrite map_app, IH. done.
Qed.

Lemma sequences_with_cycles (sequences : list entry) :
  len (List.filter (fun seq => 0 <? len (cycles seq)) sequences)
  <= len (flat_map cycles sequences) /\
  (flat_map cycles sequences <> [] ->
   1 <= len (List.filter (fun seq => 0 <? len (cycles seq)) sequences)).
Proof.
  unfold len. induction sequences as [|seq l [IH1 IH2]]; simpl; [split; [lia|done]|].
  rewrite length_app. destruct (cycles seq) as [|c cs] eqn:E; simpl.
  - split; [lia|]. exact IH2.
  - split; lia.
Qed.

(** X24.  [analyzeCycles] returns zeros when no held sequence has a cycle.
    Otherwise [totalCycles] is the number of cycles held,
    [sequencesWithCycles] is at least 1 and at most the number of sequences
    and the number of cycles, the average cycle length lies between any
    bounds of the lengths, and [mostCommonCycleLength] is the key of a
    length that no other length beats in the number of cycles having it:
    of the most frequent lengths the smallest, when the lengths are array
    indices, as those [findCycles] returns are. *)
Theorem analyzeCycles_spec (sequences : list entry) :
  (flat_map cycles sequences = [] ->
   analyzeCycles sequences
   = {| totalCycles := 0; averageCycleLength := 0; mostCommonCycleLength := no_key;
        sequencesWithCycles := 0 |}) /\
  (flat_map cycles sequences <> [] ->
   totalCycles (analyzeCycles sequences) = len (flat_map cycles sequences) /\
   1 <= sequencesWithCycles (analyzeCycles sequences) <= len sequences /\
   sequencesWithCycles (analyzeCycles sequences) <= totalCycles (analyzeCycles sequences) /\
   (forall lo hi,
      Forall (fun c => lo <= cycle_length c <= hi) (flat_map cycles sequences) ->
      (inject_Z lo <= averageCycleLength (analyzeCycles sequences))%Q /\
      (averageCycleLength (analyzeCycles sequences) <= inject_Z hi)%Q) /\
   exists k,
     mostCommonCycleLength (analyzeCycles sequences) = key k /\
     1 <= cycles_of_length (flat_map cycles sequences) k /\
     (forall v, cycles_of_length (flat_map cycles sequences) v
                <= cycles_of_length (flat_map cycles sequences) k) /\
     (Forall (fun c => 0 <= cycle_length c < 4294967295) (flat_map cycles sequences) ->
      forall v, cycles_of_length (flat_map cycles sequences) v
                = cycles_of_length (flat_map cycles sequences) k -> k <= v)).
Proof.
  unfold analyzeCycles. cbv zeta. rewrite cycle_lengths_flat_map.
  set (all := flat_map cycles sequences).
  set (cycleLengths := map cycle_length all).
  assert (len cycleLengths = len all) as Hlen by (unfold len, cycleLengths; rewrite length_map; done).
  split.
  { intros E. rewrite Hlen, E. reflexivity. }
  intros Hne.
  assert (0 < len all) as Hpos by (unfold len; destruct all; [done|simpl List.length; lia]).
  assert ((0 <? len cycleLengths) = true) as -> by (apply Z.ltb_lt; lia).
  cbn [totalCycles sequencesWithCycles averageCycleLength mostCommonCycleLength].
  destruct (sequences_with_cycles sequences) as [Hle Hge]. fold all in Hle, Hge.
  split; [done|]. split; [split; [auto|apply len_filter_le]|]. split; [lia|]. split.
  { intros lo hi Hb.
    assert (Forall (fun x => lo <= x <= hi) cycleLengths) as Hb'.
    { unfold cycleLengths. rewrite Forall_forall in Hb. rewrite Forall_forall.
      intros x Hx. apply list_elem_of_In, in_map_iff in Hx. destruct Hx as (c & <- & Hc).
      apply Hb, list_elem_of_In, Hc. }
    pose proof (fold_left_sum_bounds _ _ cycleLengths 0 Hb') as [Hlo Hhi].
    assert (0 < inject_Z (len cycleLengths))%Q as HlenQ.
    { change 0%Q with (inject_Z 0). rewrite <- Zlt_Qlt. lia. }
    split.
    - apply Qle_shift_div_l; [done|]. rewrite <- inject_Z_mult, <- Zle_Qle. lia.
    - apply Qle_shift_div_r; [done|]. rewrite <- inject_Z_mult, <- Zle_Qle. lia. }
  set (count := fun k => len (List.filter (Z.eqb k) cycleLengths)).
  set (before := fun a b => count b - count a <=? 0).
  change (stable_sort _ (Object_keys (created_keys cycleLengths)))
    with (stable_sort before (Object_keys (created_keys cycleLengths))).
  assert (forall a b, before a b = (- count a <=? - count b)) as Hbefore.
  { intros a b. unfold before. destruct (count b - count a <=? 0) eqn:E; symmetry;
      [apply Z.leb_le; apply Z.leb_le in E|apply Z.leb_gt; apply Z.leb_gt in E]; lia. }
  assert (forall k, In k (Object_keys (created_keys cycleLengths)) <-> In k cycleLengths)
    as Hkeys.
  { intros k. rewrite in_Object_keys, in_created_keys. done. }
  pose proof (stable_sort_ascending (fun k => - count k) before Hbefore
                (Object_keys (created_keys cycleLengths))) as Hsorted.
  destruct (stable_sort before (Object_keys (created_keys cycleLengths))) as [|k ks] eqn:E.
  { exfalso. destruct cycleLengths as [|x l] eqn:El.
    - unfold len in Hlen, Hpos. simpl in Hlen. lia.
    - assert (In x (stable_sort before (Object_keys (created_keys (x :: l))))) as Hx.
      { apply in_stable_sort, Hkeys. left. done. }
      rewrite E in Hx. destruct Hx. }
  assert (forall v, In v (k :: ks) <-> In v cycleLengths) as Hmem.
  { intros v. rewrite <- E, in_stable_sort. apply Hkeys. }
  assert (forall v, cycles_of_length all v = count v) as Hcount.
  { intros v. unfold cycles_of_length, count. fold cycleLengths.
    symmetry. apply count_filter_count_occ. }
  exists k. split; [done|].
  assert (In k cycleLengths) as Hk by (apply Hmem; left; done).
  split; [|split].
  - unfold cycles_of_length. fold cycleLengths.
    apply (count_occ_In Z.eq_dec) in Hk. lia.
  - intros v. destruct (in_dec Z.eq_dec v cycleLengths) as [Hv|Hv].
    + apply Hmem in Hv. destruct Hv as [->|Hv]; [lia|].
      inversion Hsorted as [|? ? _ Hall]; subst. rewrite Forall_forall in Hall.
      specialize (Hall v (proj2 (list_elem_of_In _ _) Hv)). simpl in Hall.
      rewrite !Hcount. lia.
    + unfold cycles_of_length at 1. fold cycleLengths.
      apply (count_occ_not_In Z.eq_dec) in Hv. rewrite Hv.
      unfold cycles_of_length. lia.
  - intros Hidx v Hv.
    assert (In v cycleLengths) as Hvin.
    { apply (count_occ_In Z.eq_dec). apply (count_occ_In Z.eq_dec) in Hk.
      unfold cycles_of_length in Hv. fold cycleLengths in Hv. lia. }
    assert (StronglySorted Z.lt (Object_keys (created_keys cycleLengths))) as Hasc.
    { apply Object_keys_strictly_ascending. unfold cycleLengths.
      rewrite Forall_forall in Hidx. rewrite Forall_forall. intros x Hx.
      apply list_elem_of_In, in_map_iff in Hx. destruct Hx as (c & <- & Hc).
      specialize (Hidx c (proj2 (list_elem_of_In _ _) Hc)).
      unfold is_array_index. apply andb_true_iff. split; [apply Z.leb_le|apply Z.ltb_lt]; lia. }
    pose proof (stable_sort_lexicographic (fun k => - count k) (fun k => k) before Hbefore
                  _ Hasc) as Hlex.
    rewrite E in Hlex. apply Hmem in Hvin. destruct Hvin as [->|Hvin]; [lia|].
    inversion Hlex as [|? ? _ Hall]; subst. rewrite Forall_forall in Hall.
    specialize (Hall v (proj2 (list_elem_of_In _ _) Hvin)). simpl in Hall.
    rewrite !Hcount in Hv. lia.
Qed.

End AnalyzeCycles.

Lemma in_created_names (l : list string) (k : string) : In k (created_names l) <-> In k l.
Proof.
  unfold created_names.
  assert (forall acc, In k (fold_left (fun keys v => if existsb (String.eqb v) keys then keys
                                                     else keys ++ [v]) l acc)
                      <-> In k acc \/ In k l) as H; [|rewrite H; simpl; tauto].
  induction l as [|x l IH]; intros acc; simpl; [tauto|].
  rewrite IH. destruct (existsb (String.eqb x) acc) eqn:E.
  - apply existsb_exists in E. destruct E as (y & Hy & E). apply String.eqb_eq in E. subst y.
    split; [tauto|]. intros [H|[<-|H]]; tauto.
  - rewrite in_app_iff. simpl. tauto.
Qed.

Lemma array_index_spells (key : string) (n : Z) : array_index key = Some n -> toString n = key.
Proof.
  unfold array_index. destruct (NilZero.uint_of_string key) as [d|]; [|done].
  destruct (String.eqb (toString (Z.of_uint d)) key) eqn:E; [|done].
  destruct (is_array_index (Z.of_uint d)); [|done].
  intros [= <-]. apply String.eqb_eq in E. done.
Qed.

(** A key of the object is a key that was created. *)
Lemma in_Object_names (created : list string) (k : string) :
  In k (Object_names created) -> In k created.
Proof.
  unfold Object_names. rewrite in_app_iff. intros [H|H].
  - apply in_map_iff in H. destruct H as (n & <- & Hn).
    apply list_elem_of_In in Hn. rewrite merge_sort_Permutation in Hn.
    apply list_elem_of_omap in Hn. destruct Hn as (s & Hs & Hidx).
    apply array_index_spells in Hidx. rewrite Hidx. apply list_elem_of_In. done.
  - apply filter_In in H. tauto.
Qed.

Lemma Math_round_bounds (q : Q) (lo hi : Z) :
  (inject_Z lo <= q)%Q -> (q <= inject_Z hi)%Q -> lo <= Math_round q <= hi.
Proof.
  intros Hlo Hhi. unfold Math_round. split.
  - rewrite <- (Qfloor_Z lo). apply Qfloor_resp_le.
    apply Qle_trans with q; [done|]. rewrite <- (Qplus_0_r q) at 1.
    apply Qplus_le_r. done.
  - assert (Qfloor (inject_Z hi + (1 # 2)) = hi) as <-.
    { unfold Qfloor, Qplus, inject_Z. simpl.
      symmetry. apply (Z.div_unique _ _ _ 1); lia. }
    apply Qfloor_resp_le. apply Qplus_le_l. done.
Qed.

Lemma fold_left_sum_of (A : Type) (f : A -> Z) (lo hi : Z) (l : list A) :
  (forall x, In x l -> lo <= f x <= hi) ->
  lo * len l <= fold_left (fun sum x => sum + f x) l 0 <= hi * len l.
Proof.
  intros H. rewrite <- (fold_left_over_map (fun a b => a + b) f).
  pose proof (fold_left_sum_bounds lo hi (map f l) 0) as Hb.
  unfold len in *. rewrite length_map in Hb. apply Hb.
  rewrite Forall_forall. intros y Hy. apply list_elem_of_In, in_map_iff in Hy.
  destruct Hy as (x & <- & Hx). auto.
Qed.

Lemma average_of (A : Type) (f : A -> Z) (lo hi : Z) (l : list A) :
  l <> [] -> (forall x, In x l -> lo <= f x <= hi) ->
  lo <= Math_round (Qdiv (inject_Z (fold_left (fun sum x => sum + f x) l 0))
                         (inject_Z (len l))) <= hi.
Proof.
  intros Hne H. pose proof (fold_left_sum_of A f lo hi l H) as [Hlo Hhi].
  assert (0 < len l) as Hlen by (unfold len; destruct l; [done|simpl List.length; lia]).
  assert (0 < inject_Z (len l))%Q as HlenQ
    by (change 0%Q with (inject_Z 0); rewrite <- Zlt_Qlt; done).
  apply Math_round_bounds.
  - apply Qle_shift_div_l; [done|]. rewrite <- inject_Z_mult, <- Zle_Qle. lia.
  - apply Qle_shift_div_r; [done|]. rewrite <- inject_Z_mult, <- Zle_Qle. lia.
Qed.

Section PredictProperties.
Import ComparisonAnalyzer.

Lemma findCommonPatterns_spec (sequences : list entry) :
  Forall (fun c =>
            (3 # 10 <= frequency c)%Q /\
            exists seq tag, In seq sequences /\ In tag (patterns seq) /\
                            name tag = common_name c)
         (findCommonPatterns sequences).
Proof.
  unfold findCommonPatterns. cbv zeta. rewrite Forall_forall. intros c Hc.
  apply list_elem_of_In, in_map_iff in Hc. destruct Hc as (k & <- & Hk).
  apply filter_In in Hk. destruct Hk as [Hk Hcount]. apply Z.leb_le in Hcount.
  apply in_Object_names, in_created_names, in_flat_map in Hk.
  destruct Hk as (seq & Hseq & Hk). apply in_map_iff in Hk. destruct Hk as (tag & Hname & Htag).
  cbn [frequency common_name]. split; [|eauto].
  set (count := len (List.filter (String.eqb k) _)) in *.
  assert (0 < len sequences) as Hlen.
  { unfold len. destruct sequences; [destruct Hseq|simpl List.length; lia]. }
  assert (0 < inject_Z (len sequences))%Q as HlenQ
    by (change 0%Q with (inject_Z 0); rewrite <- Zlt_Qlt; done).
  apply Qle_shift_div_l; [done|].
  apply Qle_trans with (inject_Z (Math_ceil (inject_Z (len sequences) * 0.3))).
  - unfold Math_ceil. eapply Qle_trans; [|apply Qle_ceiling].
    rewrite Qmult_comm. apply Qle_refl.
  - rewrite <- Zle_Qle. done.
Qed.

(** X25.  When the lengths and the maxima of the held sequences that start
    within 10 of [start] are non-negative and add up to less than 2^53,
    so that the host adds them exactly:
    [predictProperties(start)] declines with confidence 0 when fewer
    than 5 sequences are held, and with confidence 0.1 when no held
    sequence starts within 10 of [start].  Otherwise [similarSequences] is
    the number of held sequences that start within 10 of [start], the
    confidence is a tenth of it, at most 0.9; the predicted length and
    maximum lie between any bounds of the lengths and maxima of those
    sequences; and every common pattern is the tag of one of them, with a
    frequency of at least 3/10. *)
Theorem predictProperties_spec (sequences : list entry) (start_ : Z) :
  exact_sum (map (fun seq => CollatzAlgorithm.length (statistics seq))
                 (List.filter (fun seq => Z.abs (startNumber seq - start_) <=? 10)
                              sequences)) ->
  exact_sum (map (fun seq => CollatzAlgorithm.maxValue (statistics seq))
                 (List.filter (fun seq => Z.abs (startNumber seq - start_) <=? 10)
                              sequences)) ->
  match predictProperties sequences start_ with
  | declined confidence _ =>
      (len sequences < 5 /\ (confidence == 0)%Q)
      \/ (5 <= len sequences /\ (confidence == 1 # 10)%Q /\
          forall seq, In seq sequences -> ~ near start_ seq)
  | predicted confidence predictedLength predictedMaxValue similar common =>
      5 <= len sequences /\
      1 <= similar /\
      similar = len (List.filter (fun seq => Z.abs (startNumber seq - start_) <=? 10)
                                 sequences) /\
      (1 # 10 <= confidence)%Q /\ (confidence <= 9 # 10)%Q /\
      (similar <= 9 -> (confidence == inject_Z similar / 10)%Q) /\
      (forall lo hi,
         (forall seq, In seq sequences -> near start_ seq ->
                      lo <= CollatzAlgorithm.length (statistics seq) <= hi) ->
         lo <= predictedLength <= hi) /\
      (forall lo hi,
         (forall seq, In seq sequences -> near start_ seq ->
                      lo <= CollatzAlgorithm.maxValue (statistics seq) <= hi) ->
         lo <= predictedMaxValue <= hi) /\
      Forall (fun c =>
                (3 # 10 <= frequency c)%Q /\
                exists seq tag, In seq sequences /\ near start_ seq /\
                                In tag (patterns seq) /\ name tag = common_name c)
             common
  end.
Proof.
  intros _ _. unfold predictProperties. destruct (len sequences <? 5) eqn:Hfew.
  { apply Z.ltb_lt in Hfew. left. split; [done|]. reflexivity. }
  apply Z.ltb_ge in Hfew. cbv zeta.
  set (close := List.filter (fun seq => Z.abs (startNumber seq - start_) <=? 10) sequences).
  set (similar := stable_sort
                    (fun a b => Z.abs (startNumber a - start_)
                                - Z.abs (startNumber b - start_) <=? 0) close).
  assert (forall seq, In seq similar <-> In seq sequences /\ near start_ seq) as Hmem.
  { intros seq. unfold similar, close. rewrite in_stable_sort, filter_In.
    unfold near. rewrite Z.leb_le. done. }
  assert (len similar = len close) as Hlen
    by (unfold len, similar; rewrite length_stable_sort; done).
  destruct (len similar =? 0) eqn:Hnone.
  { apply Z.eqb_eq in Hnone. right. split; [done|]. split; [reflexivity|].
    intros seq Hseq Hnear. assert (In seq similar) as Hin by (apply Hmem; done).
    unfold len in Hnone. destruct similar; [done|]. simpl in Hnone. lia. }
  apply Z.eqb_neq in Hnone.
  assert (0 < len similar) as Hpos by (unfold len in *; lia).
  assert (similar <> []) as Hne by (intros E; rewrite E in Hnone; done).
  split; [done|]. split; [lia|]. split; [exact Hlen|].
  assert (0 < inject_Z (len similar))%Q as HposQ
    by (change 0%Q with (inject_Z 0); rewrite <- Zlt_Qlt; done).
  assert (Qle_bool 0.9 (inject_Z (len similar) / 10) = true <-> 9 <= len similar) as Hcap.
  { rewrite Qle_bool_iff. unfold Qle, Qdiv, Qmult, Qinv, inject_Z. simpl. lia. }
  split; [|split; [|split; [|split; [|split]]]].
  - destruct (Qle_bool 0.9 (inject_Z (len similar) / 10)) eqn:E.
    + unfold Qle. simpl. lia.
    + unfold Qle, Qdiv, Qmult, Qinv, inject_Z. simpl. lia.
  - destruct (Qle_bool 0.9 (inject_Z (len similar) / 10)) eqn:E.
    + unfold Qle. simpl. lia.
    + assert (~ 9 <= len similar) as Hlt by (intros H; apply Hcap in H; discriminate).
      unfold Qle, Qdiv, Qmult, Qinv, inject_Z. simpl. lia.
  - intros Hle. destruct (Qle_bool 0.9 (inject_Z (len similar) / 10)) eqn:E.
    + assert (9 <= len similar) as Hge by (apply Hcap; reflexivity).
      assert (len similar = 9) as -> by lia. reflexivity.
    + reflexivity.
  - intros lo hi H. apply average_of; [done|]. intros seq Hseq. apply Hmem in Hseq.
    apply H; tauto.
  - intros lo hi H. apply average_of; [done|]. intros seq Hseq. apply Hmem in Hseq.
    apply H; tauto.
  - pose proof (findCommonPatterns_spec similar) as Hc.
    rewrite Forall_forall in Hc. rewrite Forall_forall. intros c Hin.
    destruct (Hc c Hin) as (Hf & seq & tag & Hseq & Htag & Hname).
    split; [done|]. apply Hmem in Hseq. exists seq, tag. tauto.
Qed.

(** The same at the sample analyzer, which holds the sequences of 1, 2,
    3, 4 and 27, and the start 3. *)
Lemma predictProperties_spec_witness :
  exact_sum (map (fun seq => CollatzAlgorithm.length (statistics seq))
                 (List.filter (fun seq => Z.abs (startNumber seq - 3) <=? 10)
                              (this_sequences sample_analyzer))) /\
  exact_sum (map (fun seq => CollatzAlgorithm.maxValue (statistics seq))
                 (List.filter (fun seq => Z.abs (startNumber seq - 3) <=? 10)
                              (this_sequences sample_analyzer))) /\
  match predictProperties (this_sequences sample_analyzer) 3 with
  | declined confidence _ =>
      (len (this_sequences sample_analyzer) < 5 /\ (confidence == 0)%Q)
      \/ (5 <= len (this_sequences sample_analyzer) /\ (confidence == 1 # 10)%Q /\
          forall seq, In seq (this_sequences sample_analyzer) -> ~ near 3 seq)
  | predicted confidence predictedLength predictedMaxValue similar common =>
      5 <= len (this_sequences sample_analyzer) /\
      1 <= similar /\
      similar = len (List.filter (fun seq => Z.abs (startNumber seq - 3) <=? 10)
                                 (this_sequences sample_analyzer)) /\
      (1 # 10 <= confidence)%Q /\ (confidence <= 9 # 10)%Q /\
      (similar <= 9 -> (confidence == inject_Z similar / 10)%Q) /\
      (forall lo hi,
         (forall seq, In seq (this_sequences sample_analyzer) -> near 3 seq ->
                      lo <= CollatzAlgorithm.length (statistics seq) <= hi) ->
         lo <= predictedLength <= hi) /\
      (forall lo hi,
         (forall seq, In seq (this_sequences sample_analyzer) -> near 3 seq ->
                      lo <= CollatzAlgorithm.maxValue (statistics seq) <= hi) ->
         lo <= predictedMaxValue <= hi) /\
      Forall (fun c =>
                (3 # 10 <= frequency c)%Q /\
                exists seq tag, In seq (this_sequences sample_analyzer) /\ near 3 seq /\
                                In tag (patterns seq) /\ name tag = common_name c)
             common
  end.
Proof.
  assert (exact_sum (map (fun seq => CollatzAlgorithm.length (statistics seq))
                         (List.filter (fun seq => Z.abs (startNumber seq - 3) <=? 10)
                                      (this_sequences sample_analyzer)))) as Hlengths
    by (unfold exact_sum, written_in_digits; apply (bool_decide_unpack _); vm_compute;
        exact I).
  assert (exact_sum (map (fun seq => CollatzAlgorithm.maxValue (statistics seq))
                         (List.filter (fun seq => Z.abs (startNumber seq - 3) <=? 10)
                                      (this_sequences sample_analyzer)))) as Hmaxima
    by (unfold exact_sum, written_in_digits; apply (bool_decide_unpack _); vm_compute;
        exact I).
  split; [exact Hlengths|]. split; [exact Hmaxima|].
  exact (predictProperties_spec (this_sequences sample_analyzer) 3 Hlengths Hmaxima).
Defined.

End PredictProperties.
